(** * selenium_downloader_fixed.py: a shallow embedding and its properties

    The script drives a browser through a list of download pages, skips the
    pages whose file is already in the download directory, clicks the
    download button of the others and watches the directory until the new
    file is complete.

    Organisation of this file:
    - [exn], [result], [outcome]: how a Python call ends (a value, a raised
      exception, or a polling loop that outlived the fuel of the model);
    - [Str]: the [str] methods the script uses;
    - [Re]: regular expressions by derivatives, for the patterns the script
      compiles;
    - [M], [Env]: the monad of the script, and the operating system, the
      network and the browser driver as an interface over an abstract world;
    - [urllib], [splitext], [ContentDisposition]: the library functions the
      script calls;
    - the functions of the script, in the order of the source; [Page] holds
      [scrape_links] over the operations of the driver that it calls;
    - [Sim], [Scenario], [Cases]: a simulated world (clock, directory, fake
      browser) and the worlds of the examples;
    - the properties, and their instances in the simulated world.

    Conventions of the model.
    - Text. A Python [str] is modelled by the [string] of its UTF-8 bytes;
      the model of the [str] methods and of [urllib.parse], [os.path]
      (posixpath) and [re] follows CPython 3.11. [strip] removes the white
      space of Unicode, and [unquote] decodes the bytes of the escapes as
      UTF-8, with U+FFFD in the place of what cannot be decoded. The
      mapping of letter case ([lower], [re.I]) and the classes [\s] and
      [\d] of [re] are those of ASCII: they are exact on ASCII text, and a
      character beyond ASCII is carried through unchanged and is in
      neither class; a slice [s[:n]] counts bytes.
    - Exceptions. An operation of the environment may raise any [Exception]
      and may be interrupted by the user ([KeyboardInterrupt]); the handlers
      [except Exception] of the script absorb the former only.
    - Time. [time.time()] and the pauses are in milliseconds.
    - Sets. A Python set is a [gset]; a loop over a set follows [elements].
    - Console. The console output of [run] is modelled, event by event; the
      prints of the other functions are left out. *)

From Stdlib Require Import ZArith String Ascii List Bool Lia.
From stdpp Require Import gmap strings list.

Local Open Scope string_scope.
Local Open Scope Z_scope.

(** ** Results of calls *)

(** The two kinds of exception the script tells apart: [except Exception]
    absorbs every [Exception]; [KeyboardInterrupt] derives from
    [BaseException] and goes through such a handler. [msg] is [str(e)]. *)
Inductive exn : Type :=
| KeyboardInterrupt
| Exception (msg : string).

Inductive outcome (A : Type) : Type :=
| Ok (a : A)
| Raise (e : exn)
| Diverge.
Arguments Ok {A} a.
Arguments Raise {A} e.
Arguments Diverge {A}.

(** A call that returns: with a value, or by raising. *)
Inductive result (A : Type) : Type :=
| Val (a : A)
| Err (e : exn).
Arguments Val {A} a.
Arguments Err {A} e.

(** ** The [str] methods used by the script *)
Module Str.

(** [str.isspace] on the characters of one byte: TAB, LF, VT, FF, CR, FS,
    GS, RS, US, space. *)
Definition is_space (c : ascii) : bool :=
  let n := nat_of_ascii c in
  ((9 <=? n)%nat && (n <=? 13)%nat) || ((28 <=? n)%nat && (n <=? 32)%nat).

Definition is_digit (c : ascii) : bool :=
  let n := nat_of_ascii c in (48 <=? n)%nat && (n <=? 57)%nat.

Definition is_upper (c : ascii) : bool :=
  let n := nat_of_ascii c in (65 <=? n)%nat && (n <=? 90)%nat.

Definition is_lower (c : ascii) : bool :=
  let n := nat_of_ascii c in (97 <=? n)%nat && (n <=? 122)%nat.

Definition is_alpha (c : ascii) : bool := is_upper c || is_lower c.

Definition is_hexdigit (c : ascii) : bool :=
  let n := nat_of_ascii c in
  is_digit c || ((65 <=? n)%nat && (n <=? 70)%nat)
             || ((97 <=? n)%nat && (n <=? 102)%nat).

Definition lower_char (c : ascii) : ascii :=
  if is_upper c then ascii_of_nat (nat_of_ascii c + 32) else c.

Definition eqc (a b : ascii) : bool := Ascii.eqb a b.

(** [s.lower()] *)
Fixpoint lower (s : string) : string :=
  match s with
  | EmptyString => EmptyString
  | String c r => String (lower_char c) (lower r)
  end.

Fixpoint rev_onto (s acc : string) : string :=
  match s with
  | EmptyString => acc
  | String c r => rev_onto r (String c acc)
  end.

Definition rev (s : string) : string := rev_onto s EmptyString.

(** [s.lstrip(chars)], [s.rstrip(chars)], [s.strip(chars)] for a set of
    characters given as a predicate. *)
Fixpoint lstrip_with (p : ascii -> bool) (s : string) : string :=
  match s with
  | EmptyString => EmptyString
  | String c r => if p c then lstrip_with p r else s
  end.

Definition rstrip_with (p : ascii -> bool) (s : string) : string :=
  rev (lstrip_with p (rev s)).

Definition strip_with (p : ascii -> bool) (s : string) : string :=
  rstrip_with p (lstrip_with p s).

(** The white space of two bytes: U+0085 and U+00A0. *)
Definition is_space2 (c1 c2 : ascii) : bool :=
  let n2 := nat_of_ascii c2 in
  (nat_of_ascii c1 =? 194)%nat && ((n2 =? 133)%nat || (n2 =? 160)%nat).

(** The white space of three bytes: U+1680, U+2000 to U+200A, U+2028,
    U+2029, U+202F, U+205F and U+3000. *)
Definition is_space3 (c1 c2 c3 : ascii) : bool :=
  let n1 := nat_of_ascii c1 in
  let n2 := nat_of_ascii c2 in
  let n3 := nat_of_ascii c3 in
  ((n1 =? 225)%nat && (n2 =? 154)%nat && (n3 =? 128)%nat)
  || ((n1 =? 226)%nat && (n2 =? 128)%nat
      && (((128 <=? n3)%nat && (n3 <=? 138)%nat)
          || (n3 =? 168)%nat || (n3 =? 169)%nat || (n3 =? 175)%nat))
  || ((n1 =? 226)%nat && (n2 =? 129)%nat && (n3 =? 159)%nat)
  || ((n1 =? 227)%nat && (n2 =? 128)%nat && (n3 =? 128)%nat).

(** The leading characters of one, two and three bytes that [p1], [p2]
    and [p3] accept are removed. *)
Fixpoint lstrip_seq (p1 : ascii -> bool) (p2 : ascii -> ascii -> bool)
    (p3 : ascii -> ascii -> ascii -> bool) (s : string) : string :=
  match s with
  | EmptyString => EmptyString
  | String c1 r1 =>
      if p1 c1 then lstrip_seq p1 p2 p3 r1
      else
        match r1 with
        | EmptyString => s
        | String c2 r2 =>
            if p2 c1 c2 then lstrip_seq p1 p2 p3 r2
            else
              match r2 with
              | EmptyString => s
              | String c3 r3 =>
                  if p3 c1 c2 c3 then lstrip_seq p1 p2 p3 r3 else s
              end
        end
  end.

(** The text after one leading character that [p1], [p2] or [p3]
    accepts, if there is one. *)
Definition skip_seq (p1 : ascii -> bool) (p2 : ascii -> ascii -> bool)
    (p3 : ascii -> ascii -> ascii -> bool) (s : string) : option string :=
  match s with
  | String c1 r1 =>
      if p1 c1 then Some r1
      else
        match r1 with
        | String c2 r2 =>
            if p2 c1 c2 then Some r2
            else
              match r2 with
              | String c3 r3 => if p3 c1 c2 c3 then Some r3 else None
              | EmptyString => None
              end
        | EmptyString => None
        end
  | EmptyString => None
  end.

(** [s.lstrip()], [s.rstrip()] and [s.strip()]: the white space of
    Unicode ([str.isspace]) is removed, at the start, at the end, at both
    ends. *)
Definition lstrip (s : string) : string :=
  lstrip_seq is_space is_space2 is_space3 s.

Definition rstrip (s : string) : string :=
  rev (lstrip_seq is_space (fun c2 c1 => is_space2 c1 c2)
         (fun c3 c2 c1 => is_space3 c1 c2 c3) (rev s)).

Definition strip (s : string) : string := rstrip (lstrip s).

(** [s.startswith(p)] *)
Fixpoint startswith (p s : string) : bool :=
  match p, s with
  | EmptyString, _ => true
  | String a p', String b s' => eqc a b && startswith p' s'
  | String _ _, EmptyString => false
  end.

(** [s.endswith(p)] *)
Definition endswith (p s : string) : bool := startswith (rev p) (rev s).

(** [needle in hay] *)
Fixpoint contains (needle hay : string) : bool :=
  startswith needle hay ||
  match hay with
  | EmptyString => false
  | String _ r => contains needle r
  end.

(** [c in s] for one character *)
Fixpoint has_char (c : ascii) (s : string) : bool :=
  match s with
  | EmptyString => false
  | String d r => eqc c d || has_char c r
  end.

(** [s.split(sep)] for a one-character separator: never empty. *)
Fixpoint split (sep : ascii) (s : string) : list string :=
  match s with
  | EmptyString => [EmptyString]
  | String c r =>
      if eqc c sep then EmptyString :: split sep r
      else match split sep r with
           | h :: t => String c h :: t
           | [] => [String c EmptyString]
           end
  end.

(** [l[0]] and [l[-1]] of a list produced by [split]. *)
Definition first (l : list string) : string := List.hd EmptyString l.
Definition last (l : list string) : string := List.last l EmptyString.

(** [s.split(sep, 1)]: the text before the first [sep], and the text
    after it when there is one. *)
Fixpoint split1 (sep : ascii) (s : string) : string * option string :=
  match s with
  | EmptyString => (EmptyString, None)
  | String c r =>
      if eqc c sep then (EmptyString, Some r)
      else let '(h, t) := split1 sep r in (String c h, t)
  end.

Fixpoint drop_len (p s : string) : string :=
  match p, s with
  | String _ p', String _ s' => drop_len p' s'
  | _, _ => s
  end.

(** [s.split(sep, 1)] for a separator of several characters. *)
Fixpoint split1_str (sep s : string) {struct s} : string * option string :=
  match s with
  | EmptyString =>
      if startswith sep EmptyString then (EmptyString, Some EmptyString)
      else (EmptyString, None)
  | String c r =>
      if startswith sep s then (EmptyString, Some (drop_len sep s))
      else let '(h, t) := split1_str sep r in (String c h, t)
  end.

(** [s.replace(a, b)] for single characters. *)
Fixpoint replace_char (a b : ascii) (s : string) : string :=
  match s with
  | EmptyString => EmptyString
  | String c r => String (if eqc c a then b else c) (replace_char a b r)
  end.

(** [s.replace(a, empty)] for a single character [a]. *)
Fixpoint remove_char (a : ascii) (s : string) : string :=
  match s with
  | EmptyString => EmptyString
  | String c r => if eqc c a then remove_char a r else String c (remove_char a r)
  end.

(** [s[:n]] and [s[n:]] for [0 <= n]. *)
Fixpoint take (n : nat) (s : string) : string :=
  match n, s with
  | S n', String c r => String c (take n' r)
  | _, _ => EmptyString
  end.

Fixpoint drop (n : nat) (s : string) : string :=
  match n, s with
  | S n', String _ r => drop n' r
  | _, _ => s
  end.

(** [s.find(c)] and [s.rfind(c)]: an index, or [-1]. *)
Fixpoint find_from (c : ascii) (s : string) (i : Z) : Z :=
  match s with
  | EmptyString => -1
  | String d r => if eqc c d then i else find_from c r (i + 1)
  end.

Definition find (c : ascii) (s : string) : Z := find_from c s 0.

Fixpoint rfind_from (c : ascii) (s : string) (i : Z) (found : Z) : Z :=
  match s with
  | EmptyString => found
  | String d r => rfind_from c r (i + 1) (if eqc c d then i else found)
  end.

Definition rfind (c : ascii) (s : string) : Z := rfind_from c s 0 (-1).

Definition len (s : string) : nat := String.length s.

(** [not s] *)
Definition is_empty (s : string) : bool :=
  match s with EmptyString => true | _ => false end.

End Str.

(** ** Regular expressions: the fragment of [re] the script compiles

    A pattern is a regular expression over character classes; a text is
    matched by taking derivatives. *)
Module Re.

Inductive regex : Type :=
| Void
| Eps
| Chr (p : ascii -> bool)
| Cat (r1 r2 : regex)
| Alt (r1 r2 : regex)
| Star (r : regex).

Fixpoint nullable (r : regex) : bool :=
  match r with
  | Void => false
  | Eps => true
  | Chr _ => false
  | Cat r1 r2 => nullable r1 && nullable r2
  | Alt r1 r2 => nullable r1 || nullable r2
  | Star _ => true
  end.

Fixpoint deriv (c : ascii) (r : regex) : regex :=
  match r with
  | Void => Void
  | Eps => Void
  | Chr p => if p c then Eps else Void
  | Cat r1 r2 =>
      if nullable r1 then Alt (Cat (deriv c r1) r2) (deriv c r2)
      else Cat (deriv c r1) r2
  | Alt r1 r2 => Alt (deriv c r1) (deriv c r2)
  | Star r1 => Cat (deriv c r1) (Star r1)
  end.

(** The whole text is in the language of [r]. *)
Fixpoint fullmatch (r : regex) (s : string) : bool :=
  match s with
  | EmptyString => nullable r
  | String c s' => fullmatch (deriv c r) s'
  end.

(** One literal character under [re.I]. *)
Definition chr_i (c : ascii) : regex :=
  Chr (fun d => Str.eqc (Str.lower_char d) (Str.lower_char c)).

(** [re.escape(s)] under [re.I]: the text [s] itself, letters in either
    case. *)
Fixpoint lit_i (s : string) : regex :=
  match s with
  | EmptyString => Eps
  | String c r => Cat (chr_i c) (lit_i r)
  end.

Definition chr (c : ascii) : regex := Chr (Str.eqc c).
Definition ws : regex := Chr Str.is_space.       (* \s *)
Definition digit : regex := Chr Str.is_digit.    (* \d *)
Definition opt (r : regex) : regex := Alt Eps r.         (* (?:r)? *)
Definition plus (r : regex) : regex := Cat r (Star r).   (* r+ *)

Definition newline : ascii := "010"%char.

(** [re.compile(r + "$").match(s)], as a truth value: [$] holds at the
    end of the text and just before a newline that ends the text. *)
Definition match_dollar (r : regex) (s : string) : bool :=
  fullmatch (Cat r (opt (chr newline))) s.

(** [re.sub] of the pattern [r] followed by [$], by the empty text, in
    [s], for a pattern [r] that matches neither the
    empty text nor a text ending in a newline: the leftmost match is
    removed, and a newline that ends the text stays. *)
Fixpoint sub_dollar (r : regex) (s : string) : string :=
  if fullmatch r s then EmptyString
  else if fullmatch (Cat r (chr newline)) s then String newline EmptyString
  else match s with
       | EmptyString => EmptyString
       | String c t => String c (sub_dollar r t)
       end.

End Re.

(** ** The environment

    [W] is the state of everything outside the interpreter: the file
    system, the clock, the network and the browser. An operation takes the
    world to a new world and returns a value or raises. *)
Definition M (W A : Type) : Type := W -> outcome A * W.

Definition ret {W A} (a : A) : M W A := fun w => (Ok a, w).
Definition raise {W A} (e : exn) : M W A := fun w => (Raise e, w).
Definition diverge {W A} : M W A := fun w => (Diverge, w).

Definition bind {W A B} (m : M W A) (k : A -> M W B) : M W B :=
  fun w =>
    match m w with
    | (Ok a, w') => k a w'
    | (Raise e, w') => (Raise e, w')
    | (Diverge, w') => (Diverge, w')
    end.

(** [try: m except Exception as e: h e] *)
Definition try_except {W A} (m : M W A) (h : string -> M W A) : M W A :=
  fun w =>
    match m w with
    | (Raise (Exception msg), w') => h msg w'
    | r => r
    end.

(** [yields P m]: every value that [m] returns satisfies [P]. *)
Definition yields {S A : Type} (P : A -> Prop) (m : M S A) : Prop :=
  forall s a s', m s = (Ok a, s') -> P a.

#[global] Instance M_ret {W} : MRet (M W) := fun A a => ret a.
#[global] Instance M_bind {W} : MBind (M W) := fun A B k m => bind m k.

(** An operation of the environment: it returns or raises, and changes
    the world. *)
Definition Prim (W A : Type) : Type := W -> result A * W.

Definition call {W A} (p : Prim W A) : M W A :=
  fun w =>
    match p w with
    | (Val a, w') => (Ok a, w')
    | (Err e, w') => (Raise e, w')
    end.

(** Handles of the browser driver and of page elements. *)
Definition driver : Type := nat.
Definition element : Type := nat.

Inductive By : Type := CSS_SELECTOR | XPATH | TAG_NAME.
Definition selector : Type := (By * string)%type.

(** The three scripts the source runs on an element. *)
Inductive script : Type :=
| JsRemove            (* "arguments[0].remove();" *)
| JsScrollIntoView    (* "arguments[0].scrollIntoView({block: 'center'});" *)
| JsClick.            (* "arguments[0].click();" *)

Class Env (W : Type) : Type := {
  (** os, pathlib, open *)
  os_listdir : string -> Prim W (list string);
  os_path_getsize : string -> Prim W Z;
  path_exists : string -> Prim W bool;
  path_mkdir : string -> Prim W unit;
  (** [with open(path, "r", encoding="utf-8") as f: for line in f]: the
      lines that the loop gets, one after the other, and the exception
      that ends the reading before the end of the file, if any (the file
      cannot be opened: no line; a line cannot be decoded: the lines
      before it) *)
  read_lines : string -> W -> (list string * option exn) * W;
  (** time: [time_time] in milliseconds, [time_sleep] takes milliseconds *)
  time_time : Prim W Z;
  time_sleep : Z -> Prim W unit;
  (** [requests.head(url, allow_redirects=True, timeout=5)
       .headers.get("content-disposition")]; raises when [requests] is
      missing or the request fails *)
  requests_head : string -> Prim W (option string);
  (** selenium *)
  webdriver_Chrome : string -> bool -> bool -> Prim W driver;
  execute_cdp_cmd : driver -> Prim W unit;
  current_url : driver -> Prim W string;
  driver_get : driver -> string -> Prim W unit;
  find_elements : driver -> selector -> Prim W (list element);
  execute_script : driver -> script -> element -> Prim W unit;
  wait_until_clickable : driver -> Z -> selector -> Prim W element;
  action_chains_click : driver -> element -> Prim W unit;
  element_click : element -> Prim W unit;
  driver_quit : driver -> Prim W unit;
  (** [scrape_links]: link discovery on the listing page, taken as one
      operation (no property below depends on how links are found) *)
  scrape_links : driver -> string -> Z -> Prim W (list string);
  (** host checks of [urllib.parse.urlsplit]: [ipaddress.ip_address(h)]
      is an IPv6 address; the netloc passes the NFKC check *)
  ipaddress_is_ipv6 : string -> bool;
  nfkc_netloc_ok : string -> bool
}.

(** A pure call that may raise, inside the monad. *)
Definition lift_pure {W A} (r : result A) : M W A :=
  fun w => (match r with Val a => Ok a | Err e => Raise e end, w).

(** ** [urllib.parse] (CPython 3.11) *)
Module urllib.

Record ParseResult : Type := {
  scheme : string;
  netloc : string;
  path : string;
  params : string;
  query : string;
  fragment : string
}.

Definition hexval (c : ascii) : nat :=
  let n := nat_of_ascii c in
  if Str.is_digit c then n - 48
  else if (97 <=? n)%nat then n - 87 else n - 55.

(** [unquote_to_bytes]: every [%XX] with two hexadecimal digits becomes
    the byte of that value; any other [%] stays. *)
Fixpoint unquote_to_bytes (s : string) : string :=
  match s with
  | EmptyString => EmptyString
  | String c r =>
      match r with
      | String h1 (String h2 r') =>
          if Str.eqc c "%" && Str.is_hexdigit h1 && Str.is_hexdigit h2
          then String (ascii_of_nat (16 * hexval h1 + hexval h2))
                 (unquote_to_bytes r')
          else String c (unquote_to_bytes r)
      | _ => String c (unquote_to_bytes r)
      end
  end.

Definition between (lo hi : nat) (c : ascii) : bool :=
  let n := nat_of_ascii c in (lo <=? n)%nat && (n <=? hi)%nat.

(** U+FFFD, the replacement character, before [rest] *)
Definition replacement (rest : string) : string :=
  String (ascii_of_nat 239) (String (ascii_of_nat 191)
    (String (ascii_of_nat 189) rest)).

(** The second byte that may follow the first byte [b0] of a sequence of
    three or four bytes: no overlong form, no surrogate, nothing above
    U+10FFFF. *)
Definition second_ok (b0 b1 : ascii) : bool :=
  let n0 := nat_of_ascii b0 in
  if (n0 =? 224)%nat then between 160 191 b1
  else if (n0 =? 237)%nat then between 128 159 b1
  else if (n0 =? 240)%nat then between 144 191 b1
  else if (n0 =? 244)%nat then between 128 143 b1
  else between 128 191 b1.

(** [bytes.decode("utf-8", "replace")]: a well-formed sequence is kept; a
    byte that starts none, and the well-formed start of a sequence that is
    cut short, become U+FFFD, and decoding goes on at the byte after
    them. *)
Fixpoint decode (s : string) : string :=
  match s with
  | EmptyString => EmptyString
  | String b0 r0 =>
      if between 0 127 b0 then String b0 (decode r0)
      else if between 194 223 b0 then
        match r0 with
        | String b1 r1 =>
            if between 128 191 b1 then String b0 (String b1 (decode r1))
            else replacement (decode r0)
        | EmptyString => replacement EmptyString
        end
      else if between 224 239 b0 then
        match r0 with
        | String b1 r1 =>
            if second_ok b0 b1 then
              match r1 with
              | String b2 r2 =>
                  if between 128 191 b2
                  then String b0 (String b1 (String b2 (decode r2)))
                  else replacement (decode r1)
              | EmptyString => replacement EmptyString
              end
            else replacement (decode r0)
        | EmptyString => replacement EmptyString
        end
      else if between 240 244 b0 then
        match r0 with
        | String b1 r1 =>
            if second_ok b0 b1 then
              match r1 with
              | String b2 r2 =>
                  if between 128 191 b2 then
                    match r2 with
                    | String b3 r3 =>
                        if between 128 191 b3
                        then String b0 (String b1 (String b2 (String b3
                               (decode r3))))
                        else replacement (decode r2)
                    | EmptyString => replacement EmptyString
                    end
                  else replacement (decode r1)
              | EmptyString => replacement EmptyString
              end
            else replacement (decode r0)
        | EmptyString => replacement EmptyString
        end
      else replacement (decode r0)
  end.

(** The loop of [unquote] over the text cut into runs of ASCII characters
    and runs of other characters: each ASCII run is unquoted and decoded
    on its own, the other characters are kept. [run] is the ASCII run read
    so far, backwards. *)
Fixpoint unquote_runs (s run : string) : string :=
  match s with
  | EmptyString => decode (unquote_to_bytes (Str.rev run))
  | String c r =>
      if between 0 127 c then unquote_runs r (String c run)
      else decode (unquote_to_bytes (Str.rev run))
           +:+ String c (unquote_runs r EmptyString)
  end.

(** [unquote(string)], with [encoding="utf-8"] and [errors="replace"]: a
    text without [%] is returned as it is. *)
Definition unquote (s : string) : string :=
  if Str.has_char "%" s then unquote_runs s EmptyString else s.

(** [unquote_plus] *)
Definition unquote_plus (s : string) : string :=
  unquote (Str.replace_char "+" " " s).

(** [parse_qsl(qs)] with its default arguments: fields are separated by
    [&]; a field without [=] or with an empty value is dropped. *)
Definition parse_qsl (qs : string) : list (string * string) :=
  if Str.is_empty qs then []
  else
    List.flat_map
      (fun name_value =>
         match Str.split1 "=" name_value with
         | (n, Some v) =>
             if Str.is_empty v then []
             else [(unquote (Str.replace_char "+" " " n),
                    unquote (Str.replace_char "+" " " v))]
         | (_, None) => []
         end)
      (Str.split "&" qs).

(** [parse_qs(qs)]: each name with the list of its values, in order. *)
Definition parse_qs (qs : string) : gmap string (list string) :=
  List.fold_left
    (fun (d : gmap string (list string)) (nv : string * string) =>
       match d !! fst nv with
       | Some vs => <[fst nv := List.app vs [snd nv]]> d
       | None => <[fst nv := [snd nv]]> d
       end)
    (parse_qsl qs) ∅.

Definition uses_params : list string :=
  [EmptyString; "ftp"; "hdl"; "prospero"; "http"; "imap"; "https"; "shttp"; "rtsp";
   "rtspu"; "sip"; "sips"; "mms"; "sftp"; "tel"].

Definition is_scheme_char (c : ascii) : bool :=
  Str.is_alpha c || Str.is_digit c
  || Str.eqc c "+" || Str.eqc c "-" || Str.eqc c ".".

Fixpoint all_chars (p : ascii -> bool) (s : string) : bool :=
  match s with
  | EmptyString => true
  | String c r => p c && all_chars p r
  end.

Definition is_c0_or_space (c : ascii) : bool := (nat_of_ascii c <=? 32)%nat.
Definition is_ascii_char (c : ascii) : bool := (nat_of_ascii c <=? 127)%nat.

(** [_splitnetloc(url, 2)] after the leading [//] is dropped: the text up
    to the first of [/], [?], [#], and the rest. *)
Fixpoint splitnetloc (s : string) : string * string :=
  match s with
  | EmptyString => (EmptyString, EmptyString)
  | String c r =>
      if Str.eqc c "/" || Str.eqc c "?" || Str.eqc c "#"
      then (EmptyString, s)
      else let '(h, t) := splitnetloc r in (String c h, t)
  end.

(** [s.rpartition(c)[2]] *)
Definition after_last (c : ascii) (s : string) : string :=
  Str.last (Str.split c s).

Section Hosts.
Context {W : Type} `{Env W}.

Definition vfuture : Re.regex :=   (* \Av[a-fA-F0-9]+\..+\Z *)
  Re.Cat (Re.chr "v")
    (Re.Cat (Re.plus (Re.Chr Str.is_hexdigit))
       (Re.Cat (Re.chr ".")
          (Re.plus (Re.Chr (fun c => negb (Str.eqc c Re.newline)))))).

Definition _check_bracketed_host (hostname : string) : result unit :=
  if Str.startswith "v" hostname then
    if Re.fullmatch vfuture hostname then Val tt
    else Err (Exception "IPvFuture address is invalid")
  else if ipaddress_is_ipv6 hostname then Val tt
  else Err (Exception "not an IPv6 address").

Definition _check_bracketed_netloc (netloc : string) : result unit :=
  let hostname_and_port := after_last "@" netloc in
  match Str.split1 "[" hostname_and_port with
  | (before_bracket, Some bracketed) =>
      if negb (Str.is_empty before_bracket)
      then Err (Exception "Invalid IPv6 URL")
      else
        let '(hostname, port) := Str.split1 "]" bracketed in
        match port with
        | Some p =>
            if negb (Str.is_empty p) && negb (Str.startswith ":" p)
            then Err (Exception "Invalid IPv6 URL")
            else _check_bracketed_host hostname
        | None => _check_bracketed_host hostname
        end
  | (_, None) =>
      _check_bracketed_host (fst (Str.split1 ":" hostname_and_port))
  end.

Definition _checknetloc (netloc : string) : result unit :=
  if Str.is_empty netloc || all_chars is_ascii_char netloc then Val tt
  else if nfkc_netloc_ok netloc then Val tt
  else Err (Exception "netloc contains invalid characters under NFKC normalization").

(** [urlsplit(url)]: (scheme, netloc, path, query, fragment) *)
Definition urlsplit (url : string)
  : result (string * string * string * string * string) :=
  let url := Str.lstrip_with is_c0_or_space url in
  let url := Str.remove_char "010" (Str.remove_char "013" (Str.remove_char "009" url)) in
  let '(scheme, url) :=
    match Str.split1 ":" url with
    | (h, Some rest) =>
        match h with
        | String c0 _ =>
            if is_ascii_char c0 && Str.is_alpha c0 && all_chars is_scheme_char h
            then (Str.lower h, rest) else (EmptyString, url)
        | EmptyString => (EmptyString, url)
        end
    | (_, None) => (EmptyString, url)
    end in
  let after_netloc :=
    if Str.startswith "//" url then
      let '(netloc, rest) := splitnetloc (Str.drop 2 url) in
      let lb := Str.has_char "[" netloc in
      let rb := Str.has_char "]" netloc in
      if (lb && negb rb) || (rb && negb lb)
      then Err (Exception "Invalid IPv6 URL")
      else if lb && rb then
        match _check_bracketed_netloc netloc with
        | Val _ => Val (netloc, rest)
        | Err e => Err e
        end
      else Val (netloc, rest)
    else Val (EmptyString, url) in
  match after_netloc with
  | Val (netloc, url) =>
      let '(url, fragment) :=
        match Str.split1 "#" url with
        | (h, Some t) => (h, t)
        | (h, None) => (h, EmptyString)
        end in
      let '(url, query) :=
        match Str.split1 "?" url with
        | (h, Some t) => (h, t)
        | (h, None) => (h, EmptyString)
        end in
      match _checknetloc netloc with
      | Val _ => Val (scheme, netloc, url, query, fragment)
      | Err e => Err e
      end
  | Err e => Err e
  end.

(** [_splitparams(url)], called when [;] occurs in [url] *)
Definition _splitparams (url : string) : string * string :=
  if Str.has_char "/" url then
    let k := Z.to_nat (Str.rfind "/" url) in
    match Str.split1 ";" (Str.drop k url) with
    | (h, Some t) => (Str.take k url +:+ h, t)
    | (_, None) => (url, EmptyString)
    end
  else
    match Str.split1 ";" url with
    | (h, Some t) => (h, t)
    | (_, None) => (url, EmptyString)
    end.

(** [urlparse(url)] *)
Definition urlparse (url : string) : result ParseResult :=
  match urlsplit url with
  | Val (scheme, netloc, url, query, fragment) =>
      let '(url, params) :=
        if bool_decide (scheme ∈ uses_params) && Str.has_char ";" url
        then _splitparams url else (url, EmptyString) in
      Val {| scheme := scheme; netloc := netloc; path := url;
            params := params; query := query; fragment := fragment |}
  | Err e => Err e
  end.

End Hosts.

End urllib.

(** [os.path.splitext] (posixpath): the extension starts at the last dot
    of the last path component, leading dots of that component apart. *)
Definition splitext (p : string) : string * string :=
  let sepIndex := Str.rfind "/" p in
  let dotIndex := Str.rfind "." p in
  if sepIndex <? dotIndex then
    let name := Str.take (Z.to_nat (dotIndex - (sepIndex + 1)))
                  (Str.drop (Z.to_nat (sepIndex + 1)) p) in
    if urllib.all_chars (Str.eqc ".") name then (p, EmptyString)
    else (Str.take (Z.to_nat dotIndex) p, Str.drop (Z.to_nat dotIndex) p)
  else (p, EmptyString).

(** [download_dir / name] for a name of a directory entry. *)
Definition path_join (download_dir name : string) : string :=
  download_dir +:+ "/" +:+ name.

(** A value used as a condition: [None] and the empty text are false. *)
Definition truthy (o : option string) : bool :=
  match o with
  | Some s => negb (Str.is_empty s)
  | None => false
  end.

(** ** The two searches in the Content-Disposition header *)
Module ContentDisposition.

Fixpoint take_while (p : ascii -> bool) (s : string) : string :=
  match s with
  | EmptyString => EmptyString
  | String c r => if p c then String c (take_while p r) else EmptyString
  end.

(** The last character of the leading white space of [s], if any. *)
Fixpoint last_leading_space (s : string) : option ascii :=
  match s with
  | String c r =>
      if Str.is_space c then
        match last_leading_space r with
        | Some d => Some d
        | None => Some c
        end
      else None
  | EmptyString => None
  end.

Definition dquote : ascii := "034"%char.

(** What the group captures at [s], for a pattern that goes on with
    white space, an optional double quote when [quote] is set, and a
    group of one or more characters of [cls]: the longest run of [cls]
    after the white space and the quote, or, when that run is empty, the
    one white space character that the white space gives back. *)
Definition capture (cls : ascii -> bool) (quote : bool) (s : string)
  : option string :=
  let s4 := Str.lstrip_with Str.is_space s in
  let s5 := match s4 with
            | String c r => if quote && Str.eqc c dquote then r else s4
            | EmptyString => s4
            end in
  let g := take_while cls s5 in
  if negb (Str.is_empty g) then Some g
  else match last_leading_space s with
       | Some c => Some (String c EmptyString)
       | None => None
       end.

(** The pattern [key \s* = \s* group] at the very start of [s]. *)
Definition match_at (key : string) (cls : ascii -> bool) (quote : bool)
    (s : string) : option string :=
  if Str.startswith key (Str.lower s) then
    match Str.lstrip_with Str.is_space (Str.drop (Str.len key) s) with
    | String c s3 => if Str.eqc c "=" then capture cls quote s3 else None
    | EmptyString => None
    end
  else None.

(** [re.search]: the leftmost position where the pattern matches. *)
Fixpoint search (key : string) (cls : ascii -> bool) (quote : bool)
    (s : string) : option string :=
  match match_at key cls quote s with
  | Some g => Some g
  | None =>
      match s with
      | EmptyString => None
      | String _ r => search key cls quote r
      end
  end.

(** Group 1 of the search for filename\*\s*=\s*([^;]+) under re.I *)
Definition search_filename_star (cd : string) : option string :=
  search "filename*" (fun c => negb (Str.eqc c ";")) false cd.

(** The group name of the search, under re.I, for filename, white
    space, =, white space, an optional double quote, and the group: one or
    more characters other than the double quote and the semicolon *)
Definition search_filename (cd : string) : option string :=
  search "filename"
    (fun c => negb (Str.eqc c ";") && negb (Str.eqc c dquote)) true cd.

Definition is_quote (c : ascii) : bool := Str.eqc c dquote || Str.eqc c "'".

End ContentDisposition.

Section Script.
Context {W : Type} `{Env W}.

(** ** get_filename_from_url *)

(** 1) Path-based filename *)
Definition rule1_path (path : string) : option string :=
  if Str.is_empty path then None
  else
    let candidate := urllib.unquote (Str.last (Str.split "/" path)) in
    let candidate :=
      Str.strip (Str.first (Str.split "?" (Str.first (Str.split "#" candidate)))) in
    if negb (Str.is_empty candidate) && Str.contains "." candidate
       && negb (Str.endswith "/" candidate || Str.endswith "\" candidate)
    then Some candidate else None.

(** 2) Query-string parameters *)
Definition query_keys : list string :=
  ["file"; "filename"; "name"; "attachment"; "download"; "title"].

Fixpoint rule2_keys (qs : gmap string (list string)) (keys : list string)
  : option string :=
  match keys with
  | [] => None
  | key :: keys' =>
      match qs !! key with
      | Some (v :: _) =>
          let candidate := Str.strip (urllib.unquote_plus v) in
          if negb (Str.is_empty candidate) && Str.contains "." candidate
          then Some candidate else rule2_keys qs keys'
      | _ => rule2_keys qs keys'
      end
  end.

Definition rule2_query (query : string) : option string :=
  rule2_keys (urllib.parse_qs query) query_keys.

(** 3) Fragment *)
Definition rule3_fragment (frag : string) : option string :=
  if negb (Str.is_empty frag) && Str.contains "." frag then
    let frag_candidate :=
      Str.strip (urllib.unquote (Str.last (Str.split "/" frag))) in
    if negb (Str.is_empty frag_candidate) && Str.contains "." frag_candidate
    then Some frag_candidate else None
  else None.

(** 4) The Content-Disposition header of the HEAD response *)
Definition header_star (cd : string) : option string :=
  match ContentDisposition.search_filename_star cd with
  | Some g =>
      let fname :=
        Str.strip_with ContentDisposition.is_quote (Str.strip g) in
      let fname :=
        if Str.contains "''" fname then
          match snd (Str.split1_str "''" fname) with
          | Some t => urllib.unquote t
          | None => fname
          end
        else fname in
      let fname := urllib.unquote fname in
      if Str.contains "." fname then Some fname else None
  | None => None
  end.

Definition header_plain (cd : string) : option string :=
  match ContentDisposition.search_filename cd with
  | Some g =>
      let fname :=
        urllib.unquote
          (Str.strip_with ContentDisposition.is_quote (Str.strip g)) in
      if Str.contains "." fname then Some fname else None
  | None => None
  end.

Definition rule4_header (cd : option string) : option string :=
  match cd with
  | Some cd =>
      if Str.is_empty cd then None
      else match header_star cd with
           | Some fname => Some fname
           | None => header_plain cd
           end
  | None => None
  end.

Definition get_filename_from_url (url : string) : M W (option string) :=
  if Str.is_empty url then mret None
  else
    try_except
      (let url := Str.strip url in
       parsed ← lift_pure (urllib.urlparse url);
       match rule1_path (urllib.path parsed) with
       | Some candidate => mret (Some candidate)
       | None =>
       match rule2_query (urllib.query parsed) with
       | Some candidate => mret (Some candidate)
       | None =>
       match rule3_fragment (urllib.fragment parsed) with
       | Some frag_candidate => mret (Some frag_candidate)
       | None =>
           try_except
             (cd ← call (requests_head url); mret (rule4_header cd))
             (fun _ => mret None)
       end end end)
      (fun _ => mret None).

(** ** check_file_exists *)

(** \s*\(\d+\) *)
Definition dup_marker : Re.regex :=
  Re.Cat (Re.Star Re.ws)
    (Re.Cat (Re.chr "(") (Re.Cat (Re.plus Re.digit) (Re.chr ")"))).

(** The pattern compiled from [base] and [ext], without its final [$]:
    ^base(?:\s*\(\d+\))?ext(?:\.crdownload|\.part|\.tmp)? under re.I *)
Definition pattern (base ext : string) : Re.regex :=
  Re.Cat (Re.lit_i base)
    (Re.Cat (Re.opt dup_marker)
       (Re.Cat (Re.lit_i ext)
          (Re.opt (Re.Alt (Re.lit_i ".crdownload")
                     (Re.Alt (Re.lit_i ".part") (Re.lit_i ".tmp")))))).

Definition fallback_exts (ext : string) : list string :=
  [ext; ext +:+ ".crdownload"; ext +:+ ".part"; ext +:+ ".tmp"].

(** The test of the fallback pass on one directory entry. *)
Definition fallback_match (base ext fname : string) : bool :=
  let lf := Str.lower fname in
  List.existsb
    (fun fe =>
       Str.endswith (Str.lower fe) lf &&
       let stem := Str.take (Str.len lf - Str.len fe) lf in
       let stem_clean := Str.strip (Re.sub_dollar dup_marker stem) in
       Str.contains (Str.lower base) stem_clean)
    (fallback_exts ext).

Definition check_file_exists (download_dir url : string)
  : M W (option string) :=
  try_except
    (hint ← get_filename_from_url url;
     match hint with
     | None => mret None
     | Some hint =>
         if Str.is_empty hint then mret None
         else
           let hint := Str.strip hint in
           let '(base, ext) := splitext hint in
           if Str.is_empty ext then mret None
           else
             names ← call (os_listdir download_dir);
             match List.find (Re.match_dollar (pattern base ext)) names with
             | Some fname => mret (Some fname)
             | None =>
                 names ← call (os_listdir download_dir);
                 mret (List.find (fallback_match base ext) names)
             end
     end)
    (fun _ => mret None).

(** ** get_incomplete_files *)
Definition get_incomplete_files (download_dir : string) : M W (list string) :=
  try_except
    (names ← call (os_listdir download_dir);
     mret (List.filter
             (fun f => Str.endswith ".part" f || Str.endswith ".tmp" f)
             names))
    (fun _ => mret []).

(** ** wait_for_download_complete *)

Definition is_temp (f : string) : bool :=
  Str.endswith ".crdownload" f || Str.endswith ".part" f
  || Str.endswith ".tmp" f.

(** The stability window [for _ in range(stable_checks)]: the answer is
    the value of [stable] after the loop. *)
Fixpoint size_stable (fp : string) (size : Z) (stable_checks : nat)
  : M W bool :=
  match stable_checks with
  | O => mret true
  | S n =>
      _ ← call (time_sleep 1000);
      new_size ← try_except (call (os_path_getsize fp)) (fun _ => mret size);
      if negb (new_size =? size) then mret false
      else size_stable fp size n
  end.

(** [for fn in list(new_files)]: [Some fn] when the loop returns [fn]. *)
Fixpoint scan_new_files (download_dir : string) (new_files : list string)
    (stable_checks : nat) : M W (option string) :=
  match new_files with
  | [] => mret None
  | fn :: rest =>
      let fp := path_join download_dir fn in
      e ← call (path_exists fp);
      if negb e then scan_new_files download_dir rest stable_checks
      else
        size ← call (os_path_getsize fp);
        stable ← size_stable fp size stable_checks;
        if (stable : bool) then mret (Some fn)
        else scan_new_files download_dir rest stable_checks
  end.

(** [check_file_exists(download_dir, target_url)] under [if target_url] *)
Definition recheck (download_dir : string) (target_url : option string)
  : M W (option string) :=
  if truthy target_url then
    match target_url with
    | Some u => check_file_exists download_dir u
    | None => mret None
    end
  else mret None.

(** [while time.time() - start < timeout]; one unit of [fuel] per turn. *)
Fixpoint poll (fuel : nat) (download_dir : string)
    (before_files : gset string) (target_url : option string)
    (start timeout : Z) (stable_checks : nat) : M W (option string) :=
  match fuel with
  | O => diverge
  | S fuel' =>
      now ← call time_time;
      if negb (now - start <? timeout * 1000) then mret None
      else
        current ← try_except
                    (names ← call (os_listdir download_dir);
                     mret (list_to_set names : gset string))
                    (fun _ => mret (∅ : gset string));
        let new_files := elements (current ∖ before_files) in
        let incomplete := List.filter is_temp new_files in
        match incomplete with
        | _ :: _ =>
            _ ← call (time_sleep 1500);
            poll fuel' download_dir before_files target_url start timeout
              stable_checks
        | [] =>
            found ← scan_new_files download_dir new_files stable_checks;
            match found with
            | Some fn => mret (Some fn)
            | None =>
                existing ← recheck download_dir target_url;
                if truthy existing then mret existing
                else
                  _ ← call (time_sleep 1000);
                  poll fuel' download_dir before_files target_url start
                    timeout stable_checks
            end
        end
  end.

Definition wait_for_download_complete (fuel : nat) (download_dir : string)
    (before_files : gset string) (target_url : option string)
    (timeout : Z) (stable_checks : Z) : M W (option string) :=
  start ← call time_time;
  existing ← recheck download_dir target_url;
  if truthy existing then mret existing
  else poll fuel download_dir before_files target_url start timeout
         (Z.to_nat stable_checks).

(** ** setup_driver, find_download_button, click_download_button *)

Definition setup_driver (download_dir : string) (headless disable_images : bool)
  : M W driver :=
  drv ← call (webdriver_Chrome download_dir headless disable_images);
  _ ← try_except (call (execute_cdp_cmd drv)) (fun _ => mret tt);
  mret drv.

Definition selectors : list selector :=
  [(CSS_SELECTOR, "button.gay-button");
   (CSS_SELECTOR, "button.link-button");
   (CSS_SELECTOR, "button[class*='gay-button']");
   (XPATH, "//button[contains(@class, 'gay-button') or contains(., 'DOWNLOAD') or contains(., 'Download') or contains(., 'download')]");
   (CSS_SELECTOR, "a[href][class*='download']");
   (CSS_SELECTOR, "a[href*='download']");
   (XPATH, "//a[contains(translate(., 'ABCDEFGHIJKLMNOPQRSTUVWXYZ', 'abcdefghijklmnopqrstuvwxyz'),'download')]")].

Fixpoint find_first_clickable (drv : driver) (max_wait : Z)
    (sels : list selector) : M W (option element) :=
  match sels with
  | [] => mret None
  | sel :: rest =>
      r ← try_except
            (el ← call (wait_until_clickable drv max_wait sel); mret (Some el))
            (fun _ => mret None);
      match r with
      | Some el => mret (Some el)
      | None => find_first_clickable drv max_wait rest
      end
  end.

Definition find_download_button (drv : driver) (max_wait : Z)
  : M W (option element) :=
  find_first_clickable drv max_wait selectors.

(** What [click_download_button] returns: [True], [False] or the text
    SESSION_EXPIRED. *)
Inductive click_result : Type := RTrue | RFalse | SESSION_EXPIRED.

Fixpoint remove_overlays (drv : driver) (overlays : list element)
  : M W unit :=
  match overlays with
  | [] => mret tt
  | o :: rest =>
      _ ← try_except (call (execute_script drv JsRemove o)) (fun _ => mret tt);
      remove_overlays drv rest
  end.

Definition click_download_button (fuel : nat) (drv : driver)
    (page_url download_dir : string) (max_wait : Z) : M W click_result :=
  try_except
    (alive ← try_except (_ ← call (current_url drv); mret true)
               (fun _ => mret false);
     if negb alive then mret SESSION_EXPIRED
     else
       _ ← call (driver_get drv page_url);
       _ ← call (time_sleep 1000);
       _ ← try_except
             (overlays ← call (find_elements drv
                           (CSS_SELECTOR, "div[style*='z-index'][style*='fixed']"));
              remove_overlays drv overlays)
             (fun _ => mret tt);
       btn ← find_download_button drv max_wait;
       match btn with
       | None => mret RFalse
       | Some btn =>
           names ← call (os_listdir download_dir);
           let files_before : gset string := list_to_set names in
           clicked ← try_except
                       (_ ← call (execute_script drv JsScrollIntoView btn);
                        _ ← call (time_sleep 500);
                        _ ← call (execute_script drv JsClick btn);
                        mret true)
                       (fun _ => mret false);
           clicked ← (if (clicked : bool) then mret true
                      else try_except
                             (_ ← call (action_chains_click drv btn); mret true)
                             (fun _ => mret false));
           clicked ← (if (clicked : bool) then mret true
                      else try_except
                             (_ ← call (element_click btn); mret true)
                             (fun _ => mret false));
           if negb clicked then mret RFalse
           else
             completed ← wait_for_download_complete fuel download_dir
                           files_before (Some page_url) 150 3;
             (* [if completed:] only prints; the function goes on *)
             mret RFalse
       end)
    (fun msg =>
       if Str.contains "invalid session id" (Str.lower msg)
          || Str.contains "session" (Str.lower msg)
       then mret SESSION_EXPIRED else mret RFalse).

(** ** read_urls_from_txt *)

(** The body of [for line in f]: [urls] after the line. *)
Definition keep_line (urls : list string) (line : string) : list string :=
  let line := Str.strip line in
  if negb (Str.is_empty line) && negb (Str.startswith "#" line)
  then List.app urls [line] else urls.

(** [urls] is filled line by line inside the [try]; the two handlers
    print a message, and [return urls] comes after them: an [Exception]
    in the middle of the file leaves the addresses read before it. *)
Definition read_urls_from_txt (file_path : string) : M W (list string) :=
  fun w =>
    let '(lines, ending, w') := read_lines file_path w in
    let urls := List.fold_left keep_line lines [] in
    match ending with
    | Some KeyboardInterrupt => (Raise KeyboardInterrupt, w')
    | Some (Exception _) | None => (Ok urls, w')
    end.

(** ** run *)

(** What [run] writes on the console (and the fields it gives to the
    progress line); texts are reduced to their variable parts. *)
Inductive Event : Type :=
| MsgScraping (url : string)
| MsgNoLinks
| MsgFound (n : nat) (download_dir : string)
| ProgressStart (total : nat)
| MsgItem (idx n : nat) (filename : string)
| MsgExists (existing : string)
| MsgRefreshing
| MsgRestarting
| ProgressUpdate (success skipped failed : Z)
| Summary (successful skipped failed : Z) (total : nat)
| MsgInterrupted
| MsgFatal (msg : string)
| MsgClosed.

Record Args : Type := {
  url : option string;
  output : string;
  headless : bool;
  no_image_block : bool;
  max_wait : Z;
  session_refresh : Z;
  delay_between : Z;          (* milliseconds *)
  filter_downloads : bool;
  input_txt : option string
}.

(** The world, the console, and the variable [driver] of [run], which the
    [finally] clause reads. *)
Record RunState : Type := {
  world : W;
  console : list Event;
  driver_var : option driver
}.

Definition set_world (rs : RunState) (w : W) : RunState :=
  {| world := w; console := console rs; driver_var := driver_var rs |}.

Definition printed (rs : RunState) (e : Event) : RunState :=
  {| world := world rs; console := List.app (console rs) [e];
     driver_var := driver_var rs |}.

Definition lift {A} (m : M W A) : M RunState A :=
  fun st =>
    let '(r, w') := m (world st) in
    (r, {| world := w'; console := console st; driver_var := driver_var st |}).

Definition console_print (e : Event) : M RunState unit :=
  fun st =>
    (Ok tt, {| world := world st; console := List.app (console st) [e];
               driver_var := driver_var st |}).

Definition assign_driver (d : option driver) : M RunState unit :=
  fun st =>
    (Ok tt, {| world := world st; console := console st; driver_var := d |}).

Definition read_driver : M RunState (option driver) :=
  fun st => (Ok (driver_var st), st).

(** The local variables of the loop. *)
Record Loop : Type := {
  successful : Z;
  failed : Z;
  skipped : Z;
  downloads_since_refresh : Z;
  drv : driver
}.

Definition should_refresh (args : Args) (st : Loop) : bool :=
  session_refresh args <=? downloads_since_refresh st.

(** [driver.quit()] with its errors ignored, a pause, a new driver, and
    the counter of downloads back to 0 (both restarts of the loop). *)
Definition restart_session (args : Args) (download_dir : string)
    (why : Event) (st : Loop) : M RunState Loop :=
  _ ← console_print why;
  _ ← lift (try_except (call (driver_quit (drv st))) (fun _ => mret tt));
  _ ← lift (call (time_sleep 1000));
  d ← lift (setup_driver download_dir (headless args)
              (negb (no_image_block args)));
  _ ← assign_driver (Some d);
  mret {| successful := successful st; failed := failed st;
          skipped := skipped st; downloads_since_refresh := 0; drv := d |}.

(** [if result is True: ... else: failed += 1] *)
Definition record_result (result : click_result) (st : Loop) : Loop :=
  match result with
  | RTrue =>
      {| successful := successful st + 1; failed := failed st;
         skipped := skipped st;
         downloads_since_refresh := downloads_since_refresh st + 1;
         drv := drv st |}
  | _ =>
      {| successful := successful st; failed := failed st + 1;
         skipped := skipped st;
         downloads_since_refresh := downloads_since_refresh st;
         drv := drv st |}
  end.

Definition record_skip (st : Loop) : Loop :=
  {| successful := successful st; failed := failed st;
     skipped := skipped st + 1;
     downloads_since_refresh := downloads_since_refresh st;
     drv := drv st |}.

Definition progress_update (st : Loop) : M RunState unit :=
  console_print (ProgressUpdate (successful st) (skipped st) (failed st)).

(** The trigger and its one retry after an expired session. *)
Definition trigger (fuel : nat) (args : Args) (download_dir link : string)
    (st : Loop) : M RunState (Loop * click_result) :=
  result ← lift (click_download_button fuel (drv st) link download_dir
                   (max_wait args));
  match result with
  | SESSION_EXPIRED =>
      st ← restart_session args download_dir MsgRestarting st;
      result ← lift (click_download_button fuel (drv st) link download_dir
                       (max_wait args));
      mret (st, result)
  | _ => mret (st, result)
  end.

(** The second half of the loop body: the trigger of one address, its
    outcome recorded, the progress line and the pause before the next. *)
Definition attempt (fuel : nat) (args : Args) (download_dir : string)
    (n idx : nat) (link : string) (st : Loop) : M RunState Loop :=
  '(st, result) ← trigger fuel args download_dir link st;
  let st := record_result result st in
  _ ← progress_update st;
  _ ← (if (idx <? n)%nat then lift (call (time_sleep (delay_between args)))
       else mret tt);
  mret st.

(** [get_filename_from_url(link) or link[:60]] *)
Definition item_label (filename : option string) (link : string) : string :=
  if truthy filename then default EmptyString filename else Str.take 60 link.

(** [if downloads_since_refresh >= args.session_refresh: ...] *)
Definition refresh_if_due (args : Args) (download_dir : string) (st : Loop)
  : M RunState Loop :=
  if should_refresh args st
  then restart_session args download_dir MsgRefreshing st
  else mret st.

(** The body of [for idx, link in enumerate(links, 1)]. *)
Definition process_link (fuel : nat) (args : Args) (download_dir : string)
    (n idx : nat) (link : string) (st : Loop) : M RunState Loop :=
  filename ← lift (get_filename_from_url link);
  _ ← console_print (MsgItem idx n (item_label filename link));
  existing ← lift (check_file_exists download_dir link);
  if truthy existing then
    let existing := default EmptyString existing in
    _ ← lift (try_except
                (_ ← call (os_path_getsize (path_join download_dir existing));
                 mret tt)
                (fun _ => mret tt));
    _ ← console_print (MsgExists existing);
    let st := record_skip st in
    _ ← progress_update st;
    mret st
  else
    st ← refresh_if_due args download_dir st;
    attempt fuel args download_dir n idx link st.

Fixpoint process_links (fuel : nat) (args : Args) (download_dir : string)
    (n idx : nat) (links : list string) (st : Loop) : M RunState Loop :=
  match links with
  | [] => mret st
  | link :: rest =>
      st ← process_link fuel args download_dir n idx link st;
      process_links fuel args download_dir n (S idx) rest st
  end.

(** [list(dict.fromkeys(links))]: first occurrences, in order. *)
Fixpoint dedupe (links : list string) : list string :=
  match links with
  | [] => []
  | l :: rest =>
      l :: List.filter (fun x => negb (String.eqb x l)) (dedupe rest)
  end.

Definition hints : list string :=
  ["download"; "dl"; "fitgirl"; "torrent"; "drive"].

Definition collect_links (args : Args) (links : list string) : list string :=
  let links := dedupe links in
  if filter_downloads args then
    match List.filter
            (fun l => List.existsb (fun k => Str.contains k (Str.lower l)) hints)
            links with
    | [] => links
    | filtered => filtered
    end
  else links.

(** The first part of the body of the [try] of [run]: the browser is
    started, and the candidate links are gathered from the input file and
    from the listing page. *)
Definition candidate_links (args : Args) (download_dir : string)
  : M RunState (driver * list string) :=
  d ← lift (setup_driver download_dir (headless args)
              (negb (no_image_block args)));
  _ ← assign_driver (Some d);
  links1 ← (if truthy (input_txt args)
            then lift (read_urls_from_txt (default EmptyString (input_txt args)))
            else mret []);
  links2 ← (if truthy (url args)
            then
              let u := default EmptyString (url args) in
              _ ← console_print (MsgScraping u);
              lift (call (scrape_links d u (max_wait args)))
            else mret []);
  mret (d, collect_links args (List.app links1 links2)).

(** The local variables when the loop starts. *)
Definition loop_start (d : driver) : Loop :=
  {| successful := 0; failed := 0; skipped := 0;
     downloads_since_refresh := 0; drv := d |}.

(** The body of the [try] of [run]: [candidate_links], and the loop over
    the candidates. *)
Definition run_body (fuel : nat) (args : Args) (download_dir : string)
  : M RunState unit :=
  d ← lift (setup_driver download_dir (headless args)
              (negb (no_image_block args)));
  _ ← assign_driver (Some d);
  links1 ← (if truthy (input_txt args)
            then lift (read_urls_from_txt (default EmptyString (input_txt args)))
            else mret []);
  links2 ← (if truthy (url args)
            then
              let u := default EmptyString (url args) in
              _ ← console_print (MsgScraping u);
              lift (call (scrape_links d u (max_wait args)))
            else mret []);
  let links := collect_links args (List.app links1 links2) in
  match links with
  | [] => console_print MsgNoLinks
  | _ :: _ =>
      let n := List.length links in
      _ ← console_print (MsgFound n download_dir);
      _ ← console_print (ProgressStart n);
      st ← process_links fuel args download_dir n 1 links
             {| successful := 0; failed := 0; skipped := 0;
                downloads_since_refresh := 0; drv := d |};
      console_print (Summary (successful st) (skipped st) (failed st) n)
  end.

(** [except KeyboardInterrupt: ... except Exception as e: ...] *)
Definition handlers (m : M RunState unit) : M RunState unit :=
  fun st =>
    match m st with
    | (Raise KeyboardInterrupt, st') => console_print MsgInterrupted st'
    | (Raise (Exception msg), st') => console_print (MsgFatal msg) st'
    | r => r
    end.

(** [finally: try: if driver: driver.quit(); ... except Exception: pass] *)
Definition finalizer : M RunState unit :=
  try_except
    (d ← read_driver;
     match d with
     | Some d => _ ← lift (call (driver_quit d)); console_print MsgClosed
     | None => mret tt
     end)
    (fun _ => mret tt).

Definition try_finally {A} (m : M RunState A) (fin : M RunState unit)
  : M RunState A :=
  fun st =>
    match m st with
    | (Diverge, st') => (Diverge, st')
    | (r, st') =>
        match fin st' with
        | (Ok _, st'') => (r, st'')
        | (Raise e, st'') => (Raise e, st'')
        | (Diverge, st'') => (Diverge, st'')
        end
    end.

Definition run (fuel : nat) (args : Args) : M RunState unit :=
  let download_dir := output args in
  _ ← lift (call (path_mkdir download_dir));
  _ ← assign_driver None;
  try_finally (handlers (run_body fuel args download_dir)) finalizer.

(** The state in which the script starts. *)
Definition start (w : W) : RunState :=
  {| world := w; console := []; driver_var := None |}.

End Script.

(** ** scrape_links

    The function itself, over the operations of the driver that it calls:
    besides those of [Env], the wait for an element to be present, the
    search inside an element, and the reading of an attribute. *)
Class Dom (W : Type) : Type := {
  (** [WebDriverWait(driver, t).until(EC.presence_of_element_located(sel))] *)
  wait_until_present : driver -> Z -> selector -> Prim W element;
  (** [element.find_elements(by, sel)] *)
  element_find_elements : element -> selector -> Prim W (list element);
  (** [element.get_attribute(name)] *)
  get_attribute : element -> string -> Prim W (option string)
}.

Module Page.
Section Scrape.
Context {W : Type} `{Env W} `{Dom W}.

Definition article_selectors : list string :=
  ["article"; ".post"; ".entry"; ".paste-body"; ".content"].

(** [for a in articles: anchors.extend(a.find_elements(...))], inside the
    [try] of one selector: the anchors gathered so far, and whether the
    loop came to its end ([false]: an [Exception] left it; the anchors
    already added stay in the list). *)
Fixpoint extend_anchors (articles : list element) (anchors : list element)
  : M W (list element * bool) :=
  match articles with
  | [] => mret (anchors, true)
  | a :: rest =>
      found ← try_except
                (l ← call (element_find_elements a (CSS_SELECTOR, "a[href]"));
                 mret (Some l))
                (fun _ => mret None);
      match found with
      | Some l => extend_anchors rest (List.app anchors l)
      | None => mret (anchors, false)
      end
  end.

(** [for sel in article_selectors: try: ... except Exception: continue] *)
Fixpoint article_anchors (drv : driver) (sels : list string)
    (anchors : list element) : M W (list element) :=
  match sels with
  | [] => mret anchors
  | sel :: rest =>
      articles ← try_except
                   (l ← call (find_elements drv (CSS_SELECTOR, sel));
                    mret (Some l))
                   (fun _ => mret None);
      match articles with
      | None | Some [] => article_anchors drv rest anchors
      | Some articles =>
          '(anchors, finished) ← extend_anchors articles anchors;
          match finished, anchors with
          | true, _ :: _ => mret anchors                (* [break] *)
          | _, _ => article_anchors drv rest anchors
          end
      end
  end.

(** [for a in anchors: try: href = a.get_attribute("href"); ...] *)
Fixpoint hrefs (anchors : list element) : M W (list string) :=
  match anchors with
  | [] => mret []
  | a :: rest =>
      href ← try_except (call (get_attribute a "href")) (fun _ => mret None);
      links ← hrefs rest;
      mret (if truthy href && Str.startswith "http" (default EmptyString href)
            then default EmptyString href :: links else links)
  end.

(** [for l in links: if l not in seen: seen.add(l); unique.append(l)] *)
Fixpoint unique (links : list string) (seen : gset string) : list string :=
  match links with
  | [] => []
  | l :: rest =>
      if bool_decide (l ∈ seen) then unique rest seen
      else l :: unique rest ({[l]} ∪ seen)
  end.

(** The anchors of the page: those of the article-like blocks, or, when
    there are none ([if not anchors]), all the anchors of the page. *)
Definition page_anchors (drv : driver) : M W (list element) :=
  anchors ← article_anchors drv article_selectors [];
  match anchors with
  | [] => call (find_elements drv (CSS_SELECTOR, "a[href]"))
  | _ :: _ => mret anchors
  end.

Definition scrape_links (drv : driver) (url : string) (wait_time : Z)
  : M W (list string) :=
  _ ← call (driver_get drv url);
  (* [try: ... except Exception as e: ...; raise]: the error goes on *)
  _ ← call (wait_until_present drv wait_time (TAG_NAME, "body"));
  _ ← call (time_sleep 1000);
  anchors ← page_anchors drv;
  links ← hrefs anchors;
  mret (unique links ∅).

End Scrape.
End Page.

(** ** A simulated world

    A clock that advances only while the script sleeps, a download
    directory whose changes are scheduled on that clock or caused by a
    click, and a fake browser whose sessions can be dead. *)
Module Sim.

Inductive action : Type :=
| Put (name : string) (size : Z)    (* create the file or set its size *)
| Del (name : string)               (* delete or rename away *)
| Kill (d : driver)                 (* the session of [d] dies *)
| Interrupt.                        (* the user presses Ctrl-C *)

Record state : Type := {
  clock : Z;                                  (* milliseconds *)
  root : string;                              (* the download directory *)
  dir : option (list (string * Z));           (* [None]: no such directory *)
  schedule : list (Z * action);               (* what happens, and when *)
  pages : list (string * list action);        (* pages with a button, and what a click does *)
  current_page : string;
  dead : list driver;
  next_driver : driver;
  chrome_budget : nat;                        (* drivers that can still start *)
  headers : list (string * string);           (* Content-Disposition by address *)
  txt : list string;                          (* the lines of the input file *)
  listing : list string                       (* the links of the listing page *)
}.

Definition with_dir (w : state) (d : option (list (string * Z))) : state :=
  {| clock := clock w; root := root w; dir := d; schedule := schedule w;
     pages := pages w; current_page := current_page w; dead := dead w;
     next_driver := next_driver w; chrome_budget := chrome_budget w;
     headers := headers w; txt := txt w; listing := listing w |}.

Definition with_dead (w : state) (l : list driver) : state :=
  {| clock := clock w; root := root w; dir := dir w; schedule := schedule w;
     pages := pages w; current_page := current_page w; dead := l;
     next_driver := next_driver w; chrome_budget := chrome_budget w;
     headers := headers w; txt := txt w; listing := listing w |}.

Definition with_clock (w : state) (t : Z) (s : list (Z * action)) : state :=
  {| clock := t; root := root w; dir := dir w; schedule := s;
     pages := pages w; current_page := current_page w; dead := dead w;
     next_driver := next_driver w; chrome_budget := chrome_budget w;
     headers := headers w; txt := txt w; listing := listing w |}.

Definition with_page (w : state) (p : string) : state :=
  {| clock := clock w; root := root w; dir := dir w; schedule := schedule w;
     pages := pages w; current_page := p; dead := dead w;
     next_driver := next_driver w; chrome_budget := chrome_budget w;
     headers := headers w; txt := txt w; listing := listing w |}.

Definition with_new_driver (w : state) : state :=
  {| clock := clock w; root := root w; dir := dir w; schedule := schedule w;
     pages := pages w; current_page := current_page w; dead := dead w;
     next_driver := S (next_driver w);
     chrome_budget := Nat.pred (chrome_budget w);
     headers := headers w; txt := txt w; listing := listing w |}.

Fixpoint assoc {A} (k : string) (l : list (string * A)) : option A :=
  match l with
  | [] => None
  | (k', v) :: r => if String.eqb k k' then Some v else assoc k r
  end.

Fixpoint put (name : string) (size : Z) (l : list (string * Z))
  : list (string * Z) :=
  match l with
  | [] => [(name, size)]
  | (k, v) :: r =>
      if String.eqb name k then (k, size) :: r else (k, v) :: put name size r
  end.

Definition del (name : string) (l : list (string * Z)) : list (string * Z) :=
  List.filter (fun kv => negb (String.eqb name (fst kv))) l.

(** One action; the answer tells whether the user interrupted. *)
Definition apply (a : action) (w : state) : bool * state :=
  match a with
  | Put name size => (false, with_dir w (option_map (put name size) (dir w)))
  | Del name => (false, with_dir w (option_map (del name) (dir w)))
  | Kill d => (false, with_dead w (d :: dead w))
  | Interrupt => (true, w)
  end.

Fixpoint apply_all (l : list action) (w : state) : bool * state :=
  match l with
  | [] => (false, w)
  | a :: r =>
      let '(i, w1) := apply a w in
      let '(j, w2) := apply_all r w1 in
      (i || j, w2)
  end.

Definition due (t : Z) (s : list (Z * action)) : list action :=
  List.map snd (List.filter (fun ta => fst ta <=? t) s).

Definition later (t : Z) (s : list (Z * action)) : list (Z * action) :=
  List.filter (fun ta => negb (fst ta <=? t)) s.

Definition sleep (ms : Z) : Prim state unit :=
  fun w =>
    let t := clock w + ms in
    let '(i, w') := apply_all (due t (schedule w))
                      (with_clock w t (later t (schedule w))) in
    (if i then Err KeyboardInterrupt else Val tt, w').

(** The name of the entry that a path of the download directory names. *)
Definition entry (w : state) (p : string) : option string :=
  let prefix := root w +:+ "/" in
  if Str.startswith prefix p then Some (Str.drop (Str.len prefix) p)
  else None.

Definition lookup (w : state) (p : string) : option Z :=
  match entry w p, dir w with
  | Some name, Some l => assoc name l
  | _, _ => None
  end.

Definition dead_session {A} : Prim state A :=
  fun w => (Err (Exception "invalid session id"), w).

Definition is_dead (w : state) (d : driver) : bool :=
  List.existsb (Nat.eqb d) (dead w).

Definition click (d : driver) : Prim state unit :=
  fun w =>
    if is_dead w d then dead_session w
    else
      let '(i, w') := apply_all (default [] (assoc (current_page w) (pages w))) w in
      (if i then Err KeyboardInterrupt else Val tt, w').

#[export] Instance env : Env state := {|
  os_listdir := fun p w =>
    match dir w with
    | Some l =>
        if String.eqb p (root w) then (Val (List.map fst l), w)
        else (Err (Exception "No such file or directory"), w)
    | None => (Err (Exception "No such file or directory"), w)
    end;
  os_path_getsize := fun p w =>
    match lookup w p with
    | Some size => (Val size, w)
    | None => (Err (Exception "No such file or directory"), w)
    end;
  path_exists := fun p w =>
    (Val (match lookup w p with Some _ => true | None => false end), w);
  path_mkdir := fun p w =>
    (Val tt, match dir w with
            | Some _ => w
            | None => if String.eqb p (root w) then with_dir w (Some []) else w
            end);
  read_lines := fun _ w => ((txt w, None), w);
  time_time := fun w => (Val (clock w), w);
  time_sleep := sleep;
  requests_head := fun u w =>
    match assoc u (headers w) with
    | Some cd => (Val (Some cd), w)
    | None => (Err (Exception "Max retries exceeded"), w)
    end;
  webdriver_Chrome := fun _ _ _ w =>
    match chrome_budget w with
    | O => (Err (Exception "cannot find Chrome binary"), w)
    | S _ => (Val (next_driver w), with_new_driver w)
    end;
  execute_cdp_cmd := fun _ w => (Val tt, w);
  current_url := fun d w =>
    if is_dead w d then dead_session w else (Val (current_page w), w);
  driver_get := fun d u w =>
    if is_dead w d then dead_session w else (Val tt, with_page w u);
  find_elements := fun _ _ w => (Val [], w);
  execute_script := fun d s _ =>
    match s with
    | JsClick => click d
    | _ => fun w => if is_dead w d then dead_session w else (Val tt, w)
    end;
  wait_until_clickable := fun d _ _ w =>
    if is_dead w d then dead_session w
    else match assoc (current_page w) (pages w) with
         | Some _ => (Val 0%nat, w)
         | None => (Err (Exception "TimeoutException"), w)
         end;
  action_chains_click := fun d _ => click d;
  element_click := fun _ w => (Err (Exception "element not interactable"), w);
  driver_quit := fun d w => (Val tt, with_dead w (d :: dead w));
  scrape_links := fun d _ _ w =>
    if is_dead w d then dead_session w else (Val (listing w), w);
  ipaddress_is_ipv6 := fun h =>
    Str.has_char ":" h
    && urllib.all_chars (fun c => Str.is_hexdigit c || Str.eqc c ":") h;
  nfkc_netloc_ok := fun _ => true
|}.

(** An empty download directory [/dl], no network, one browser. *)
Definition blank : state :=
  {| clock := 0; root := "/dl"; dir := Some []; schedule := [];
     pages := []; current_page := EmptyString; dead := [];
     next_driver := 0%nat; chrome_budget := 1%nat; headers := [];
     txt := []; listing := [] |}.

End Sim.

(** ** The wording of the specification, for comparison with the code *)

(** Rule 1 of the resolver in the words of the specification: the last
    path segment, percent-decoded, with any trailing fragment or query
    stripped. *)
Definition last_segment_decoded (path : string) : string :=
  Str.first (Str.split "?"
    (Str.first (Str.split "#"
       (urllib.unquote (Str.last (Str.split "/" path)))))).

Definition ends_in_separator (s : string) : bool :=
  Str.endswith "/" s || Str.endswith "\" s.

(** U+00A0, the no-break space, in UTF-8. *)
Definition no_break_space : string :=
  String (ascii_of_nat 194) (String (ascii_of_nat 160) EmptyString).

(** The four names that stand for the address resolving to game.rar. *)
Definition variants_of_game : list string :=
  ["game.rar"; "game (1).rar"; "game.rar.crdownload"; "game (2).rar.part"].

(** Console events that report neither a tally nor the end of a run. *)
Definition plain (e : Event) : bool :=
  match e with
  | Summary _ _ _ _ | MsgInterrupted | MsgFatal _ | MsgNoLinks => false
  | _ => true
  end.

(** What a run says about its end, if anything: no links, the tally of a
    loop that went through all [n] addresses, the interruption by the user,
    or a fatal error. *)
Inductive verdict : list Event -> Prop :=
| verdict_silent : verdict []
| verdict_no_links : verdict [MsgNoLinks]
| verdict_tally k f n : k + f = Z.of_nat n -> verdict [Summary 0 k f n]
| verdict_interrupted : verdict [MsgInterrupted]
| verdict_fatal msg : verdict [MsgFatal msg].

(** What the handlers of [run] print for an exception. *)
Definition abort_message (e : exn) : Event :=
  match e with
  | KeyboardInterrupt => MsgInterrupted
  | Exception msg => MsgFatal msg
  end.

(** The three tallies are the same in both states. *)
Definition same_counts (st st' : Loop) : Prop :=
  successful st' = successful st
  /\ failed st' = failed st
  /\ skipped st' = skipped st.

(** A history of the loop since the last refresh: an address skipped
    ([None]) or triggered with a result. *)
Definition record (st : Loop) (step : option click_result) : Loop :=
  match step with
  | None => record_skip st
  | Some result => record_result result st
  end.

Definition record_all (steps : list (option click_result)) (st : Loop) : Loop :=
  List.fold_left record steps st.

Definition is_success (step : option click_result) : bool :=
  match step with Some RTrue => true | _ => false end.

Definition successes (steps : list (option click_result)) : Z :=
  Z.of_nat (List.length (List.filter is_success steps)).

(** The stability window as the environment lives it. *)
Section Window.
Context {W : Type} `{Env W}.

(** [quiet fp size n w w']: from the world [w], [n] successive samples (a
    pause of one second, then the size of [fp]) each read [size] or
    failed, and left the world [w']. *)
Inductive quiet (fp : string) (size : Z) : nat -> W -> W -> Prop :=
| quiet_done w : quiet fp size 0 w w
| quiet_same n w w1 w2 w3 :
    time_sleep 1000 w = (Val tt, w1) ->
    os_path_getsize fp w1 = (Val size, w2) ->
    quiet fp size n w2 w3 ->
    quiet fp size (S n) w w3
| quiet_failed n w w1 msg w2 w3 :
    time_sleep 1000 w = (Val tt, w1) ->
    os_path_getsize fp w1 = (Err (Exception msg), w2) ->
    quiet fp size n w2 w3 ->
    quiet fp size (S n) w w3.

(** [gone fp n w w']: the file is gone: each of [n] successive samples
    failed. *)
Inductive gone (fp : string) : nat -> W -> W -> Prop :=
| gone_done w : gone fp 0 w w
| gone_step n w w1 msg w2 w3 :
    time_sleep 1000 w = (Val tt, w1) ->
    os_path_getsize fp w1 = (Err (Exception msg), w2) ->
    gone fp n w2 w3 ->
    gone fp (S n) w w3.

(** [changed fp size n w w']: within [n] samples, after samples that read
    [size] or failed, one sample read another size, and left the world
    [w']. *)
Inductive changed (fp : string) (size : Z) : nat -> W -> W -> Prop :=
| changed_now n w w1 size' w2 :
    time_sleep 1000 w = (Val tt, w1) ->
    os_path_getsize fp w1 = (Val size', w2) ->
    size' <> size ->
    changed fp size (S n) w w2
| changed_after_same n w w1 w2 w3 :
    time_sleep 1000 w = (Val tt, w1) ->
    os_path_getsize fp w1 = (Val size, w2) ->
    changed fp size n w2 w3 ->
    changed fp size (S n) w w3
| changed_after_failed n w w1 msg w2 w3 :
    time_sleep 1000 w = (Val tt, w1) ->
    os_path_getsize fp w1 = (Err (Exception msg), w2) ->
    changed fp size n w2 w3 ->
    changed fp size (S n) w w3.

(** How the watcher came to return [fn], leaving the world [w']: the
    existing-file matcher reported it, or it is a new file without a
    temporary suffix whose window was quiet. *)
Definition by_matcher (download_dir : string) (target_url : option string)
    (fn : string) (w' : W) : Prop :=
  exists w1, recheck download_dir target_url w1 = (Ok (Some fn), w').

Definition by_stability (download_dir : string) (before_files : gset string)
    (k : nat) (fn : string) (w' : W) : Prop :=
  (fn ∉ before_files)
  /\ is_temp fn = false
  /\ exists w1 size w2,
       os_path_getsize (path_join download_dir fn) w1 = (Val size, w2)
       /\ quiet (path_join download_dir fn) size k w2 w'.

End Window.

(** ** Worlds of the scenarios *)
Module Scenario.
Import Sim.

(** A download directory that holds one entry. *)
Definition only (name : string) : state := with_dir blank (Some [(name, 1)]).

Definition game_url : string := "https://x.test/dl/game.rar".

(** No download directory at all. *)
Definition no_directory : state := with_dir blank None.

(** A new file movie.rar whose size does not change. *)
Definition steady : state := with_dir blank (Some [("movie.rar", 700)]).

(** A new file movie.rar that is renamed away one second later. *)
Definition vanishing : state :=
  with_clock steady 0 [(1000, Del "movie.rar")].

(** The world of [vanishing] after one, two and three seconds. *)
Definition vanished_at (t : Z) : state :=
  with_clock (with_dir blank (Some [])) t [].

(** game.rar appears after one second and has grown one second later. *)
Definition growing : state :=
  with_clock blank 0 [(1000, Put "game.rar" 10); (2000, Put "game.rar" 20)].

(** [growing], one second later: game.rar is there, 10 bytes long. *)
Definition growing_1s : state :=
  with_clock (with_dir blank (Some [("game.rar", 10)])) 1000
    [(2000, Put "game.rar" 20)].

(** [growing], two seconds later: game.rar is 20 bytes long. *)
Definition growing_2s : state :=
  with_clock (with_dir blank (Some [("game.rar", 20)])) 2000 [].

(** The end-to-end scenario of the specification: a.rar is already there;
    the session is dead when the second address is triggered, and after the
    restart its download of movie.rar completes; the click on the third
    page starts nothing. *)
Definition three_addresses : state :=
  {| clock := 0; root := "/dl"; dir := Some [("a.rar", 5)]; schedule := [];
     pages := [("https://x.test/page/2", [Put "movie.rar" 700]);
               ("https://x.test/page/3", [])];
     current_page := EmptyString; dead := [0%nat]; next_driver := 0%nat;
     chrome_budget := 2%nat; headers := [];
     txt := ["https://x.test/dl/a.rar"; "https://x.test/page/2";
             "https://x.test/page/3"];
     listing := [] |}.

Definition args0 : Args :=
  {| url := None; output := "/dl"; headless := true; no_image_block := false;
     max_wait := 20; session_refresh := 10; delay_between := 2000;
     filter_downloads := false; input_txt := Some "links.txt" |}.

(** The same, and the user presses Ctrl-C after twenty seconds, while the
    third address is polled. *)
Definition cancelled : state :=
  with_clock three_addresses 0 [(20000, Interrupt)].

(** The same, but no second browser can be started. *)
Definition no_second_browser : state :=
  {| clock := 0; root := "/dl"; dir := Some [("a.rar", 5)]; schedule := [];
     pages := pages three_addresses;
     current_page := EmptyString; dead := [0%nat]; next_driver := 0%nat;
     chrome_budget := 1%nat; headers := []; txt := txt three_addresses;
     listing := [] |}.

(** The run of [three_addresses] when the second address is triggered:
    the one browser is open, its session is dead, a.rar was skipped. *)
Definition second_address : @RunState state :=
  {| world := with_new_driver three_addresses; console := [];
     driver_var := Some 0%nat |}.

Definition loop_second : Loop :=
  {| successful := 0; failed := 0; skipped := 1; downloads_since_refresh := 0;
     drv := 0%nat |}.

(** The local variables after ten downloads counted since the last
    refresh, with the threshold 10 of [args0]. *)
Definition loop_due : Loop :=
  {| successful := 10; failed := 0; skipped := 0;
     downloads_since_refresh := 10; drv := 0%nat |}.

(** The local variables after the restart of the session. *)
Definition loop_restarted : Loop :=
  {| successful := 0; failed := 0; skipped := 1; downloads_since_refresh := 0;
     drv := 1%nat |}.

Definition loop_refreshed : Loop :=
  {| successful := 10; failed := 0; skipped := 0;
     downloads_since_refresh := 0; drv := 1%nat |}.

Definition page2 : string := "https://x.test/page/2".
Definition page3 : string := "https://x.test/page/3".

(** The world of [three_addresses] when the watcher starts for the second
    address: the second browser has clicked, movie.rar is there. *)
Definition downloading : state :=
  {| clock := 2500; root := "/dl";
     dir := Some [("a.rar", 5); ("movie.rar", 700)]; schedule := [];
     pages := pages three_addresses; current_page := page2;
     dead := [0%nat; 0%nat]; next_driver := 2%nat; chrome_budget := 0%nat;
     headers := []; txt := txt three_addresses; listing := [] |}.

Definition fresh_loop : Loop :=
  {| successful := 0; failed := 0; skipped := 0; downloads_since_refresh := 0;
     drv := 0%nat |}.

End Scenario.

(** ** Notions used by the properties *)

(** The test of [--filter-downloads] on one link. *)
Definition likely_download (l : string) : bool :=
  List.existsb (fun k => Str.contains k (Str.lower l)) hints.



Section Clocks.
Context {W : Type} `{Env W}.

(** An operation that does not turn the clock back. *)
Definition forward {A} (clock : W -> Z) (p : Prim W A) : Prop :=
  forall w r w', p w = (r, w') -> clock w <= clock w'.

(** A world with a clock (in milliseconds) that [time.time()] reads, that
    a pause advances by its length at least, and that the operations of the
    watcher do not turn back. *)
Definition ticking (clock : W -> Z) : Prop :=
  (forall w t w', time_time w = (Val t, w') -> clock w <= t <= clock w')
  /\ (forall ms w w',
        0 <= ms -> time_sleep ms w = (Val tt, w') -> clock w + ms <= clock w')
  /\ (forall ms, 0 <= ms -> forward clock (time_sleep ms))
  /\ (forall p, forward clock (os_listdir p))
  /\ (forall p, forward clock (path_exists p))
  /\ (forall p, forward clock (os_path_getsize p))
  /\ (forall u, forward clock (requests_head u)).

(** [onward clock m]: [m] does not turn the clock back. *)
Definition onward {A} (clock : W -> Z) (m : M W A) : Prop :=
  forall w r w', m w = (r, w') -> clock w <= clock w'.

(** [halts m]: [m] returns or raises, whatever the world. *)
Definition halts {S A} (m : M S A) : Prop :=
  forall s, fst (m s) <> Diverge.

End Clocks.

(** [calm m]: no [Exception] comes out of [m]. *)
Definition calm {S A} (m : M S A) : Prop :=
  forall s r s' msg, m s = (r, s') -> r <> Raise (Exception msg).

Section Misses.
Context {W : Type} `{Env W}.

(** [misses d max_wait sels w w']: from the world [w], the waits for the
    selectors [sels], one after the other, each failed with an
    [Exception], and left the world [w']. *)
Inductive misses (d : driver) (max_wait : Z) : list selector -> W -> W -> Prop :=
| misses_nil w : misses d max_wait [] w w
| misses_cons sel sels w msg w1 w2 :
    wait_until_clickable d max_wait sel w = (Err (Exception msg), w1) ->
    misses d max_wait sels w1 w2 ->
    misses d max_wait (sel :: sels) w w2.

End Misses.

Section Reading.
Context {W : Type} `{Dom W}.

(** [reads anchors w hs w']: from the world [w], the attribute [href] of
    the anchors, read one after the other in the order of the list, gave
    [hs] ([None] for an anchor without the attribute, and for one whose
    reading failed with an [Exception]), and left the world [w']. *)
Inductive reads : list element -> W -> list (option string) -> W -> Prop :=
| reads_nil w : reads [] w [] w
| reads_value a rest w href w1 hs w2 :
    get_attribute a "href" w = (Val href, w1) ->
    reads rest w1 hs w2 ->
    reads (a :: rest) w (href :: hs) w2
| reads_failed a rest w msg w1 hs w2 :
    get_attribute a "href" w = (Err (Exception msg), w1) ->
    reads rest w1 hs w2 ->
    reads (a :: rest) w (None :: hs) w2.

End Reading.

(** The web addresses among the attributes read, in their order. *)
Definition web_addresses (hs : list (option string)) : list string :=
  List.flat_map
    (fun h => match h with
              | Some l =>
                  if negb (Str.is_empty l) && Str.startswith "http" l
                  then [l] else []
              | None => []
              end) hs.

(** The indices of the addresses announced on a console, the tallies of
    its progress lines, and the tallies of its summaries. *)
Definition items (evs : list Event) : list nat :=
  List.flat_map
    (fun e => match e with MsgItem idx _ _ => [idx] | _ => [] end) evs.

Definition updates (evs : list Event) : list (Z * Z * Z) :=
  List.flat_map
    (fun e => match e with ProgressUpdate s k f => [(s, k, f)] | _ => [] end)
    evs.

Definition summaries (evs : list Event) : list (Z * Z * Z * nat) :=
  List.flat_map
    (fun e => match e with Summary s k f n => [(s, k, f, n)] | _ => [] end)
    evs.

Definition tally (st : Loop) : Z * Z * Z :=
  (successful st, skipped st, failed st).

(** ** More worlds *)
Module Cases.
Import Sim Scenario.

(** The input file of a run: addresses, a comment, an empty line. *)
Definition commented : state :=
  {| clock := 0; root := "/dl"; dir := Some []; schedule := [];
     pages := []; current_page := EmptyString; dead := [];
     next_driver := 0%nat; chrome_budget := 1%nat; headers := [];
     txt := ["  https://x.test/dl/a.rar  "; "# later"; EmptyString;
             "https://x.test/page/2"];
     listing := [] |}.

(** A download directory with finished and unfinished downloads. *)
Definition downloads : state :=
  with_dir blank
    (Some [("a.rar.part", 1); ("b.rar.crdownload", 1); ("c.tmp", 1);
           ("d.rar", 1)]).

(** Two seconds later in the empty world. *)
Definition blank_2s : state := with_clock blank 2000 [].

Definition args_filtered : Args :=
  {| url := None; output := "/dl"; headless := true; no_image_block := false;
     max_wait := 20; session_refresh := 10; delay_between := 2000;
     filter_downloads := true; input_txt := Some "links.txt" |}.

Definition args_none : Args :=
  {| url := None; output := "/dl"; headless := true; no_image_block := false;
     max_wait := 20; session_refresh := 10; delay_between := 2000;
     filter_downloads := false; input_txt := None |}.

(** The second page of [three_addresses], open in the second browser. *)
Definition on_page2 : state :=
  with_page (with_new_driver (with_new_driver three_addresses)) page2.


(** The simulated world with another reading of the input file, and with
    other answers of the browser when a page is opened and when elements
    are searched. *)
Definition env_of (read : string -> state -> (list string * option exn) * state)
    (get : driver -> string -> Prim state unit)
    (find : driver -> selector -> Prim state (list element)) : Env state :=
  {| os_listdir := @os_listdir _ Sim.env;
     os_path_getsize := @os_path_getsize _ Sim.env;
     path_exists := @path_exists _ Sim.env;
     path_mkdir := @path_mkdir _ Sim.env;
     read_lines := read;
     time_time := @time_time _ Sim.env;
     time_sleep := @time_sleep _ Sim.env;
     requests_head := @requests_head _ Sim.env;
     webdriver_Chrome := @webdriver_Chrome _ Sim.env;
     execute_cdp_cmd := @execute_cdp_cmd _ Sim.env;
     current_url := @current_url _ Sim.env;
     driver_get := get;
     find_elements := find;
     execute_script := @execute_script _ Sim.env;
     wait_until_clickable := @wait_until_clickable _ Sim.env;
     action_chains_click := @action_chains_click _ Sim.env;
     element_click := @element_click _ Sim.env;
     driver_quit := @driver_quit _ Sim.env;
     scrape_links := @scrape_links _ Sim.env;
     ipaddress_is_ipv6 := @ipaddress_is_ipv6 _ Sim.env;
     nfkc_netloc_ok := @nfkc_netloc_ok _ Sim.env |}.

Definition env_with (get : driver -> string -> Prim state unit)
    (find : driver -> selector -> Prim state (list element)) : Env state :=
  env_of (@read_lines _ Sim.env) get find.

(** The input file cannot be decoded after its lines: the reading ends
    with a [UnicodeDecodeError]. *)
Definition torn_file : Env state :=
  env_of (fun _ w =>
            ((txt w, Some (Exception "'utf-8' codec can't decode byte 0xff")), w))
    (@driver_get _ Sim.env) (@find_elements _ Sim.env).

(** No page can be opened: the network is down. *)
Definition offline : Env state :=
  env_with (fun _ _ w => (Err (Exception "net::ERR_INTERNET_DISCONNECTED"), w))
    (@find_elements _ Sim.env).

(** No page can be opened, and the error speaks of a session. *)
Definition offline_session : Env state :=
  env_with (fun _ _ w => (Err (Exception "Session not created: offline"), w))
    (@find_elements _ Sim.env).

(** A listing page: one article (the element 0) that holds the anchors
    1, 2, ...; the anchor [k] points to the [k]-th link of [listing]. *)
Definition anchors_of (w : state) : list element :=
  List.seq 1 (List.length (listing w)).

Definition listing_page : Env state :=
  env_with (@driver_get _ Sim.env)
    (fun d sel w =>
       if is_dead w d then dead_session w
       else if String.eqb (snd sel) "article" then (Val [0%nat], w)
       else if String.eqb (snd sel) "a[href]" then (Val (anchors_of w), w)
       else (Val [], w)).

Definition listing_dom : Dom state :=
  {| wait_until_present := fun d _ _ w =>
       if is_dead w d then dead_session w else (Val 0%nat, w);
     element_find_elements := fun el _ w =>
       (Val (match el with O => anchors_of w | S _ => [] end), w);
     get_attribute := fun el _ w =>
       (Val (match el with
             | O => None
             | S k => List.nth_error (listing w) k
             end), w) |}.

(** A listing page with four anchors: two to the same page, and one that
    is no web address. *)
Definition four_anchors : state :=
  {| clock := 0; root := "/dl"; dir := Some []; schedule := [];
     pages := []; current_page := EmptyString; dead := [];
     next_driver := 1%nat; chrome_budget := 0%nat; headers := [];
     txt := [];
     listing := ["https://x.test/page/2"; "mailto:admin@x.test";
                 "https://x.test/page/2"; "https://x.test/page/3"] |}.

End Cases.

(** * Properties *)

Ltac unfold_monad :=
  unfold mbind, M_bind, mret, M_ret, bind, ret, raise, try_except, call,
    lift_pure in *.

Ltac unfold_monad_goal :=
  unfold mbind, M_bind, mret, M_ret, bind, ret, raise, try_except, call,
    lift_pure.

Section Resolver.
Context {W : Type} `{Env W}.

(** [urlparse] raises nothing but [ValueError], an [Exception]. *)
Lemma urlparse_raises_Exception (url : string) (e : exn) :
  urllib.urlparse url = Err e -> exists msg, e = Exception msg.
Proof.
  unfold urllib.urlparse, urllib.urlsplit, urllib._checknetloc,
    urllib._check_bracketed_netloc, urllib._check_bracketed_host.
  intros Hp. repeat case_match; simplify_eq; eauto.
Qed.

(** What rule 1 accepts is exactly the trimmed segment of the
    specification. *)
Lemma rule1_path_spec (path : string) :
  rule1_path path =
    if Str.is_empty path then None
    else
      let c := Str.strip (last_segment_decoded path) in
      if negb (Str.is_empty c) && Str.contains "." c
         && negb (ends_in_separator c)
      then Some c else None.
Proof. reflexivity. Qed.

Lemma contains_dot_nonempty (c : string) :
  Str.contains "." c = true -> Str.is_empty c = false.
Proof. destruct c; [discriminate | reflexivity]. Qed.

(** The resolver returns, or passes the user's interrupt on. *)
Lemma resolver_outcome (url : string) (w : W) :
  exists w',
    (exists o, get_filename_from_url url w = (Ok o, w'))
    \/ (get_filename_from_url url w = (Raise KeyboardInterrupt, w')
        /\ requests_head (Str.strip url) w = (Err KeyboardInterrupt, w')).
Proof.
  unfold get_filename_from_url.
  destruct (Str.is_empty url); [unfold_monad; eauto|].
  unfold_monad.
  destruct (urllib.urlparse (Str.strip url)) as [p|e] eqn:Hp.
  - destruct (rule1_path (urllib.path p)); [eauto|].
    destruct (rule2_query (urllib.query p)); [eauto|].
    destruct (rule3_fragment (urllib.fragment p)); [eauto|].
    destruct (requests_head (Str.strip url) w) as [[cd|[|msg]] w1]; eauto.
  - destruct (urlparse_raises_Exception _ _ Hp) as [msg ->]. eauto.
Qed.

(** C7 (as amended): for every address that [urlparse] accepts and whose
    last path segment, after percent-decoding, stripping of any trailing
    fragment or query and trimming of the surrounding white space, contains
    a dot and does not end in a path separator, the resolver returns exactly
    that segment, by its first rule and without touching the world. *)
Theorem get_filename_from_url_rule1 (url : string) (p : urllib.ParseResult)
    (w : W) :
  urllib.urlparse (Str.strip url) = Val p ->
  Str.contains "." (Str.strip (last_segment_decoded (urllib.path p))) = true ->
  ends_in_separator (Str.strip (last_segment_decoded (urllib.path p))) = false ->
  get_filename_from_url url w
  = (Ok (Some (Str.strip (last_segment_decoded (urllib.path p)))), w).
Proof.
  intros Hp Hdot Hsep.
  assert (Hpath : Str.is_empty (urllib.path p) = false).
  { destruct (urllib.path p) eqn:E; [|reflexivity]. discriminate Hdot. }
  assert (Hurl : Str.is_empty url = false).
  { destruct url; [|reflexivity]. cbn in Hp. injection Hp as <-.
    discriminate Hpath. }
  unfold get_filename_from_url. rewrite Hurl. unfold_monad. rewrite Hp.
  rewrite rule1_path_spec, Hpath. cbn zeta.
  rewrite (contains_dot_nonempty _ Hdot), Hdot, Hsep. reflexivity.
Qed.

(** C8: the resolver never raises an [Exception] to its caller, and it
    always returns. Whatever the address and the world, it returns a name
    or [None], unless the user interrupts the network probe (the
    [KeyboardInterrupt], which is no [Exception], goes through). When
    [urlparse] rejects the address, and when the probe is reached and fails,
    the answer is [None]. *)
Theorem get_filename_from_url_never_raises (url : string) (w : W) :
  (exists w',
     (exists o, get_filename_from_url url w = (Ok o, w'))
     \/ (get_filename_from_url url w = (Raise KeyboardInterrupt, w')
         /\ requests_head (Str.strip url) w = (Err KeyboardInterrupt, w')))
  /\ (forall msg,
        urllib.urlparse (Str.strip url) = Err (Exception msg) ->
        get_filename_from_url url w = (Ok None, w))
  /\ (forall msg w',
        requests_head (Str.strip url) w = (Err (Exception msg), w') ->
        fst (get_filename_from_url url w) = Ok None
        \/ exists name, get_filename_from_url url w = (Ok (Some name), w)).
Proof.
  unfold get_filename_from_url.
  destruct (Str.is_empty url) eqn:Hurl.
  { unfold_monad. split; [|split]; intros; eauto. }
  unfold_monad.
  destruct (urllib.urlparse (Str.strip url)) as [p|e] eqn:Hp.
  - destruct (rule1_path (urllib.path p)); [split; [|split]; intros; eauto; discriminate|].
    destruct (rule2_query (urllib.query p)); [split; [|split]; intros; eauto; discriminate|].
    destruct (rule3_fragment (urllib.fragment p)); [split; [|split]; intros; eauto; discriminate|].
    destruct (requests_head (Str.strip url) w) as [[cd|[|msg]] w1] eqn:Hh;
      (split; [|split]); intros; simplify_eq; eauto 6.
  - destruct (urlparse_raises_Exception _ _ Hp) as [msg ->].
    split; [|split]; intros; eauto.
Qed.

End Resolver.

Section Matcher.
Context {W : Type} `{Env W}.

Lemma splitext_game : splitext (Str.strip "game.rar") = ("game", ".rar").
Proof. vm_compute. reflexivity. Qed.

Lemma pattern_variants (e : string) :
  In e variants_of_game ->
  Re.match_dollar (pattern "game" ".rar") e = true.
Proof.
  unfold variants_of_game. cbn [In].
  intros [<-|[<-|[<-|[<-|[]]]]]; vm_compute; reflexivity.
Qed.

Lemma pattern_gameplay :
  Re.match_dollar (pattern "game" ".rar") "gameplay.rar" = false.
Proof. vm_compute. reflexivity. Qed.

Lemma fallback_gameplay : fallback_match "game" ".rar" "gameplay.rar" = true.
Proof. vm_compute. reflexivity. Qed.

(** C3 (as amended): for an address that resolves to game.rar, the matcher
    returns the entry when the directory holds one of game.rar,
    game (1).rar, game.rar.crdownload and game (2).rar.part; when the only
    entry is gameplay.rar, the pattern does not match it, and the fallback
    pass (the stem contains game) returns it all the same. *)
Theorem check_file_exists_game (download_dir url : string) (w w1 : W) :
  get_filename_from_url url w = (Ok (Some "game.rar"), w1) ->
  (forall e w2,
     In e variants_of_game ->
     os_listdir download_dir w1 = (Val [e], w2) ->
     check_file_exists download_dir url w = (Ok (Some e), w2))
  /\ (forall w2 w3,
       os_listdir download_dir w1 = (Val ["gameplay.rar"], w2) ->
       os_listdir download_dir w2 = (Val ["gameplay.rar"], w3) ->
       Re.match_dollar (pattern "game" ".rar") "gameplay.rar" = false
       /\ check_file_exists download_dir url w
          = (Ok (Some "gameplay.rar"), w3)).
Proof.
  intros Hname. split.
  - intros e w2 He Hls. unfold check_file_exists. unfold_monad.
    rewrite Hname. cbn [Str.is_empty]. rewrite splitext_game.
    cbn [Str.is_empty]. rewrite Hls. cbn [List.find].
    rewrite (pattern_variants e He). reflexivity.
  - intros w2 w3 Hls1 Hls2. split; [exact pattern_gameplay|].
    unfold check_file_exists. unfold_monad.
    rewrite Hname. cbn [Str.is_empty]. rewrite splitext_game.
    cbn [Str.is_empty]. rewrite Hls1. cbn [List.find].
    rewrite pattern_gameplay, Hls2. cbn [List.find].
    rewrite fallback_gameplay. reflexivity.
Qed.

(** C10: the matcher is total and raises no [Exception]: whatever the
    directory, the address and the world, it returns a file name or [None]
    (the user's [KeyboardInterrupt] apart, which no handler of [Exception]
    absorbs); and when listing the directory fails, the answer is [None]. *)
Theorem check_file_exists_total (download_dir url : string) (w : W) :
  (exists w',
     (exists o, check_file_exists download_dir url w = (Ok o, w'))
     \/ check_file_exists download_dir url w = (Raise KeyboardInterrupt, w'))
  /\ (forall hint w1 msg w2,
       get_filename_from_url url w = (Ok hint, w1) ->
       os_listdir download_dir w1 = (Err (Exception msg), w2) ->
       fst (check_file_exists download_dir url w) = Ok None).
Proof.
  split.
  - unfold check_file_exists. unfold_monad.
    destruct (resolver_outcome url w) as [w1 [[o Ho]|[Hki _]]].
    2:{ rewrite Hki. eauto. }
    rewrite Ho. destruct o as [hint|]; [|eauto].
    destruct (Str.is_empty hint); [eauto|].
    destruct (splitext (Str.strip hint)) as [base ext].
    destruct (Str.is_empty ext); [eauto|].
    destruct (os_listdir download_dir w1) as [[names|[|msg]] w2]; [|eauto..].
    destruct (List.find _ names); [eauto|].
    destruct (os_listdir download_dir w2) as [[names2|[|msg]] w3]; eauto.
  - intros hint w1 msg w2 Hname Hls.
    unfold check_file_exists. unfold_monad. rewrite Hname.
    destruct hint as [hint|]; [|reflexivity].
    destruct (Str.is_empty hint); [reflexivity|].
    destruct (splitext (Str.strip hint)) as [base ext].
    destruct (Str.is_empty ext); [reflexivity|].
    rewrite Hls. reflexivity.
Qed.

End Matcher.

Section Watcher.
Context {W : Type} `{Env W}.

Lemma size_stable_quiet (fp : string) (size : Z) (n : nat) (w w' : W) :
  size_stable fp size n w = (Ok true, w') <-> quiet fp size n w w'.
Proof.
  split.
  - revert w. induction n as [|n IH]; intros w Hs.
    + cbn in Hs. unfold_monad. simplify_eq. constructor.
    + cbn [size_stable] in Hs. unfold_monad.
      destruct (time_sleep 1000 w) as [[[]|e] w1] eqn:Hsl; [|discriminate].
      destruct (os_path_getsize fp w1) as [[sz|[|msg]] w2] eqn:Hsz;
        [| discriminate |].
      * destruct (sz =? size) eqn:Heq; cbn [negb] in Hs; [|discriminate].
        apply Z.eqb_eq in Heq as ->. eapply quiet_same; eauto.
      * rewrite Z.eqb_refl in Hs. cbn [negb] in Hs.
        eapply quiet_failed; eauto.
  - induction 1 as [w|n w w1 w2 w3 Hsl Hsz _ IH|n w w1 msg w2 w3 Hsl Hsz _ IH].
    + reflexivity.
    + cbn [size_stable]. unfold_monad. rewrite Hsl, Hsz, Z.eqb_refl. exact IH.
    + cbn [size_stable]. unfold_monad. rewrite Hsl, Hsz, Z.eqb_refl. exact IH.
Qed.

Lemma size_stable_changed (fp : string) (size : Z) (n : nat) (w w' : W) :
  changed fp size n w w' -> size_stable fp size n w = (Ok false, w').
Proof.
  induction 1 as [n w w1 sz w2 Hsl Hsz Hne|n w w1 w2 w3 Hsl Hsz _ IH
                 |n w w1 msg w2 w3 Hsl Hsz _ IH];
    cbn [size_stable]; unfold_monad; rewrite Hsl, Hsz.
  - apply Z.eqb_neq in Hne. rewrite Hne. reflexivity.
  - rewrite Z.eqb_refl. exact IH.
  - rewrite Z.eqb_refl. exact IH.
Qed.

Lemma gone_quiet (fp : string) (size : Z) (n : nat) (w w' : W) :
  gone fp n w w' -> quiet fp size n w w'.
Proof. induction 1; [constructor | eapply quiet_failed; eauto]. Qed.

(** A file that the scan returns is one of the scanned files, and went
    through a quiet window. *)
Lemma scan_new_files_sound (download_dir : string) (l : list string)
    (k : nat) (fn : string) (w w' : W) :
  scan_new_files download_dir l k w = (Ok (Some fn), w') ->
  In fn l
  /\ exists w1 size w2,
       os_path_getsize (path_join download_dir fn) w1 = (Val size, w2)
       /\ quiet (path_join download_dir fn) size k w2 w'.
Proof.
  revert w. induction l as [|f l IH]; intros w Hs.
  - cbn in Hs. unfold_monad. discriminate.
  - cbn [scan_new_files] in Hs. unfold_monad.
    destruct (path_exists (path_join download_dir f) w) as [[[]|e] w1] eqn:He;
      cbn [negb] in Hs; [| |discriminate].
    + destruct (os_path_getsize (path_join download_dir f) w1)
        as [[size|e] w2] eqn:Hsz; [|discriminate].
      destruct (size_stable (path_join download_dir f) size k w2)
        as [[[]| |] w3] eqn:Hst; [| |discriminate..].
      * simplify_eq. split; [left; reflexivity|].
        apply size_stable_quiet in Hst. eauto.
      * destruct (IH _ Hs) as [Hin Hq]. split; [right; exact Hin|exact Hq].
    + destruct (IH _ Hs) as [Hin Hq]. split; [right; exact Hin|exact Hq].
Qed.

Lemma filter_nil_false {A} (p : A -> bool) (l : list A) (x : A) :
  List.filter p l = [] -> In x l -> p x = false.
Proof.
  induction l as [|a l IH]; cbn; [tauto|].
  destruct (p a) eqn:Hp; [discriminate|].
  intros Hf [<-|Hin]; auto.
Qed.

Lemma truthy_Some (o : option string) :
  truthy o = true -> exists e, o = Some e.
Proof. destruct o; [eauto|discriminate]. Qed.

Lemma new_file_not_before (current before_files : gset string) (f : string) :
  In f (elements (current ∖ before_files)) -> f ∉ before_files.
Proof.
  rewrite <- list_elem_of_In, elem_of_elements, elem_of_difference. tauto.
Qed.

Lemma poll_sound (fuel : nat) (download_dir : string)
    (before_files : gset string) (target_url : option string)
    (start timeout : Z) (k : nat) (fn : string) (w w' : W) :
  poll fuel download_dir before_files target_url start timeout k w
  = (Ok (Some fn), w') ->
  by_matcher download_dir target_url fn w'
  \/ by_stability download_dir before_files k fn w'.
Proof.
  revert w. induction fuel as [|fuel IH]; intros w Hp.
  - cbn in Hp. discriminate.
  - cbn [poll] in Hp. unfold_monad.
    destruct (time_time w) as [[now|e] w1]; [|discriminate].
    destruct (negb (now - start <? timeout * 1000)); [discriminate|].
    destruct (os_listdir download_dir w1) as [[names|[|msg]] w2];
      [| discriminate |].
    all: match type of Hp with
         | context [elements (?cur ∖ ?b)] =>
             set (new_files := elements (cur ∖ b)) in *;
             assert (Hnew : forall f, In f new_files -> f ∉ b)
               by (intros f Hf; subst new_files;
                   eapply new_file_not_before; exact Hf)
         end.
    all: destruct (List.filter is_temp new_files) eqn:Hinc;
      [| destruct (time_sleep 1500 w2) as [[[]|e] w3]; [eauto|discriminate] ].
    all: destruct (scan_new_files download_dir new_files k w2)
           as [[[f|]| |] w3] eqn:Hscan; [| |discriminate..].
    all: try (simplify_eq; right;
              destruct (scan_new_files_sound _ _ _ _ _ _ Hscan) as [Hin Hq];
              split; [auto|split; [eapply filter_nil_false; eauto|exact Hq]]).
    all: destruct (recheck download_dir target_url w3) as [[ex| |] w4] eqn:Hre;
      [| discriminate..].
    all: destruct (truthy ex) eqn:Hex;
      [ simplify_eq; left; exists w3; exact Hre
      | destruct (time_sleep 1000 w4) as [[[]|e] w5]; [eauto|discriminate] ].
Qed.

(** What the watcher does ensure: a file that it returns was either
    reported by the existing-file matcher (which samples no size), or it is
    new (not in the snapshot), has no temporary suffix and, after its size
    was read, each of the [stable_checks] samples of the stability window
    read that same size or failed. And when a sample reads another size,
    the stability scan does not return that file in this poll cycle: it
    goes on with the other new files. *)
Theorem wait_for_download_complete_sound (fuel : nat) (download_dir : string)
    (before_files : gset string) (target_url : option string)
    (timeout stable_checks : Z) :
  (forall w fn w',
     wait_for_download_complete fuel download_dir before_files target_url
       timeout stable_checks w = (Ok (Some fn), w') ->
     by_matcher download_dir target_url fn w'
     \/ by_stability download_dir before_files (Z.to_nat stable_checks) fn w')
  /\ (forall fn rest w w1 size w2 w3,
       path_exists (path_join download_dir fn) w = (Val true, w1) ->
       os_path_getsize (path_join download_dir fn) w1 = (Val size, w2) ->
       changed (path_join download_dir fn) size (Z.to_nat stable_checks) w2 w3 ->
       scan_new_files download_dir (fn :: rest) (Z.to_nat stable_checks) w
       = scan_new_files download_dir rest (Z.to_nat stable_checks) w3).
Proof.
  split.
  - intros w fn w' Hw. unfold wait_for_download_complete in Hw. unfold_monad.
    destruct (time_time w) as [[start|e] w1]; [|discriminate].
    destruct (recheck download_dir target_url w1) as [[ex| |] w2] eqn:Hre;
      [|discriminate..].
    destruct (truthy ex) eqn:Hex.
    + simplify_eq. left. exists w1. exact Hre.
    + eapply poll_sound. exact Hw.
  - intros fn rest w w1 size w2 w3 He Hsz Hch.
    cbn [scan_new_files]. unfold_monad. rewrite He. cbn [negb]. rewrite Hsz.
    rewrite (size_stable_changed _ _ _ _ _ Hch). reflexivity.
Qed.

(** C9: in the stability window a sample that raises counts as a sample
    equal to the previous size; so a new file that disappears during the
    window (every sample of its size fails) is still returned by the watcher
    as a completed download. *)
Theorem wait_for_download_complete_vanished (fuel : nat)
    (download_dir : string) (before_files : gset string)
    (target_url : option string) (timeout stable_checks : Z)
    (w w1 w2 w3 w4 w5 w6 w7 : W) (start now size : Z) (o : option string)
    (names rest : list string) (fn : string) :
  time_time w = (Val start, w1) ->
  recheck download_dir target_url w1 = (Ok o, w2) ->
  truthy o = false ->
  time_time w2 = (Val now, w3) ->
  now - start < timeout * 1000 ->
  os_listdir download_dir w3 = (Val names, w4) ->
  elements (list_to_set names ∖ before_files) = fn :: rest ->
  List.filter is_temp (fn :: rest) = [] ->
  path_exists (path_join download_dir fn) w4 = (Val true, w5) ->
  os_path_getsize (path_join download_dir fn) w5 = (Val size, w6) ->
  gone (path_join download_dir fn) (Z.to_nat stable_checks) w6 w7 ->
  wait_for_download_complete (S fuel) download_dir before_files target_url
    timeout stable_checks w = (Ok (Some fn), w7).
Proof.
  intros Ht0 Hre Hex Ht1 Hlt Hls Hnew Htmp He Hsz Hgone.
  unfold wait_for_download_complete. unfold_monad.
  rewrite Ht0, Hre, Hex. cbn [poll]. unfold_monad. rewrite Ht1.
  apply Z.ltb_lt in Hlt. rewrite Hlt. cbn [negb]. rewrite Hls, Hnew, Htmp.
  cbn [scan_new_files]. unfold_monad. rewrite He. cbn [negb]. rewrite Hsz.
  apply (gone_quiet _ size) in Hgone. apply size_stable_quiet in Hgone.
  rewrite Hgone. reflexivity.
Qed.

End Watcher.

(** ** The loop of [run] *)

Lemma yields_ret {S A} (P : A -> Prop) (a : A) :
  P a -> yields (S:=S) P (mret a).
Proof. intros HP s a' s' Hm. unfold_monad. simplify_eq. exact HP. Qed.

Lemma yields_bind {S A B} (Q : A -> Prop) (P : B -> Prop)
    (m : M S A) (k : A -> M S B) :
  yields Q m -> (forall a, Q a -> yields P (k a)) -> yields P (m ≫= k).
Proof.
  intros Hm Hk s b s' Hb. unfold_monad.
  destruct (m s) as [[a|e|] s1] eqn:Hms; [|discriminate..].
  eapply Hk; eauto.
Qed.

Lemma yields_try_except {S A} (P : A -> Prop) (m : M S A)
    (h : string -> M S A) :
  yields P m -> (forall msg, yields P (h msg)) -> yields P (try_except m h).
Proof.
  intros Hm Hh s a s' Ha. unfold_monad.
  destruct (m s) as [[a1|[|msg]|] s1] eqn:Hms; simplify_eq.
  - eapply Hm; eauto.
  - eapply Hh; eauto.
Qed.

Lemma yields_any {S A} (m : M S A) : yields (fun _ => True) m.
Proof. intros s a s' _. exact I. Qed.

Lemma bind_assoc {S A B C} (m : M S A) (k : A -> M S B) (h : B -> M S C)
    (s : S) :
  ((m ≫= k) ≫= h) s = (m ≫= (fun a => k a ≫= h)) s.
Proof. unfold_monad. destruct (m s) as [[a|e|] s1]; reflexivity. Qed.

Lemma bind_ext {S A B} (m : M S A) (k k' : A -> M S B) (s : S) :
  (forall a s1, k a s1 = k' a s1) -> (m ≫= k) s = (m ≫= k') s.
Proof. intros Hk. unfold_monad. destruct (m s) as [[a|e|] s1]; auto. Qed.

Section Loop.
Context {W : Type} `{Env W}.

(** [click_download_button] has no path that returns [True]. *)
Lemma click_download_button_not_True (fuel : nat) (d : driver)
    (page_url download_dir : string) (max_wait : Z) :
  yields (fun r => r <> RTrue)
    (click_download_button fuel d page_url download_dir max_wait).
Proof.
  unfold click_download_button.
  apply yields_try_except; [|intros msg; case_match; apply yields_ret; discriminate].
  eapply yields_bind; [apply yields_any|]. intros alive _.
  destruct (negb alive); [apply yields_ret; discriminate|].
  repeat (eapply yields_bind; [apply yields_any|]; intros ? _).
  case_match; [|apply yields_ret; discriminate].
  repeat (eapply yields_bind; [apply yields_any|]; intros ? _).
  case_match; [apply yields_ret; discriminate|].
  eapply yields_bind; [apply yields_any|]. intros completed _.
  apply yields_ret. discriminate.
Qed.

Lemma lift_eq {A} (m : M W A) (rs : @RunState W) :
  lift m rs
  = (fst (m (world rs)),
     {| world := snd (m (world rs)); console := console rs;
        driver_var := driver_var rs |}).
Proof. unfold lift. destruct (m (world rs)). reflexivity. Qed.

Lemma yields_lift {A} (P : A -> Prop) (m : M W A) :
  yields P m -> yields P (lift m).
Proof.
  intros Hm rs a rs' Hl. rewrite lift_eq in Hl.
  destruct (m (world rs)) as [r w'] eqn:Hmw. cbn in Hl. simplify_eq.
  eapply Hm; eauto.
Qed.

(** [logs m]: whatever [m] does, it adds only plain events to the
    console. *)
Definition logs {A} (m : M (@RunState W) A) : Prop :=
  forall rs r rs',
    m rs = (r, rs') ->
    exists evs,
      console rs' = List.app (console rs) evs
      /\ Forall (fun e => plain e = true) evs.

Lemma logs_ret {A} (a : A) : logs (mret a).
Proof.
  intros rs r rs' Hm. unfold_monad. simplify_eq. exists [].
  split; [symmetry; apply List.app_nil_r | constructor].
Qed.

Lemma logs_bind {A B} (m : M (@RunState W) A) (k : A -> M (@RunState W) B) :
  logs m -> (forall a, logs (k a)) -> logs (m ≫= k).
Proof.
  intros Hm Hk rs r rs' Hb. unfold_monad.
  destruct (m rs) as [[a|e|] rs1] eqn:Hms.
  - destruct (Hm _ _ _ Hms) as (evs1 & E1 & F1).
    destruct (Hk a _ _ _ Hb) as (evs2 & E2 & F2).
    exists (List.app evs1 evs2). rewrite E2, E1, List.app_assoc.
    split; [reflexivity | apply Forall_app; split; assumption].
  - simplify_eq. eapply Hm; eauto.
  - simplify_eq. eapply Hm; eauto.
Qed.

Lemma logs_lift {A} (m : M W A) : logs (lift m).
Proof.
  intros rs r rs' Hl. rewrite lift_eq in Hl. simplify_eq. exists [].
  split; [symmetry; apply List.app_nil_r | constructor].
Qed.

Lemma logs_print (e : Event) : plain e = true -> logs (console_print e).
Proof.
  intros He rs r rs' Hp. unfold console_print in Hp. simplify_eq.
  exists [e]. split; [reflexivity | repeat constructor; exact He].
Qed.

Lemma logs_assign (d : option driver) : logs (assign_driver d).
Proof.
  intros rs r rs' Hp. unfold assign_driver in Hp. simplify_eq. exists [].
  split; [symmetry; apply List.app_nil_r | constructor].
Qed.

Lemma logs_read : logs read_driver.
Proof.
  intros rs r rs' Hp. unfold read_driver in Hp. simplify_eq. exists [].
  split; [symmetry; apply List.app_nil_r | constructor].
Qed.

Lemma logs_try_except {A} (m : M (@RunState W) A) (h : string -> M (@RunState W) A) :
  logs m -> (forall msg, logs (h msg)) -> logs (try_except m h).
Proof.
  intros Hm Hh rs r rs' Ht. unfold try_except in Ht.
  destruct (m rs) as [[a|[|msg]|] rs1] eqn:Hms; simplify_eq;
    try (eapply Hm; eauto; fail).
  destruct (Hm _ _ _ Hms) as (evs1 & E1 & F1).
  destruct (Hh msg _ _ _ Ht) as (evs2 & E2 & F2).
  exists (List.app evs1 evs2). rewrite E2, E1, List.app_assoc.
  split; [reflexivity | apply Forall_app; split; assumption].
Qed.

Ltac logs_step :=
  first
    [ apply logs_ret
    | apply logs_lift
    | apply logs_assign
    | apply logs_read
    | apply logs_print; reflexivity
    | apply logs_bind; [|intros ?]
    | apply logs_try_except; [|intros ?]
    | match goal with
      | |- logs (if ?b then _ else _) => destruct b
      | |- logs (match ?x with _ => _ end) => destruct x
      | |- logs (let _ := _ in _) => cbv zeta
      end ].

Lemma logs_restart_session (args : Args) (download_dir : string)
    (why : Event) (st : Loop) :
  plain why = true -> logs (restart_session args download_dir why st).
Proof.
  intros Hwhy. unfold restart_session.
  apply logs_bind; [apply logs_print; exact Hwhy|intros ?].
  repeat logs_step.
Qed.

Lemma logs_trigger (fuel : nat) (args : Args) (download_dir link : string)
    (st : Loop) :
  logs (trigger fuel args download_dir link st).
Proof.
  unfold trigger. apply logs_bind; [apply logs_lift|intros result].
  destruct result; try apply logs_ret.
  apply logs_bind; [apply logs_restart_session; reflexivity|intros ?].
  repeat logs_step.
Qed.

Lemma logs_attempt (fuel : nat) (args : Args) (download_dir : string)
    (n idx : nat) (link : string) (st : Loop) :
  logs (attempt fuel args download_dir n idx link st).
Proof.
  unfold attempt, progress_update.
  apply logs_bind; [apply logs_trigger|intros [st1 result]].
  repeat logs_step.
Qed.

Lemma logs_process_link (fuel : nat) (args : Args) (download_dir : string)
    (n idx : nat) (link : string) (st : Loop) :
  logs (process_link fuel args download_dir n idx link st).
Proof.
  unfold process_link, refresh_if_due, progress_update.
  apply logs_bind; [apply logs_lift|intros filename].
  apply logs_bind; [apply logs_print; reflexivity|intros _].
  apply logs_bind; [apply logs_lift|intros existing].
  destruct (truthy existing).
  - repeat logs_step.
  - apply logs_bind; [|intros st1; apply logs_attempt].
    destruct (should_refresh args st); [|apply logs_ret].
    apply logs_restart_session. reflexivity.
Qed.

Lemma logs_process_links (fuel : nat) (args : Args) (download_dir : string)
    (n : nat) (links : list string) :
  forall idx st, logs (process_links fuel args download_dir n idx links st).
Proof.
  induction links as [|link rest IH]; intros idx st; cbn [process_links].
  - apply logs_ret.
  - apply logs_bind; [apply logs_process_link|intros st1; apply IH].
Qed.

Lemma yields_restart_session (args : Args) (download_dir : string)
    (why : Event) (st : Loop) :
  yields (fun st' => same_counts st st' /\ downloads_since_refresh st' = 0)
    (restart_session args download_dir why st).
Proof.
  unfold restart_session.
  repeat (eapply yields_bind; [apply yields_any|]; intros ? _).
  apply yields_ret. cbn. repeat split.
Qed.

Lemma yields_trigger (fuel : nat) (args : Args) (download_dir link : string)
    (st : Loop) :
  yields (fun p => same_counts st (fst p) /\ snd p <> RTrue)
    (trigger fuel args download_dir link st).
Proof.
  unfold trigger.
  eapply yields_bind;
    [apply yields_lift, click_download_button_not_True|].
  intros result Hne. destruct result; [congruence| |].
  - apply yields_ret. cbn. repeat split. discriminate.
  - eapply yields_bind; [apply yields_restart_session|].
    intros st1 [Hsame _].
    eapply yields_bind;
      [apply yields_lift, click_download_button_not_True|].
    intros result2 Hne2. apply yields_ret. split; assumption.
Qed.

Lemma yields_attempt (fuel : nat) (args : Args) (download_dir : string)
    (n idx : nat) (link : string) (st : Loop) :
  yields (fun st' => successful st' = successful st
                     /\ skipped st' = skipped st
                     /\ failed st' = failed st + 1)
    (attempt fuel args download_dir n idx link st).
Proof.
  unfold attempt.
  eapply yields_bind; [apply yields_trigger|].
  intros [st1 result] [(Hs & Hf & Hk) Hne]. cbn in Hs, Hf, Hk, Hne.
  repeat (eapply yields_bind; [apply yields_any|]; intros ? _).
  apply yields_ret. destruct result; [congruence| |]; cbn; lia.
Qed.

Lemma yields_process_link (fuel : nat) (args : Args) (download_dir : string)
    (n idx : nat) (link : string) (st : Loop) :
  yields (fun st' => successful st' = successful st
                     /\ skipped st' + failed st' = skipped st + failed st + 1)
    (process_link fuel args download_dir n idx link st).
Proof.
  unfold process_link.
  repeat (eapply yields_bind; [apply yields_any|]; intros ? _).
  case_match.
  - repeat (eapply yields_bind; [apply yields_any|]; intros ? _).
    apply yields_ret. cbn. lia.
  - eapply yields_bind with
      (Q := fun st1 => same_counts st st1).
    + unfold refresh_if_due. case_match.
      * intros rs st2 rs' Hr.
        apply (yields_restart_session _ _ _ _ _ _ _ Hr).
      * apply yields_ret. repeat split.
    + intros st1 (Hs & Hf & Hk) rs st2 rs' Ha.
      pose proof (yields_attempt _ _ _ _ _ _ _ _ _ _ Ha) as (Hs' & Hk' & Hf').
      lia.
Qed.

Lemma yields_process_links (fuel : nat) (args : Args) (download_dir : string)
    (n : nat) (links : list string) :
  forall idx st,
    yields (fun st' => successful st' = successful st
                       /\ skipped st' + failed st'
                          = skipped st + failed st
                            + Z.of_nat (List.length links))
      (process_links fuel args download_dir n idx links st).
Proof.
  induction links as [|link rest IH]; intros idx st; cbn [process_links].
  - apply yields_ret. cbn. lia.
  - eapply yields_bind; [apply yields_process_link|].
    intros st1 [Hs Hsum] rs st2 rs' Ha.
    pose proof (IH _ _ _ _ _ Ha) as [Hs' Hsum'].
    cbn [List.length]. lia.
Qed.

(** [shape m]: [m] adds plain events to the console and, when it returns,
    one last event: no links, or the tally of all addresses. *)
Definition shape (m : M (@RunState W) unit) : Prop :=
  forall rs r rs',
    m rs = (r, rs') ->
    exists evs mid,
      console rs' = List.app (console rs) (List.app evs mid)
      /\ Forall (fun e => plain e = true) evs
      /\ match r with
         | Ok _ =>
             mid = [MsgNoLinks]
             \/ exists k f n,
                  mid = [Summary 0 k f n] /\ k + f = Z.of_nat n
         | _ => mid = []
         end.

Lemma shape_bind {A} (m : M (@RunState W) A) (k : A -> M (@RunState W) unit) :
  logs m -> (forall a, shape (k a)) -> shape (m ≫= k).
Proof.
  intros Hm Hk rs r rs' Hb. unfold_monad.
  destruct (m rs) as [[a|e|] rs1] eqn:Hms.
  - destruct (Hm _ _ _ Hms) as (evs1 & E1 & F1).
    destruct (Hk a _ _ _ Hb) as (evs2 & mid & E2 & F2 & Hmid).
    exists (List.app evs1 evs2), mid.
    rewrite E2, E1, <- !List.app_assoc.
    split; [reflexivity|]. split; [apply Forall_app; split; assumption|].
    exact Hmid.
  - simplify_eq. destruct (Hm _ _ _ Hms) as (evs1 & E1 & F1).
    exists evs1, []. rewrite List.app_nil_r. auto.
  - simplify_eq. destruct (Hm _ _ _ Hms) as (evs1 & E1 & F1).
    exists evs1, []. rewrite List.app_nil_r. auto.
Qed.

Lemma run_body_shape (fuel : nat) (args : Args) (download_dir : string) :
  shape (run_body fuel args download_dir).
Proof.
  unfold run_body.
  apply shape_bind; [apply logs_lift|intros d].
  apply shape_bind; [apply logs_assign|intros _].
  apply shape_bind; [repeat logs_step|intros links1].
  apply shape_bind; [repeat logs_step|intros links2].
  cbv zeta. destruct (collect_links args (List.app links1 links2))
    as [|link rest] eqn:Hlinks.
  - intros rs r rs' Hp. unfold console_print in Hp. simplify_eq.
    exists [], [MsgNoLinks]. cbn. auto.
  - apply shape_bind; [apply logs_print; reflexivity|intros _].
    apply shape_bind; [apply logs_print; reflexivity|intros _].
    intros rs r rs' Hp. unfold_monad.
    destruct (process_links fuel args download_dir
                (List.length (link :: rest)) 1 (link :: rest)
                {| successful := 0; failed := 0; skipped := 0;
                   downloads_since_refresh := 0; drv := d |} rs)
      as [[st1|e|] rs1] eqn:Hloop;
      destruct (logs_process_links _ _ _ _ _ _ _ _ _ _ Hloop)
        as (evs & E & F).
    + pose proof (yields_process_links _ _ _ _ _ _ _ _ _ _ Hloop)
        as [Hs Hsum]. cbn [successful failed skipped] in Hs, Hsum.
      unfold console_print in Hp. simplify_eq. cbn [console].
      exists evs, [Summary 0 (skipped st1) (failed st1)
                     (List.length (link :: rest))].
      rewrite E, Hs, <- List.app_assoc. split; [reflexivity|].
      split; [exact F|]. right. eexists _, _, _. split; [reflexivity|lia].
    + simplify_eq. exists evs, []. rewrite List.app_nil_r. auto.
    + simplify_eq. exists evs, []. rewrite List.app_nil_r. auto.
Qed.

Lemma handlers_run_body (fuel : nat) (args : Args) (download_dir : string)
    (rs : @RunState W) (r : outcome unit) (rs' : @RunState W) :
  handlers (run_body fuel args download_dir) rs = (r, rs') ->
  exists evs mid,
    console rs' = List.app (console rs) (List.app evs mid)
    /\ Forall (fun e => plain e = true) evs
    /\ verdict mid
    /\ ((r = Ok tt /\ mid <> []) \/ (r = Diverge /\ mid = [])).
Proof.
  unfold handlers. intros Hh.
  destruct (run_body fuel args download_dir rs) as [[[]|[|msg]|] rs1] eqn:Hb;
    destruct (run_body_shape _ _ _ _ _ _ Hb) as (evs & mid & E & F & Hmid).
  - simplify_eq. exists evs, mid. split; [exact E|]. split; [exact F|].
    destruct Hmid as [->|(k & f & n & -> & Hsum)].
    + split; [constructor|]. left. split; [reflexivity|discriminate].
    + split; [constructor; exact Hsum|]. left.
      split; [reflexivity|discriminate].
  - unfold console_print in Hh. simplify_eq. cbn [console].
    exists evs, [MsgInterrupted]. rewrite E, List.app_nil_r, List.app_assoc.
    split; [reflexivity|]. split; [exact F|]. split; [constructor|].
    left. split; [reflexivity|discriminate].
  - unfold console_print in Hh. simplify_eq. cbn [console].
    exists evs, [MsgFatal msg]. rewrite E, List.app_nil_r, List.app_assoc.
    split; [reflexivity|]. split; [exact F|]. split; [constructor|].
    left. split; [reflexivity|discriminate].
  - simplify_eq. exists evs, []. split; [exact E|]. split; [exact F|].
    split; [constructor|]. right. split; reflexivity.
Qed.

Lemma logs_finalizer : logs finalizer.
Proof. unfold finalizer. repeat logs_step. Qed.

(** The console of a run: plain events, at most one verdict, and the
    plain events of the [finally] clause. A run that returns has given its
    verdict. *)
Lemma run_console (fuel : nat) (args : Args) (w : W) (r : outcome unit)
    (rs' : @RunState W) :
  run fuel args (start w) = (r, rs') ->
  exists evs mid closing,
    console rs' = List.app evs (List.app mid closing)
    /\ Forall (fun e => plain e = true) evs
    /\ Forall (fun e => plain e = true) closing
    /\ verdict mid
    /\ (forall u, r = Ok u -> mid <> []).
Proof.
  unfold run. intros Hr. unfold_monad. rewrite lift_eq in Hr.
  unfold start in Hr. cbn [world console driver_var fst snd] in Hr.
  destruct (path_mkdir (output args) w) as [[[]|e] w1].
  2:{ cbn in Hr. simplify_eq. exists [], [], []. cbn.
      repeat split; try constructor. discriminate. }
  cbn [fst snd] in Hr. unfold assign_driver, try_finally in Hr.
  match type of Hr with
  | context [handlers _ ?rs0] =>
      destruct (handlers (run_body fuel args (output args)) rs0)
        as [r1 rs1] eqn:Hh
  end.
  destruct (handlers_run_body _ _ _ _ _ _ Hh)
    as (evs & mid & E & F & V & [[-> Hne]|[-> ->]]).
  - cbn [console] in E.
    destruct (finalizer rs1) as [r2 rs2] eqn:Hf.
    destruct (logs_finalizer _ _ _ Hf) as (closing & E2 & F2).
    exists evs, mid, closing. rewrite E in E2. cbn [List.app] in E2.
    rewrite <- List.app_assoc in E2.
    assert (Hc : console rs' = List.app evs (List.app mid closing)).
    { destruct r2 as [[]|e|]; simplify_eq; exact E2. }
    split; [exact Hc|]. repeat split; auto.
  - simplify_eq. cbn [console] in E. exists evs, [], [].
    rewrite E. repeat split; auto; try constructor; discriminate.
Qed.

Lemma verdict_not_plain (e : Event) (evs mid closing : list Event) :
  plain e = false ->
  Forall (fun e => plain e = true) evs ->
  Forall (fun e => plain e = true) closing ->
  In e (List.app evs (List.app mid closing)) ->
  In e mid.
Proof.
  intros He F1 F2 Hin.
  apply List.in_app_or in Hin as [Hin|Hin].
  - rewrite List.Forall_forall in F1. apply F1 in Hin. congruence.
  - apply List.in_app_or in Hin as [Hin|Hin]; [exact Hin|].
    rewrite List.Forall_forall in F2. apply F2 in Hin. congruence.
Qed.

(** [run_body] is [candidate_links] followed by the loop. *)
Lemma run_body_candidates (fuel : nat) (args : Args) (download_dir : string)
    (rs : @RunState W) :
  run_body fuel args download_dir rs
  = (p ← candidate_links args download_dir;
     match snd p with
     | [] => console_print MsgNoLinks
     | _ :: _ =>
         let n := List.length (snd p) in
         _ ← console_print (MsgFound n download_dir);
         _ ← console_print (ProgressStart n);
         st ← process_links fuel args download_dir n 1 (snd p)
                (loop_start (fst p));
         console_print (Summary (successful st) (skipped st) (failed st) n)
     end) rs.
Proof.
  unfold run_body, candidate_links.
  rewrite bind_assoc. apply bind_ext. intros d rs1.
  rewrite bind_assoc. apply bind_ext. intros _ rs2.
  rewrite bind_assoc. apply bind_ext. intros links1 rs3.
  rewrite bind_assoc. apply bind_ext. intros links2 rs4.
  reflexivity.
Qed.

(** After a [try] statement that returns comes the [finally] clause, and
    nothing else. *)
Lemma try_finally_returned (m fin : M (@RunState W) unit)
    (rs rs1 : @RunState W) :
  m rs = (Ok tt, rs1) -> try_finally m fin rs = fin rs1.
Proof.
  intros Hm. unfold try_finally. rewrite Hm.
  destruct (fin rs1) as [[[]|e|] rs2]; reflexivity.
Qed.

(** The [finally] clause of [run]: the browser of the variable [driver] is
    closed, and the closing is reported when it succeeds. *)
Lemma finalizer_eq (rs : @RunState W) :
  finalizer rs
  = match driver_var rs with
    | None => (Ok tt, rs)
    | Some d =>
        match driver_quit d (world rs) with
        | (Val _, w') => (Ok tt, printed (set_world rs w') MsgClosed)
        | (Err (Exception _), w') => (Ok tt, set_world rs w')
        | (Err KeyboardInterrupt, w') =>
            (Raise KeyboardInterrupt, set_world rs w')
        end
    end.
Proof.
  unfold finalizer, read_driver. unfold_monad.
  destruct (driver_var rs) as [d|]; [|reflexivity].
  rewrite lift_eq. cbn [fst snd].
  destruct (driver_quit d (world rs)) as [[[]|[|msg]] w']; reflexivity.
Qed.

(** C2 (as amended): a run reports its final tally when its loop has gone
    through all the addresses, and only then. [run] is its [try] statement
    in the state that the creation of the download directory leaves. When
    the loop returns, the body of the [try] prints the tally of the loop as
    its last message and returns, the three counts add up to the number of
    addresses, and the [finally] clause follows; without a candidate link
    the body reports that instead. When the body is cancelled by the user
    or aborted by a fatal error, it has printed no tally, the handlers
    print the interruption or the error and nothing else, and the [finally]
    clause follows. The [finally] clause closes the browser that the
    variable [driver] holds, if any, and reports it. On the console of a
    run, a tally excludes the interruption and the fatal error; a run that
    returns has reported one of: no links, the tally, the interruption, the
    fatal error. *)
Theorem run_reports_tally_on_completion (fuel : nat) (args : Args) :
  (forall w w0,
     path_mkdir (output args) w = (Val tt, w0) ->
     run fuel args (start w)
     = try_finally (handlers (run_body fuel args (output args))) finalizer
         (start w0))
  /\ (forall rs d links rs0 st rs1,
        candidate_links args (output args) rs = (Ok (d, links), rs0) ->
        links <> [] ->
        process_links fuel args (output args) (List.length links) 1 links
          (loop_start d)
          (printed (printed rs0 (MsgFound (List.length links) (output args)))
             (ProgressStart (List.length links)))
        = (Ok st, rs1) ->
        successful st + skipped st + failed st
        = Z.of_nat (List.length links)
        /\ run_body fuel args (output args) rs
           = (Ok tt, printed rs1 (Summary (successful st) (skipped st)
                                    (failed st) (List.length links)))
        /\ try_finally (handlers (run_body fuel args (output args)))
             finalizer rs
           = finalizer (printed rs1 (Summary (successful st) (skipped st)
                                       (failed st) (List.length links))))
  /\ (forall rs d rs0,
        candidate_links args (output args) rs = (Ok (d, []), rs0) ->
        run_body fuel args (output args) rs = (Ok tt, printed rs0 MsgNoLinks))
  /\ (forall rs e rs1,
        run_body fuel args (output args) rs = (Raise e, rs1) ->
        (exists evs,
           console rs1 = List.app (console rs) evs
           /\ Forall (fun e => plain e = true) evs)
        /\ handlers (run_body fuel args (output args)) rs
           = (Ok tt, printed rs1 (abort_message e))
        /\ try_finally (handlers (run_body fuel args (output args)))
             finalizer rs
           = finalizer (printed rs1 (abort_message e)))
  /\ (forall rs,
        finalizer rs
        = match driver_var rs with
          | None => (Ok tt, rs)
          | Some d =>
              match driver_quit d (world rs) with
              | (Val _, w') => (Ok tt, printed (set_world rs w') MsgClosed)
              | (Err (Exception _), w') => (Ok tt, set_world rs w')
              | (Err KeyboardInterrupt, w') =>
                  (Raise KeyboardInterrupt, set_world rs w')
              end
          end)
  /\ (forall w r rs',
        run fuel args (start w) = (r, rs') ->
        (forall s k f n,
           In (Summary s k f n) (console rs') ->
           s + k + f = Z.of_nat n
           /\ ~ In MsgInterrupted (console rs')
           /\ forall msg, ~ In (MsgFatal msg) (console rs'))
        /\ (r = Ok tt ->
            In MsgNoLinks (console rs')
            \/ In MsgInterrupted (console rs')
            \/ (exists msg, In (MsgFatal msg) (console rs'))
            \/ exists s k f n, In (Summary s k f n) (console rs'))).
Proof.
  split; [|split; [|split; [|split; [|split; [exact finalizer_eq|]]]]].
  - intros w w0 Hmk. unfold run. unfold_monad. rewrite lift_eq.
    unfold start. cbn [world console driver_var]. rewrite Hmk. reflexivity.
  - intros rs d links rs0 st rs1 Hc Hne Hloop.
    assert (Hb : run_body fuel args (output args) rs
                 = (Ok tt, printed rs1 (Summary (successful st) (skipped st)
                                          (failed st) (List.length links)))).
    { rewrite run_body_candidates. unfold mbind at 1, M_bind at 1, bind.
      rewrite Hc. cbn [fst snd].
      destruct links as [|link rest]; [contradiction|]. cbv zeta.
      unfold_monad. unfold console_print at 1 2.
      unfold printed in Hloop. cbn [world console driver_var] in Hloop |- *.
      rewrite Hloop. reflexivity. }
    split; [|split; [exact Hb|]].
    + pose proof (yields_process_links _ _ _ _ _ _ _ _ _ _ Hloop) as [Hs Hsum].
      cbn [successful failed skipped loop_start] in Hs, Hsum. lia.
    + apply try_finally_returned. unfold handlers. rewrite Hb. reflexivity.
  - intros rs d rs0 Hc. rewrite run_body_candidates.
    unfold mbind at 1, M_bind at 1, bind. rewrite Hc. reflexivity.
  - intros rs e rs1 Hb.
    destruct (run_body_shape _ _ _ _ _ _ Hb) as (evs & mid & E & F & ->).
    rewrite List.app_nil_r in E. split; [eauto|].
    assert (Hh : handlers (run_body fuel args (output args)) rs
                 = (Ok tt, printed rs1 (abort_message e))).
    { unfold handlers. rewrite Hb. destruct e; reflexivity. }
    split; [exact Hh|]. apply try_finally_returned. exact Hh.
  - intros w r rs' Hr.
    destruct (run_console _ _ _ _ _ Hr) as (evs & mid & closing & E & F1 & F2 & V & Hok).
    rewrite E. split.
    + intros s k f n Hin.
      apply verdict_not_plain in Hin; [|reflexivity|assumption..].
      inversion V as [| |k' f' n' Hsum| |]; subst mid;
        cbn in Hin; try tauto;
        try (destruct Hin as [Heq|[]]; discriminate Heq).
      destruct Hin as [Heq|[]]. injection Heq as <- <- <- <-.
      split; [lia|]. split.
      * intros Hi. apply verdict_not_plain in Hi; [|reflexivity|assumption..].
        cbn in Hi. destruct Hi as [?|[]]. discriminate.
      * intros msg Hi.
        apply verdict_not_plain in Hi; [|reflexivity|assumption..].
        cbn in Hi. destruct Hi as [?|[]]. discriminate.
    + intros ->. specialize (Hok tt eq_refl).
      assert (Hmid : forall e, In e mid -> In e (List.app evs (List.app mid closing))).
      { intros e He. apply List.in_or_app. right. apply List.in_or_app.
        left. exact He. }
      inversion V as [| |k' f' n' Hsum| |msg]; subst mid.
      * congruence.
      * left. apply Hmid. left. reflexivity.
      * right. right. right. eexists _, _, _, _. apply Hmid. left. reflexivity.
      * right. left. apply Hmid. left. reflexivity.
      * right. right. left. exists msg. apply Hmid. left. reflexivity.
Qed.

Lemma process_link_unskipped (fuel : nat) (args : Args)
    (download_dir : string) (n idx : nat) (link : string) (st : Loop)
    (rs : @RunState W) (fname : option string) (w1 : W)
    (existing : option string) (w2 : W) :
  get_filename_from_url link (world rs) = (Ok fname, w1) ->
  check_file_exists download_dir link w1 = (Ok existing, w2) ->
  truthy existing = false ->
  process_link fuel args download_dir n idx link st rs
  = (refresh_if_due args download_dir st
     ≫= attempt fuel args download_dir n idx link)
      (set_world (printed rs (MsgItem idx n (item_label fname link))) w2).
Proof.
  intros Hname Hex Hfalse. unfold process_link. unfold_monad.
  rewrite lift_eq, Hname. cbn [fst snd]. unfold console_print.
  rewrite lift_eq. cbn [world console driver_var]. rewrite Hex.
  cbn [fst snd]. rewrite Hfalse. reflexivity.
Qed.

Lemma record_all_counter (steps : list (option click_result)) (st : Loop) :
  downloads_since_refresh (record_all steps st)
  = downloads_since_refresh st + successes steps.
Proof.
  unfold record_all, successes. revert st.
  induction steps as [|step steps IH]; intros st; cbn [List.fold_left].
  - cbn. lia.
  - rewrite IH. destruct step as [[]|]; cbn; lia.
Qed.

(** C5: for every threshold N >= 1 and a counter that starts at 0 (the
    state after a refresh), the refresh predicate [downloads_since_refresh
    >= N] is true exactly when N successes or more have been recorded,
    whatever skipped and failed addresses lie in between; once true it
    stays true under every further recorded outcome; and when it is true
    the loop body, before it attempts the next trigger, restarts the
    session, which leaves the counter at 0 (the predicate is false again)
    and the tallies as they were. *)
Theorem session_refresh_counter (args : Args) (st : Loop) :
  1 <= session_refresh args ->
  (forall steps,
     downloads_since_refresh st = 0 ->
     (should_refresh args (record_all steps st) = true
      <-> session_refresh args <= successes steps))
  /\ (forall step,
       should_refresh args st = true ->
       should_refresh args (record st step) = true)
  /\ (forall fuel download_dir n idx link rs fname w1 existing w2 st1 rs1,
       should_refresh args st = true ->
       get_filename_from_url link (world rs) = (Ok fname, w1) ->
       check_file_exists download_dir link w1 = (Ok existing, w2) ->
       truthy existing = false ->
       restart_session args download_dir MsgRefreshing st
         (set_world (printed rs (MsgItem idx n (item_label fname link))) w2)
       = (Ok st1, rs1) ->
       downloads_since_refresh st1 = 0
       /\ should_refresh args st1 = false
       /\ same_counts st st1
       /\ process_link fuel args download_dir n idx link st rs
          = attempt fuel args download_dir n idx link st1 rs1).
Proof.
  intros HN. split; [|split].
  - intros steps H0. unfold should_refresh.
    rewrite record_all_counter, H0, Z.leb_le. lia.
  - intros step. unfold should_refresh. rewrite !Z.leb_le.
    destruct step as [[]|]; cbn; lia.
  - intros fuel download_dir n idx link rs fname w1 existing w2 st1 rs1
      Hdue Hname Hex Hfalse Hrestart.
    destruct (yields_restart_session _ _ _ _ _ _ _ Hrestart) as [Hsame H0].
    split; [exact H0|]. split.
    { unfold should_refresh. rewrite H0. apply Z.leb_gt. lia. }
    split; [exact Hsame|].
    rewrite (process_link_unskipped _ _ _ _ _ _ _ _ _ _ _ _ Hname Hex Hfalse).
    unfold refresh_if_due. rewrite Hdue. unfold_monad. rewrite Hrestart.
    reflexivity.
Qed.

(** C6: when the trigger of an address reports a dead session, the loop
    restarts the session and triggers that same address once more, with
    the new driver, and takes the result of this second trigger whatever it
    is (no third trigger). When the restart returns, the retry cannot count
    as a success: the address is recorded as failed, the other tallies are
    unchanged, and the loop body returns, so that the loop goes on with the
    next address. *)
Theorem trigger_retries_once (fuel : nat) (args : Args)
    (download_dir link : string) (st : Loop) (rs : @RunState W) (w1 : W) :
  click_download_button fuel (drv st) link download_dir (max_wait args)
    (world rs) = (Ok SESSION_EXPIRED, w1) ->
  trigger fuel args download_dir link st rs
  = (restart_session args download_dir MsgRestarting st
     ≫= fun st1 =>
          lift (click_download_button fuel (drv st1) link download_dir
                  (max_wait args))
          ≫= fun result => mret (st1, result)) (set_world rs w1)
  /\ (forall st1 rs2 result2 w3 n idx w4 rest,
       restart_session args download_dir MsgRestarting st (set_world rs w1)
       = (Ok st1, rs2) ->
       click_download_button fuel (drv st1) link download_dir (max_wait args)
         (world rs2) = (Ok result2, w3) ->
       (if (idx <? n)%nat then call (time_sleep (delay_between args))
        else mret tt) w3 = (Ok tt, w4) ->
       trigger fuel args download_dir link st rs
       = (Ok (st1, result2), set_world rs2 w3)
       /\ result2 <> RTrue
       /\ failed (record_result result2 st1) = failed st + 1
       /\ successful (record_result result2 st1) = successful st
       /\ skipped (record_result result2 st1) = skipped st
       /\ attempt fuel args download_dir n idx link st rs
          = (Ok (record_result result2 st1),
             set_world
               (printed (set_world rs2 w3)
                  (ProgressUpdate (successful st) (skipped st) (failed st + 1)))
               w4)
       /\ (forall st0 rs0,
             process_link fuel args download_dir n idx link st0 rs0
             = attempt fuel args download_dir n idx link st rs ->
             process_links fuel args download_dir n idx (link :: rest) st0 rs0
             = process_links fuel args download_dir n (S idx) rest
                 (record_result result2 st1)
                 (set_world
                    (printed (set_world rs2 w3)
                       (ProgressUpdate (successful st) (skipped st)
                          (failed st + 1)))
                    w4))).
Proof.
  intros Hfirst.
  assert (Htrig : trigger fuel args download_dir link st rs
    = (restart_session args download_dir MsgRestarting st
       ≫= fun st1 =>
            lift (click_download_button fuel (drv st1) link download_dir
                    (max_wait args))
            ≫= fun result => mret (st1, result)) (set_world rs w1)).
  { unfold trigger. unfold_monad_goal. rewrite lift_eq, Hfirst. reflexivity. }
  split; [exact Htrig|].
  intros st1 rs2 result2 w3 n idx w4 rest Hrestart Hsecond Hpause.
  assert (Htrig2 : trigger fuel args download_dir link st rs
                   = (Ok (st1, result2), set_world rs2 w3)).
  { rewrite Htrig. unfold_monad_goal. rewrite Hrestart, lift_eq, Hsecond.
    reflexivity. }
  destruct (yields_restart_session _ _ _ _ _ _ _ Hrestart)
    as [(Hs & Hf & Hk) _].
  assert (Hne : result2 <> RTrue)
    by exact (click_download_button_not_True _ _ _ _ _ _ _ _ Hsecond).
  assert (Hrec : failed (record_result result2 st1) = failed st + 1
                 /\ successful (record_result result2 st1) = successful st
                 /\ skipped (record_result result2 st1) = skipped st).
  { destruct result2; [congruence| |]; cbn; lia. }
  destruct Hrec as (Hf2 & Hs2 & Hk2).
  assert (Hatt : attempt fuel args download_dir n idx link st rs
    = (Ok (record_result result2 st1),
       set_world
         (printed (set_world rs2 w3)
            (ProgressUpdate (successful st) (skipped st) (failed st + 1)))
         w4)).
  { unfold attempt. unfold mbind, M_bind, bind. rewrite Htrig2.
    unfold progress_update, console_print. rewrite Hs2, Hk2, Hf2.
    destruct (idx <? n)%nat.
    - rewrite lift_eq. cbn [world set_world printed]. rewrite Hpause.
      reflexivity.
    - unfold mret, M_ret, ret in *. simplify_eq. reflexivity. }
  repeat split; auto.
  intros st0 rs0 Hlink. cbn [process_links]. unfold_monad_goal.
  rewrite Hlink, Hatt. reflexivity.
Qed.

End Loop.

(** ** Further properties of the script *)

(** ** Facts about text *)
Section Text.

Lemma append_cons (c : ascii) (s t : string) :
  String c s +:+ t = String c (s +:+ t).
Proof. reflexivity. Qed.

Lemma append_nil_l (s : string) : EmptyString +:+ s = s.
Proof. reflexivity. Qed.

Lemma append_nil_r (s : string) : s +:+ EmptyString = s.
Proof.
  induction s as [|c s IH]; [reflexivity|]. rewrite append_cons, IH.
  reflexivity.
Qed.

Lemma append_assoc (a b c : string) : (a +:+ b) +:+ c = a +:+ (b +:+ c).
Proof.
  induction a as [|x a IH]; [reflexivity|]. rewrite !append_cons, IH.
  reflexivity.
Qed.

Lemma rev_onto_rev_onto (s a b : string) :
  Str.rev_onto (Str.rev_onto s a) b = Str.rev_onto a (s +:+ b).
Proof.
  revert a b. induction s as [|c s IH]; intros a b; [reflexivity|].
  cbn [Str.rev_onto]. rewrite IH. reflexivity.
Qed.

Lemma rev_involutive (s : string) : Str.rev (Str.rev s) = s.
Proof. unfold Str.rev. rewrite rev_onto_rev_onto. apply append_nil_r. Qed.

Lemma rev_onto_append (x y acc : string) :
  Str.rev_onto (x +:+ y) acc = Str.rev_onto y (Str.rev_onto x acc).
Proof.
  revert acc. induction x as [|c x IH]; intros acc; [reflexivity|].
  rewrite append_cons. cbn [Str.rev_onto]. apply IH.
Qed.

Lemma rev_onto_acc (s acc : string) :
  Str.rev_onto s acc = Str.rev s +:+ acc.
Proof.
  unfold Str.rev. revert acc. induction s as [|c s IH]; intros acc;
    [reflexivity|].
  cbn [Str.rev_onto]. rewrite IH, (IH (String c EmptyString)), append_assoc.
  reflexivity.
Qed.

Lemma rev_cons (c : ascii) (s : string) :
  Str.rev (String c s) = Str.rev s +:+ String c EmptyString.
Proof. unfold Str.rev at 1. cbn. apply rev_onto_acc. Qed.

Lemma rev_snoc (x : string) (c : ascii) :
  Str.rev (x +:+ String c EmptyString) = String c (Str.rev x).
Proof. unfold Str.rev. rewrite rev_onto_append. reflexivity. Qed.

Lemma lstrip_with_length (p : ascii -> bool) (s : string) :
  (String.length (Str.lstrip_with p s) <= String.length s)%nat.
Proof.
  induction s as [|c s IH]; cbn; [lia|]. destruct (p c); cbn; lia.
Qed.

Lemma lstrip_with_fixed (p : ascii -> bool) (c : ascii) (s : string) :
  Str.lstrip_with p (String c s) = String c s -> p c = false.
Proof.
  cbn. destruct (p c); [|reflexivity]. intros E.
  pose proof (lstrip_with_length p s) as Hl. rewrite E in Hl. cbn in Hl. lia.
Qed.

Lemma lstrip_with_idem (p : ascii -> bool) (s : string) :
  Str.lstrip_with p (Str.lstrip_with p s) = Str.lstrip_with p s.
Proof.
  induction s as [|c s IH]; cbn; [reflexivity|].
  destruct (p c) eqn:E; [exact IH|]. cbn. rewrite E. reflexivity.
Qed.

Lemma lstrip_with_snoc (p : ascii -> bool) (x : string) (c : ascii) :
  p c = false ->
  Str.lstrip_with p (x +:+ String c EmptyString)
  = Str.lstrip_with p x +:+ String c EmptyString.
Proof.
  intros Hc. induction x as [|d x IH].
  - rewrite append_nil_l. cbn. rewrite Hc. reflexivity.
  - rewrite append_cons. cbn [Str.lstrip_with].
    destruct (p d); [exact IH|reflexivity].
Qed.

(** [strip] leaves nothing to strip. *)
Lemma strip_with_idem (p : ascii -> bool) (s : string) :
  Str.strip_with p (Str.strip_with p s) = Str.strip_with p s.
Proof.
  unfold Str.strip_with, Str.rstrip_with.
  set (a := Str.lstrip_with p s).
  assert (Ha : Str.lstrip_with p a = a) by apply lstrip_with_idem.
  assert (Hl : Str.lstrip_with p (Str.rev (Str.lstrip_with p (Str.rev a)))
               = Str.rev (Str.lstrip_with p (Str.rev a))).
  { destruct a as [|c r]; [reflexivity|].
    pose proof (lstrip_with_fixed _ _ _ Ha) as Hc.
    rewrite rev_cons, lstrip_with_snoc, rev_snoc by exact Hc.
    cbn. rewrite Hc. reflexivity. }
  rewrite Hl, rev_involutive, lstrip_with_idem. reflexivity.
Qed.

Lemma eqc_eq (a b : ascii) : Str.eqc a b = true <-> a = b.
Proof. apply Ascii.eqb_eq. Qed.

Lemma startswith_append (n h : string) :
  Str.startswith n h = true <-> exists q, h = n +:+ q.
Proof.
  revert h. induction n as [|a n IH]; intros h; cbn.
  - split; [eauto|reflexivity].
  - destruct h as [|b h].
    + split; [discriminate|]. intros [q Hq]. discriminate.
    + rewrite andb_true_iff, eqc_eq, IH. split.
      * intros [-> [q ->]]. eauto.
      * intros [q Hq]. injection Hq as -> ->. eauto.
Qed.

Lemma contains_append (n h : string) :
  Str.contains n h = true <-> exists p q, h = p +:+ (n +:+ q).
Proof.
  induction h as [|c h IH]; cbn [Str.contains]; rewrite orb_true_iff.
  - rewrite startswith_append. split.
    + intros [[q Hq]|?]; [|discriminate]. exists EmptyString, q. exact Hq.
    + intros (p & q & Hpq). left. destruct p; [eauto|discriminate].
  - rewrite startswith_append, IH. split.
    + intros [[q Hq]|(p & q & ->)].
      * exists EmptyString, q. exact Hq.
      * exists (String c p), q. reflexivity.
    + intros (p & q & Hpq). destruct p as [|d p].
      * left. eauto.
      * right. cbn in Hpq. injection Hpq as -> ->. eauto.
Qed.

(** A text that holds a larger needle holds each part of it. *)
Lemma contains_part (a n b h : string) :
  Str.contains (a +:+ (n +:+ b)) h = true -> Str.contains n h = true.
Proof.
  rewrite !contains_append. intros (p & q & ->).
  exists (p +:+ a), (b +:+ q). rewrite !append_assoc. reflexivity.
Qed.

Lemma rev_append (a b : string) :
  Str.rev (a +:+ b) = Str.rev b +:+ Str.rev a.
Proof. unfold Str.rev at 1. rewrite rev_onto_append. apply rev_onto_acc. Qed.


Lemma take_drop (n : nat) (s : string) : Str.take n s +:+ Str.drop n s = s.
Proof.
  revert s. induction n as [|n IH]; intros [|c s]; try reflexivity.
  cbn [Str.take Str.drop]. rewrite append_cons, IH. reflexivity.
Qed.

(** The two parts that [splitext] returns make up the path. *)
Lemma splitext_append (p root ext : string) :
  splitext p = (root, ext) -> root +:+ ext = p.
Proof.
  unfold splitext. repeat case_match; intros; simplify_eq;
    auto using append_nil_r, take_drop.
Qed.

Section Strip.
Variables (p1 : ascii -> bool) (p2 : ascii -> ascii -> bool)
  (p3 : ascii -> ascii -> ascii -> bool).

Lemma lstrip_seq_skip (s : string) :
  Str.lstrip_seq p1 p2 p3 s
  = match Str.skip_seq p1 p2 p3 s with
    | Some r => Str.lstrip_seq p1 p2 p3 r
    | None => s
    end.
Proof.
  destruct s as [|c1 r1]; [reflexivity|]. unfold Str.skip_seq.
  cbn [Str.lstrip_seq]. destruct (p1 c1); [reflexivity|].
  destruct r1 as [|c2 r2]; [reflexivity|].
  destruct (p2 c1 c2); [reflexivity|].
  destruct r2 as [|c3 r3]; [reflexivity|].
  destruct (p3 c1 c2 c3); reflexivity.
Qed.

Lemma skip_seq_split (s r : string) :
  Str.skip_seq p1 p2 p3 s = Some r ->
  exists x, s = x +:+ r /\ (String.length r < String.length s)%nat.
Proof.
  destruct s as [|c1 [|c2 [|c3 r3]]]; cbn; repeat case_match;
    intros; simplify_eq.
  all: first
    [ exists (String c1 EmptyString); split; [reflexivity|cbn; lia]
    | exists (String c1 (String c2 EmptyString)); split; [reflexivity|cbn; lia]
    | exists (String c1 (String c2 (String c3 EmptyString)));
      split; [reflexivity|cbn; lia] ].
Qed.

Lemma skip_seq_append (s r t : string) :
  Str.skip_seq p1 p2 p3 s = Some r ->
  Str.skip_seq p1 p2 p3 (s +:+ t) = Some (r +:+ t).
Proof.
  destruct s as [|c1 [|c2 [|c3 r3]]]; cbn - [String.append];
    rewrite ?append_cons, ?append_nil_l; cbn - [String.append];
    repeat case_match; intros; simplify_eq; try reflexivity.
Qed.

(** What [lstrip_seq] returns starts with nothing that it removes. *)
Lemma lstrip_seq_fixed (s : string) :
  Str.skip_seq p1 p2 p3 (Str.lstrip_seq p1 p2 p3 s) = None.
Proof.
  remember (String.length s) as n eqn:Hn. revert s Hn.
  induction n as [n IH] using lt_wf_ind. intros s ->.
  rewrite lstrip_seq_skip.
  destruct (Str.skip_seq p1 p2 p3 s) as [r|] eqn:E; [|exact E].
  destruct (skip_seq_split _ _ E) as (x & _ & Hlt). eapply IH; eauto.
Qed.

Lemma lstrip_seq_suffix (s : string) :
  exists u, s = u +:+ Str.lstrip_seq p1 p2 p3 s.
Proof.
  remember (String.length s) as n eqn:Hn. revert s Hn.
  induction n as [n IH] using lt_wf_ind. intros s ->.
  rewrite lstrip_seq_skip.
  destruct (Str.skip_seq p1 p2 p3 s) as [r|] eqn:E;
    [|exists EmptyString; reflexivity].
  destruct (skip_seq_split _ _ E) as (x & -> & Hlt).
  destruct (IH _ Hlt r eq_refl) as [u Hu].
  exists (x +:+ u). rewrite append_assoc, <- Hu. reflexivity.
Qed.

Lemma lstrip_seq_idem (s : string) :
  Str.lstrip_seq p1 p2 p3 (Str.lstrip_seq p1 p2 p3 s)
  = Str.lstrip_seq p1 p2 p3 s.
Proof.
  rewrite (lstrip_seq_skip (Str.lstrip_seq p1 p2 p3 s)), lstrip_seq_fixed.
  reflexivity.
Qed.

(** A text from which nothing is removed on the left keeps that property
    when its end is cut off. *)
Lemma lstrip_seq_prefix (a b : string) :
  Str.lstrip_seq p1 p2 p3 (a +:+ b) = a +:+ b ->
  Str.lstrip_seq p1 p2 p3 a = a.
Proof.
  intros Hab. rewrite lstrip_seq_skip.
  destruct (Str.skip_seq p1 p2 p3 a) as [r|] eqn:E; [|reflexivity].
  pose proof (lstrip_seq_fixed (a +:+ b)) as Hf. rewrite Hab in Hf.
  rewrite (skip_seq_append _ _ b E) in Hf. discriminate.
Qed.

End Strip.

(** [strip] leaves no white space to strip. *)
Lemma strip_idem (s : string) : Str.strip (Str.strip s) = Str.strip s.
Proof.
  unfold Str.strip, Str.rstrip, Str.lstrip.
  set (l := Str.lstrip_seq Str.is_space Str.is_space2 Str.is_space3).
  set (r := Str.lstrip_seq Str.is_space _ _).
  assert (Hl : l (Str.rev (r (Str.rev (l s)))) = Str.rev (r (Str.rev (l s)))).
  { destruct (lstrip_seq_suffix Str.is_space
                (fun c2 c1 => Str.is_space2 c1 c2)
                (fun c3 c2 c1 => Str.is_space3 c1 c2 c3) (Str.rev (l s)))
      as [u Hu]. fold r in Hu.
    apply (f_equal Str.rev) in Hu. rewrite rev_involutive, rev_append in Hu.
    apply (lstrip_seq_prefix _ _ _ _ (Str.rev u)). rewrite <- Hu.
    apply lstrip_seq_idem. }
  rewrite Hl, rev_involutive. unfold r. rewrite lstrip_seq_idem. reflexivity.
Qed.

End Text.

(** ** Facts about patterns *)
Section Patterns.

Lemma fullmatch_Void (s : string) : Re.fullmatch Re.Void s = false.
Proof. induction s; cbn; auto. Qed.






Lemma fullmatch_opt_empty (r : Re.regex) :
  Re.fullmatch (Re.opt r) EmptyString = true.
Proof. reflexivity. Qed.



End Patterns.

Section Inputs.
Context {W : Type} `{Env W}.

Lemma filter_sublist {A} (f : A -> bool) (l : list A) :
  sublist (List.filter f l) l.
Proof.
  induction l as [|a l IH]; cbn; [constructor|].
  destruct (f a); [apply sublist_skip | apply sublist_cons]; exact IH.
Qed.

Lemma dedupe_In (links : list string) (l : string) :
  In l (dedupe links) <-> In l links.
Proof.
  induction links as [|x links IH]; cbn [dedupe In]; [tauto|].
  rewrite List.filter_In, IH, negb_true_iff, String.eqb_neq.
  destruct (String.eqb_spec x l); [tauto|]. split; [tauto|].
  intros [?|?]; [tauto|]. right. split; [assumption|congruence].
Qed.

Lemma dedupe_NoDup (links : list string) : List.NoDup (dedupe links).
Proof.
  induction links as [|x links IH]; cbn [dedupe]; constructor.
  - rewrite List.filter_In, negb_true_iff, String.eqb_neq. tauto.
  - apply List.NoDup_filter. exact IH.
Qed.

Lemma dedupe_sublist (links : list string) : sublist (dedupe links) links.
Proof.
  induction links as [|x links IH]; cbn [dedupe]; [constructor|].
  apply sublist_skip. etransitivity; [apply filter_sublist|exact IH].
Qed.

Lemma filter_all {A} (f : A -> bool) (l : list A) :
  (forall x, In x l -> f x = true) -> List.filter f l = l.
Proof.
  induction l as [|a l IH]; cbn; [reflexivity|]. intros Hall.
  rewrite (Hall a) by auto. rewrite IH by auto. reflexivity.
Qed.

Lemma dedupe_fixed (links : list string) :
  List.NoDup links -> dedupe links = links.
Proof.
  induction 1 as [|x links Hx _ IH]; cbn [dedupe]; [reflexivity|].
  rewrite IH. f_equal. apply filter_all. intros y Hy.
  rewrite negb_true_iff, String.eqb_neq. intros ->. exact (Hx Hy).
Qed.

(** X1: [list(dict.fromkeys(links))] keeps every link once, in the order of
    the first occurrences: the result has no duplicates, holds exactly the
    links of the input, is a subsequence of it, starts with its first link,
    and a list without duplicates is left as it is. *)
Theorem dedupe_first_occurrences (links : list string) :
  List.NoDup (dedupe links)
  /\ (forall l, In l (dedupe links) <-> In l links)
  /\ sublist (dedupe links) links
  /\ List.hd_error (dedupe links) = List.hd_error links
  /\ dedupe (dedupe links) = dedupe links.
Proof.
  split; [apply dedupe_NoDup|]. split; [apply dedupe_In|].
  split; [apply dedupe_sublist|]. split; [destruct links; reflexivity|].
  apply dedupe_fixed, dedupe_NoDup.
Qed.

Lemma collect_links_cases (args : Args) (links : list string) :
  collect_links args links = dedupe links
  \/ (filter_downloads args = true
      /\ collect_links args links = List.filter likely_download (dedupe links)
      /\ collect_links args links <> []).
Proof.
  unfold collect_links. destruct (filter_downloads args); [|left; reflexivity].
  fold likely_download.
  destruct (List.filter likely_download (dedupe links)) eqn:E;
    [left; reflexivity|].
  right. repeat split. discriminate.
Qed.

(** X2: The candidate links of a run: the filter of [--filter-downloads] never
    leaves a run without links that had some. The candidates are empty only if
    there was no link at all; they have no duplicates, and they are links of
    the input, in the order of their first occurrences. *)
Theorem collect_links_keeps_some (args : Args) (links : list string) :
  (collect_links args links = [] <-> links = [])
  /\ List.NoDup (collect_links args links)
  /\ sublist (collect_links args links) links.
Proof.
  destruct (collect_links_cases args links) as [->|(_ & E & Hne)].
  - split; [|split; [apply dedupe_NoDup|apply dedupe_sublist]].
    destruct links; cbn [dedupe]; split; congruence.
  - split; [|split].
    + split; [contradiction|]. intros ->. rewrite E in Hne. contradiction.
    + rewrite E. apply List.NoDup_filter, dedupe_NoDup.
    + rewrite E. etransitivity; [apply filter_sublist|apply dedupe_sublist].
Qed.

(** X3: With [--filter-downloads], when at least one link looks like a
    download page (its lower-case text holds one of the five hints), the
    candidates are exactly the links that do; when no link does, or without
    the option, every link is a candidate. *)
Theorem collect_links_filter (args : Args) (links : list string) :
  (filter_downloads args = true ->
   (exists l, In l links /\ likely_download l = true) ->
   forall l, In l (collect_links args links)
             <-> In l links /\ likely_download l = true)
  /\ (filter_downloads args = false
      \/ (forall l, In l links -> likely_download l = false) ->
      collect_links args links = dedupe links).
Proof.
  split.
  - intros Hf (l0 & Hin0 & Hl0) l. unfold collect_links. rewrite Hf.
    fold likely_download.
    destruct (List.filter likely_download (dedupe links)) eqn:E.
    + exfalso. assert (Hin : In l0 (List.filter likely_download (dedupe links))).
      { apply List.filter_In. rewrite dedupe_In. auto. }
      rewrite E in Hin. exact Hin.
    + rewrite <- E, List.filter_In, dedupe_In. reflexivity.
  - intros Hno. unfold collect_links.
    destruct (filter_downloads args) eqn:Hf; [|reflexivity].
    destruct Hno as [?|Hno]; [discriminate|]. fold likely_download.
    destruct (List.filter likely_download (dedupe links)) as [|l0 r] eqn:E;
      [reflexivity|].
    assert (Hin : In l0 (List.filter likely_download (dedupe links)))
      by (rewrite E; left; reflexivity).
    apply List.filter_In in Hin as [Hin Hl]. rewrite dedupe_In in Hin.
    rewrite (Hno _ Hin) in Hl. discriminate.
Qed.

(** The loop over the lines is a filter of the stripped lines. *)
Lemma keep_lines_filter (lines urls : list string) :
  List.fold_left keep_line lines urls
  = List.app urls
      (List.filter
         (fun u => negb (Str.is_empty u) && negb (Str.startswith "#" u))
         (List.map Str.strip lines)).
Proof.
  revert urls. induction lines as [|line lines IH]; intros urls;
    cbn [List.fold_left List.map List.filter].
  - symmetry. apply List.app_nil_r.
  - rewrite IH. unfold keep_line.
    destruct (negb (Str.is_empty (Str.strip line))
              && negb (Str.startswith "#" (Str.strip line)));
      [rewrite <- List.app_assoc|]; reflexivity.
Qed.

Lemma read_urls_from_txt_eq (file_path : string) (w : W) :
  read_urls_from_txt file_path w
  = (match snd (fst (read_lines file_path w)) with
     | Some KeyboardInterrupt => Raise KeyboardInterrupt
     | _ =>
         Ok (List.filter
               (fun u => negb (Str.is_empty u) && negb (Str.startswith "#" u))
               (List.map Str.strip (fst (fst (read_lines file_path w)))))
     end, snd (read_lines file_path w)).
Proof.
  unfold read_urls_from_txt.
  destruct (read_lines file_path w) as [[lines ending] w1].
  rewrite keep_lines_filter. cbn [fst snd List.app].
  destruct ending as [[|msg]|]; reflexivity.
Qed.

(** X4: Every address that [read_urls_from_txt] returns, also when an error
    ended the reading in the middle of the file, is one of the lines that were
    read, with its surrounding white space removed: it is not empty, it does
    not start with [#], and it has no white space left at either end. *)
Theorem read_urls_from_txt_clean (file_path : string) (w w' : W)
    (urls : list string) :
  read_urls_from_txt file_path w = (Ok urls, w') ->
  forall u, In u urls ->
    u <> EmptyString /\ Str.startswith "#" u = false /\ Str.strip u = u
    /\ exists line,
         In line (fst (fst (read_lines file_path w))) /\ u = Str.strip line.
Proof.
  rewrite read_urls_from_txt_eq. intros Hr u Hu.
  assert (Hin : In u (List.filter
                        (fun u => negb (Str.is_empty u)
                                  && negb (Str.startswith "#" u))
                        (List.map Str.strip
                           (fst (fst (read_lines file_path w)))))).
  { destruct (snd (fst (read_lines file_path w))) as [[|msg]|];
      simplify_eq; exact Hu. }
  apply List.filter_In in Hin as [Hin Hk].
  apply andb_true_iff in Hk as [Hne Hsharp].
  apply negb_true_iff in Hne, Hsharp.
  apply List.in_map_iff in Hin as (line & <- & Hline).
  split; [|split; [exact Hsharp|split; [apply strip_idem|eauto]]].
  intros E. rewrite E in Hne. discriminate.
Qed.

(** X5: [read_urls_from_txt] raises no [Exception] and always returns, the
    user's interrupt apart. Whether the reading comes to the end of the file
    or an error ends it (the file cannot be opened: no line was read; a line
    cannot be decoded: the lines before it were), the result is made of the
    lines read, stripped, without the empty ones and the comments, in the
    order of the file and as often as they occur. *)
Theorem read_urls_from_txt_total (file_path : string) (w : W) :
  (forall msg, fst (read_urls_from_txt file_path w) <> Raise (Exception msg))
  /\ fst (read_urls_from_txt file_path w) <> Diverge
  /\ (forall lines ending w',
        read_lines file_path w = (lines, ending, w') ->
        ending <> Some KeyboardInterrupt ->
        read_urls_from_txt file_path w
        = (Ok (List.filter
                 (fun u => negb (Str.is_empty u)
                           && negb (Str.startswith "#" u))
                 (List.map Str.strip lines)), w'))
  /\ (forall lines w',
        read_lines file_path w = (lines, Some KeyboardInterrupt, w') ->
        read_urls_from_txt file_path w = (Raise KeyboardInterrupt, w')).
Proof.
  rewrite read_urls_from_txt_eq.
  destruct (read_lines file_path w) as [[lines ending] w1].
  cbn [fst snd]. split; [|split; [|split]].
  - intros msg. destruct ending as [[|?]|]; discriminate.
  - destruct ending as [[|?]|]; discriminate.
  - intros lines' ending' w' E Hne. simplify_eq.
    destruct ending' as [[|?]|]; [contradiction|reflexivity..].
  - intros lines' w' E. simplify_eq. reflexivity.
Qed.

End Inputs.

Section Names.
Context {W : Type} `{Env W}.

Lemma rule1_path_dot (path c : string) :
  rule1_path path = Some c -> Str.contains "." c = true.
Proof.
  unfold rule1_path. repeat case_match; intros; simplify_eq.
  repeat match goal with
         | Hb : _ && _ = true |- _ => apply andb_true_iff in Hb as [? ?]
         end.
  assumption.
Qed.

Lemma rule2_keys_dot (qs : gmap string (list string)) (keys : list string)
    (c : string) :
  rule2_keys qs keys = Some c -> Str.contains "." c = true.
Proof.
  induction keys as [|key keys IH]; cbn [rule2_keys]; [discriminate|].
  repeat case_match; intros; simplify_eq; auto.
  match goal with
  | Hb : _ && _ = true |- _ => apply andb_true_iff in Hb as [? ?]
  end.
  assumption.
Qed.

Lemma rule3_fragment_dot (frag c : string) :
  rule3_fragment frag = Some c -> Str.contains "." c = true.
Proof.
  unfold rule3_fragment. repeat case_match; intros; simplify_eq.
  repeat match goal with
         | Hb : _ && _ = true |- _ => apply andb_true_iff in Hb as [? ?]
         end.
  assumption.
Qed.

Lemma rule4_header_dot (cd : option string) (c : string) :
  rule4_header cd = Some c -> Str.contains "." c = true.
Proof.
  unfold rule4_header, header_star, header_plain.
  repeat case_match; intros; simplify_eq; assumption.
Qed.

Lemma get_filename_from_url_dot (url : string) (w w' : W) (name : string) :
  get_filename_from_url url w = (Ok (Some name), w') ->
  Str.contains "." name = true.
Proof.
  unfold get_filename_from_url.
  destruct (Str.is_empty url); [unfold_monad; discriminate|].
  unfold_monad.
  destruct (urllib.urlparse (Str.strip url)) as [p|[|msg]]; [|discriminate..].
  destruct (rule1_path (urllib.path p)) eqn:E1;
    [intros; simplify_eq; eapply rule1_path_dot; eauto|].
  destruct (rule2_query (urllib.query p)) eqn:E2;
    [intros; simplify_eq; eapply rule2_keys_dot; eauto|].
  destruct (rule3_fragment (urllib.fragment p)) eqn:E3;
    [intros; simplify_eq; eapply rule3_fragment_dot; eauto|].
  destruct (requests_head (Str.strip url) w) as [[cd|[|msg]] w1];
    intros; simplify_eq.
  eapply rule4_header_dot; eauto.
Qed.

(** X6: Whatever rule finds it, a name that the resolver returns holds a dot
    (so it is not empty): the four rules all refuse a candidate without one.
    *)
Theorem get_filename_from_url_has_dot (url : string) (w w' : W)
    (name : string) :
  get_filename_from_url url w = (Ok (Some name), w') ->
  Str.contains "." name = true /\ name <> EmptyString.
Proof.
  intros Hn. pose proof (get_filename_from_url_dot _ _ _ _ Hn) as Hdot.
  split; [exact Hdot|]. intros ->. discriminate Hdot.
Qed.


Lemma strip_empty_inv (url : string) :
  Str.strip url <> EmptyString -> Str.is_empty url = false.
Proof. destruct url; [intros Hn; contradiction Hn; reflexivity|reflexivity]. Qed.

Lemma urlparse_empty :
  urllib.urlparse EmptyString
  = Val {| urllib.scheme := EmptyString; urllib.netloc := EmptyString;
           urllib.path := EmptyString; urllib.params := EmptyString;
           urllib.query := EmptyString; urllib.fragment := EmptyString |}.
Proof.
  unfold urllib.urlparse. cbn. destruct (bool_decide _); reflexivity.
Qed.

Lemma rule2_query_empty : rule2_query EmptyString = None.
Proof.
  unfold rule2_query, urllib.parse_qs, urllib.parse_qsl, query_keys.
  cbn [Str.is_empty List.fold_left rule2_keys]. rewrite !lookup_empty.
  reflexivity.
Qed.

(** X24: White space around an address makes no difference to the resolver, as
    long as something is left of the address: the resolver answers for the
    trimmed address what it answers for the address. An address of white space
    alone, though, is not taken for the empty address: the resolver goes on to
    the HEAD request with it. *)
Theorem get_filename_from_url_trims (url : string) (w : W) :
  (Str.strip url <> EmptyString ->
   get_filename_from_url (Str.strip url) w = get_filename_from_url url w)
  /\ (url <> EmptyString -> Str.strip url = EmptyString ->
      get_filename_from_url url w
      = try_except
          (cd ← call (requests_head EmptyString); mret (rule4_header cd))
          (fun _ => mret None) w).
Proof.
  split.
  - intros Hne. unfold get_filename_from_url.
    rewrite (strip_empty_inv url Hne), strip_idem.
    destruct (Str.strip url); [contradiction|reflexivity].
  - intros Hne Hs. unfold get_filename_from_url.
    destruct url as [|c url]; [contradiction|]. cbn [Str.is_empty].
    rewrite Hs. unfold_monad. rewrite urlparse_empty.
    cbn [urllib.path urllib.query urllib.fragment]. rewrite rule2_query_empty.
    unfold rule1_path, rule3_fragment. cbn [Str.is_empty negb andb].
    destruct (requests_head EmptyString w) as [[cd|[|msg]] w1]; reflexivity.
Qed.









End Names.

Section Waiting.
Context {W : Type} `{Env W}.

Lemma endswith_crdownload (f : string) :
  Str.endswith ".crdownload" f = true ->
  Str.endswith ".part" f = false /\ Str.endswith ".tmp" f = false.
Proof.
  unfold Str.endswith. destruct (Str.rev f) as [|c r]; [discriminate|].
  change (Str.rev ".crdownload") with "daolnwodrc.".
  change (Str.rev ".part") with "trap.".
  change (Str.rev ".tmp") with "pmt.".
  cbn [Str.startswith]. unfold Str.eqc.
  destruct (Ascii.eqb_spec "d" c) as [<-|]; [|discriminate].
  intros _. split; reflexivity.
Qed.

(** X10: [get_incomplete_files] raises no [Exception] and returns the empty
    list when the directory cannot be listed. The names it returns are entries
    of the directory, in the order of the listing, that the watcher too takes
    for temporary; but a name that ends in .crdownload, the suffix of a
    download in progress in Chrome, is never among them. *)
Theorem get_incomplete_files_partial (download_dir : string) (w : W) :
  (exists w',
     (exists files, get_incomplete_files download_dir w = (Ok files, w'))
     \/ get_incomplete_files download_dir w = (Raise KeyboardInterrupt, w'))
  /\ (forall msg w',
        os_listdir download_dir w = (Err (Exception msg), w') ->
        get_incomplete_files download_dir w = (Ok [], w'))
  /\ (forall files w',
        get_incomplete_files download_dir w = (Ok files, w') ->
        (forall names, os_listdir download_dir w = (Val names, w') ->
                       sublist files names)
        /\ forall f, In f files ->
             is_temp f = true /\ Str.endswith ".crdownload" f = false).
Proof.
  unfold get_incomplete_files. unfold_monad.
  destruct (os_listdir download_dir w) as [[names|[|msg]] w1] eqn:Hls.
  - split; [eauto|]. split; [discriminate|]. intros files w' E.
    simplify_eq. split.
    + intros names' E. simplify_eq. apply filter_sublist.
    + intros f Hf. apply List.filter_In in Hf as [_ Hf]. unfold is_temp.
      split.
      * apply orb_true_iff in Hf as [->| ->]; rewrite ?orb_true_r; reflexivity.
      * destruct (Str.endswith ".crdownload" f) eqn:Hc; [|reflexivity].
        destruct (endswith_crdownload _ Hc) as [Hp Ht].
        rewrite Hp, Ht in Hf. discriminate.
  - split; [eauto|]. split; [discriminate|]. intros; simplify_eq.
  - split; [eauto|]. split; [intros; simplify_eq; reflexivity|].
    intros files w' E. simplify_eq. split; [discriminate|]. intros f [].
Qed.

(** *** The watcher gives up only at its deadline *)

Lemma truthy_None (o : option string) : truthy o = true -> o <> None.
Proof. destruct o; [discriminate|discriminate]. Qed.

Lemma poll_None (fuel : nat) (download_dir : string)
    (before_files : gset string) (target_url : option string)
    (start timeout : Z) (k : nat) (w w' : W) :
  poll fuel download_dir before_files target_url start timeout k w
  = (Ok None, w') ->
  exists w1 now,
    time_time w1 = (Val now, w') /\ timeout * 1000 <= now - start.
Proof.
  revert w. induction fuel as [|fuel IH]; intros w Hp.
  - cbn in Hp. discriminate.
  - cbn [poll] in Hp. unfold_monad.
    destruct (time_time w) as [[now|e] w1] eqn:Ht; [|discriminate].
    destruct (now - start <? timeout * 1000) eqn:Hlt; cbn [negb] in Hp.
    2:{ simplify_eq. apply Z.ltb_ge in Hlt. eauto. }
    destruct (os_listdir download_dir w1) as [[names|[|msg]] w2];
      [| discriminate |].
    all: match type of Hp with
         | context [elements ?s] => set (new_files := elements s) in *
         end.
    all: destruct (List.filter is_temp new_files);
      [| destruct (time_sleep 1500 w2) as [[[]|e] w3]; [eauto|discriminate] ].
    all: destruct (scan_new_files download_dir new_files k w2)
           as [[[f|]| |] w3]; [discriminate| |discriminate..].
    all: destruct (recheck download_dir target_url w3) as [[ex| |] w4];
      [| discriminate..].
    all: destruct (truthy ex) eqn:Hex;
      [ exfalso; simplify_eq
      | destruct (time_sleep 1000 w4) as [[[]|e] w5]; [eauto|discriminate] ].
Qed.

(** X11: When the watcher answers [None], it has just read the time, and
    [timeout] seconds or more had passed since the reading it started with: it
    gives up at its deadline and for no other reason. *)
Theorem wait_for_download_complete_gives_up (fuel : nat)
    (download_dir : string) (before_files : gset string)
    (target_url : option string) (timeout stable_checks : Z) (w w' : W) :
  wait_for_download_complete fuel download_dir before_files target_url
    timeout stable_checks w = (Ok None, w') ->
  exists start w0 now w1,
    time_time w = (Val start, w0)
    /\ time_time w1 = (Val now, w')
    /\ timeout * 1000 <= now - start.
Proof.
  unfold wait_for_download_complete. unfold_monad. intros Hw.
  destruct (time_time w) as [[start|e] w0] eqn:Ht; [|discriminate].
  destruct (recheck download_dir target_url w0) as [[ex| |] w2];
    [|discriminate..].
  destruct (truthy ex) eqn:Hex.
  - exfalso. simplify_eq.
  - destruct (poll_None _ _ _ _ _ _ _ _ _ Hw) as (w1 & now & Hnow & Hle).
    eauto 10.
Qed.


(** *** The watcher returns *)

Lemma onward_ret {A} (clock : W -> Z) (a : A) : onward clock (mret a).
Proof. intros w r w' E. unfold_monad. simplify_eq. lia. Qed.

Lemma onward_bind {A B} (clock : W -> Z) (m : M W A) (k : A -> M W B) :
  onward clock m -> (forall a, onward clock (k a)) -> onward clock (m ≫= k).
Proof.
  intros Hm Hk w r w' E. unfold_monad.
  destruct (m w) as [[a|e|] w1] eqn:Hmw.
  - pose proof (Hm _ _ _ Hmw). pose proof (Hk _ _ _ _ E). lia.
  - simplify_eq. eapply Hm; eauto.
  - simplify_eq. eapply Hm; eauto.
Qed.

Lemma onward_try_except {A} (clock : W -> Z) (m : M W A)
    (h : string -> M W A) :
  onward clock m -> (forall msg, onward clock (h msg)) ->
  onward clock (try_except m h).
Proof.
  intros Hm Hh w r w' E. unfold try_except in E.
  destruct (m w) as [[a|[|msg]|] w1] eqn:Hmw; simplify_eq;
    try (eapply Hm; eauto; fail).
  pose proof (Hm _ _ _ Hmw). pose proof (Hh _ _ _ _ E). lia.
Qed.

Lemma onward_call {A} (clock : W -> Z) (p : Prim W A) :
  forward clock p -> onward clock (call p).
Proof.
  intros Hp w r w' E. unfold call in E.
  destruct (p w) as [[a|e] w1] eqn:Hpw; simplify_eq; eapply Hp; eauto.
Qed.

Lemma onward_lift_pure {A} (clock : W -> Z) (r : result A) :
  onward clock (lift_pure r).
Proof. intros w r' w' E. unfold lift_pure in E. simplify_eq. lia. Qed.

Lemma call_Ok {A} (p : Prim W A) (w : W) (a : A) (w' : W) :
  call p w = (Ok a, w') -> p w = (Val a, w').
Proof.
  unfold call. destruct (p w) as [[b|e] w1]; intros E; simplify_eq.
  reflexivity.
Qed.

End Waiting.

Ltac onward_step :=
  first
    [ apply onward_ret
    | apply onward_lift_pure
    | apply onward_bind; [|intros ?]
    | apply onward_try_except; [|intros ?]
    | match goal with
      | |- onward _ (if ?b then _ else _) => destruct b
      | |- onward _ (match ?x with _ => _ end) => destruct x
      | |- onward _ (let _ := _ in _) => cbv zeta
      end ].


(** *** What halts *)

Lemma halts_ret {S A} (a : A) : halts (S:=S) (mret a).
Proof. intros s. discriminate. Qed.

Lemma bind_halts_at {S A B} (m : M S A) (k : A -> M S B) (s : S) :
  fst (m s) <> Diverge ->
  (forall a s1, m s = (Ok a, s1) -> fst (k a s1) <> Diverge) ->
  fst ((m ≫= k) s) <> Diverge.
Proof.
  intros Hm Hk. unfold mbind, M_bind, bind.
  destruct (m s) as [[a|e|] s1]; [eauto|discriminate|contradiction].
Qed.

Lemma halts_bind {S A B} (m : M S A) (k : A -> M S B) :
  halts m -> (forall a, halts (k a)) -> halts (m ≫= k).
Proof. intros Hm Hk s. apply bind_halts_at; [apply Hm|intros; apply Hk]. Qed.

Lemma halts_try_except {S A} (m : M S A) (h : string -> M S A) :
  halts m -> (forall msg, halts (h msg)) -> halts (try_except m h).
Proof.
  intros Hm Hh s. unfold try_except. specialize (Hm s).
  destruct (m s) as [[a|[|msg]|] s1]; try discriminate; [apply Hh|contradiction].
Qed.

Lemma halts_call {W A} (p : Prim W A) : halts (call p).
Proof. intros w. unfold call. destruct (p w) as [[a|e] w1]; discriminate. Qed.

Lemma halts_lift_pure {W A} (r : result A) : halts (S:=W) (lift_pure r).
Proof. intros w. unfold lift_pure. destruct r; discriminate. Qed.

Ltac halts_step :=
  first
    [ apply halts_ret
    | apply halts_call
    | apply halts_lift_pure
    | apply halts_bind; [|intros ?]
    | apply halts_try_except; [|intros ?]
    | match goal with
      | |- halts (if ?b then _ else _) => destruct b
      | |- halts (match ?x with _ => _ end) => destruct x
      | |- halts (let _ := _ in _) => cbv zeta
      | |- halts (let '(_, _) := ?x in _) => destruct x
      end ].

Section Returning.
Context {W : Type} `{Env W}.

Lemma halts_get_filename_from_url (url : string) :
  halts (get_filename_from_url url).
Proof. unfold get_filename_from_url. repeat halts_step. Qed.

Lemma halts_check_file_exists (download_dir url : string) :
  halts (check_file_exists download_dir url).
Proof.
  unfold check_file_exists.
  apply halts_try_except; [|intros ?; apply halts_ret].
  apply halts_bind; [apply halts_get_filename_from_url|intros hint].
  destruct hint as [hint|]; [|apply halts_ret].
  destruct (Str.is_empty hint); [apply halts_ret|].
  destruct (splitext (Str.strip hint)) as [base ext].
  repeat halts_step.
Qed.

Lemma halts_recheck (download_dir : string) (target_url : option string) :
  halts (recheck download_dir target_url).
Proof.
  unfold recheck. destruct (truthy target_url); [|apply halts_ret].
  destruct target_url; [apply halts_check_file_exists|apply halts_ret].
Qed.

Lemma halts_size_stable (fp : string) (size : Z) (n : nat) :
  halts (size_stable fp size n).
Proof.
  induction n as [|n IH]; cbn [size_stable]; [apply halts_ret|].
  repeat first [ exact IH | halts_step ].
Qed.

Lemma halts_scan_new_files (download_dir : string) (l : list string)
    (k : nat) :
  halts (scan_new_files download_dir l k).
Proof.
  induction l as [|fn l IH]; cbn [scan_new_files]; [apply halts_ret|].
  repeat first [ exact IH | apply halts_size_stable | halts_step ].
Qed.

Section Ticking.
Variable clock : W -> Z.
Hypothesis Hticking : ticking clock.

Lemma onward_get_filename_from_url (url : string) :
  onward clock (get_filename_from_url url).
Proof.
  destruct Hticking as (_ & _ & _ & _ & _ & _ & Hhead).
  unfold get_filename_from_url.
  repeat first [ apply onward_call, Hhead | onward_step ].
Qed.

Lemma onward_check_file_exists (download_dir url : string) :
  onward clock (check_file_exists download_dir url).
Proof.
  destruct Hticking as (_ & _ & _ & Hls & _ & _ & _).
  unfold check_file_exists.
  apply onward_try_except; [|intros ?; apply onward_ret].
  apply onward_bind; [apply onward_get_filename_from_url|intros hint].
  destruct hint as [hint|]; [|apply onward_ret].
  destruct (Str.is_empty hint); [apply onward_ret|].
  destruct (splitext (Str.strip hint)) as [base ext].
  repeat first [ apply onward_call, Hls | onward_step ].
Qed.

Lemma onward_recheck (download_dir : string) (target_url : option string) :
  onward clock (recheck download_dir target_url).
Proof.
  unfold recheck.
  destruct (truthy target_url); [|apply onward_ret].
  destruct target_url; [apply onward_check_file_exists|apply onward_ret].
Qed.

Lemma onward_size_stable (fp : string) (size : Z) (n : nat) :
  onward clock (size_stable fp size n).
Proof.
  destruct Hticking as (_ & _ & Hsl & _ & _ & Hsz & _).
  induction n as [|n IH]; cbn [size_stable]; [apply onward_ret|].
  apply onward_bind; [apply onward_call, Hsl; lia|intros _].
  apply onward_bind;
    [apply onward_try_except;
       [apply onward_call, Hsz|intros ?; apply onward_ret]|intros new_size].
  destruct (negb (new_size =? size)); [apply onward_ret|exact IH].
Qed.

Lemma onward_scan_new_files (download_dir : string) (l : list string)
    (k : nat) :
  onward clock (scan_new_files download_dir l k).
Proof.
  destruct Hticking as (_ & _ & _ & _ & Hex & Hsz & _).
  induction l as [|fn l IH]; cbn [scan_new_files]; [apply onward_ret|].
  apply onward_bind; [apply onward_call, Hex|intros e].
  destruct (negb e); [exact IH|].
  apply onward_bind; [apply onward_call, Hsz|intros size].
  apply onward_bind; [apply onward_size_stable|intros stable].
  destruct stable; [apply onward_ret|exact IH].
Qed.

Lemma poll_halts (fuel : nat) (download_dir : string)
    (before_files : gset string) (target_url : option string)
    (start timeout : Z) (k : nat) :
  forall (n : nat) (w : W),
    start + timeout * 1000 - clock w <= 1000 * Z.of_nat n ->
    (n < fuel)%nat ->
    fst (poll fuel download_dir before_files target_url start timeout k w)
    <> Diverge.
Proof.
  destruct Hticking as (Htime & Hsleep & Hsl & Hls & Hex & Hsz & Hhead).
  induction fuel as [|fuel IH]; intros n w Hrem Hfuel; [lia|].
  cbn [poll].
  apply bind_halts_at; [apply halts_call|intros now w1 Ht].
  apply call_Ok, Htime in Ht.
  destruct (now - start <? timeout * 1000) eqn:Hlt; cbn [negb];
    [|discriminate].
  apply Z.ltb_lt in Hlt.
  apply bind_halts_at; [repeat halts_step|intros current w2 Hcur].
  assert (H12 : clock w1 <= clock w2).
  { revert Hcur. apply onward_try_except; [|intros ?; apply onward_ret].
    apply onward_bind; [apply onward_call, Hls|intros ?; apply onward_ret]. }
  cbv zeta.
  destruct (List.filter is_temp (elements (current ∖ before_files))).
  2:{ apply bind_halts_at; [apply halts_call|intros [] w3 Hs].
      apply call_Ok, Hsleep in Hs; [|lia].
      apply (IH (Nat.pred n)); lia. }
  apply bind_halts_at; [apply halts_scan_new_files|intros found w3 Hscan].
  pose proof (onward_scan_new_files _ _ _ _ _ _ Hscan) as H23.
  destruct found as [fn|]; [discriminate|].
  apply bind_halts_at; [apply halts_recheck|intros ex w4 Hre].
  pose proof (onward_recheck _ _ _ _ _ Hre) as H34.
  destruct (truthy ex); [discriminate|].
  apply bind_halts_at; [apply halts_call|intros [] w5 Hs].
  apply call_Ok, Hsleep in Hs; [|lia].
  apply (IH (Nat.pred n)); lia.
Qed.

Lemma wait_for_download_complete_halts (fuel : nat) (download_dir : string)
    (before_files : gset string) (target_url : option string)
    (timeout stable_checks : Z) :
  (Z.to_nat timeout < fuel)%nat ->
  halts (wait_for_download_complete fuel download_dir before_files target_url
           timeout stable_checks).
Proof.
  intros Hfuel w. unfold wait_for_download_complete.
  apply bind_halts_at; [apply halts_call|intros start w1 Ht].
  apply call_Ok in Ht. destruct Hticking as (Htime & _).
  apply Htime in Ht.
  apply bind_halts_at; [apply halts_recheck|intros ex w2 Hre].
  pose proof (onward_recheck _ _ _ _ _ Hre) as H12.
  destruct (truthy ex); [discriminate|].
  apply (poll_halts _ _ _ _ _ _ _ (Z.to_nat timeout)); lia.
Qed.

(** X12: The watcher returns. In a world whose clock [time.time()] reads and
    every pause advances, the polling loop cannot go on for ever: with a turn
    of the loop for each second of [timeout], and one more, the watcher
    returns or raises. And when it answers [None], [timeout] seconds at least
    have passed on the clock since the call. *)
Theorem wait_for_download_complete_returns (fuel : nat)
    (download_dir : string) (before_files : gset string)
    (target_url : option string) (timeout stable_checks : Z) (w : W) :
  (Z.to_nat timeout < fuel)%nat ->
  fst (wait_for_download_complete fuel download_dir before_files target_url
         timeout stable_checks w) <> Diverge
  /\ (forall w',
        wait_for_download_complete fuel download_dir before_files target_url
          timeout stable_checks w = (Ok None, w') ->
        clock w + timeout * 1000 <= clock w').
Proof.
  intros Hfuel. split; [apply wait_for_download_complete_halts; exact Hfuel|].
  intros w' Hw. destruct Hticking as (Htime & _).
  unfold wait_for_download_complete in Hw. unfold_monad.
  destruct (time_time w) as [[start|e] w0] eqn:Ht; [|discriminate].
  destruct (recheck download_dir target_url w0) as [[ex| |] w2];
    [|discriminate..].
  destruct (truthy ex) eqn:Hex; [exfalso; simplify_eq|].
  destruct (poll_None _ _ _ _ _ _ _ _ _ Hw) as (w1 & now & Hnow & Hle).
  apply Htime in Ht, Hnow. lia.
Qed.

Lemma halts_setup_driver (download_dir : string) (headless disable_images : bool) :
  halts (setup_driver download_dir headless disable_images).
Proof. unfold setup_driver. repeat halts_step. Qed.

Lemma halts_find_first_clickable (d : driver) (max_wait : Z)
    (sels : list selector) :
  halts (find_first_clickable d max_wait sels).
Proof.
  induction sels as [|sel sels IH]; cbn [find_first_clickable];
    [apply halts_ret|].
  repeat first [ exact IH | halts_step ].
Qed.

Lemma halts_remove_overlays (d : driver) (overlays : list element) :
  halts (remove_overlays d overlays).
Proof.
  induction overlays as [|o l IH]; cbn [remove_overlays]; [apply halts_ret|].
  repeat first [ exact IH | halts_step ].
Qed.

Lemma halts_click_download_button (fuel : nat) (d : driver)
    (page_url download_dir : string) (max_wait : Z) :
  (150 < fuel)%nat ->
  halts (click_download_button fuel d page_url download_dir max_wait).
Proof.
  intros Hfuel. unfold click_download_button, find_download_button.
  repeat first
    [ apply halts_find_first_clickable
    | apply halts_remove_overlays
    | apply wait_for_download_complete_halts; exact Hfuel
    | halts_step ].
Qed.

Lemma halts_lift {A} (m : M W A) : halts m -> halts (lift m).
Proof.
  intros Hm rs. rewrite lift_eq. cbn [fst]. apply Hm.
Qed.

Lemma halts_console_print (e : Event) : halts (console_print (W:=W) e).
Proof. intros rs. discriminate. Qed.

Lemma halts_assign_driver (d : option driver) : halts (assign_driver (W:=W) d).
Proof. intros rs. discriminate. Qed.

Lemma halts_read_driver : halts (read_driver (W:=W)).
Proof. intros rs. discriminate. Qed.

Ltac halts_run_step :=
  first
    [ apply halts_console_print
    | apply halts_assign_driver
    | apply halts_read_driver
    | apply halts_lift
    | halts_step ].

Lemma halts_restart_session (args : Args) (download_dir : string)
    (why : Event) (st : Loop) :
  halts (restart_session args download_dir why st).
Proof.
  unfold restart_session.
  repeat first [ apply halts_setup_driver | halts_run_step ].
Qed.

Lemma halts_process_link (fuel : nat) (args : Args) (download_dir : string)
    (n idx : nat) (link : string) (st : Loop) :
  (150 < fuel)%nat ->
  halts (process_link fuel args download_dir n idx link st).
Proof.
  intros Hfuel.
  unfold process_link, refresh_if_due, attempt, trigger, progress_update.
  repeat first
    [ apply halts_get_filename_from_url
    | apply halts_check_file_exists
    | apply halts_restart_session
    | apply halts_click_download_button; exact Hfuel
    | halts_run_step ].
Qed.

Lemma halts_process_links (fuel : nat) (args : Args) (download_dir : string)
    (n : nat) (links : list string) :
  (150 < fuel)%nat ->
  forall idx st, halts (process_links fuel args download_dir n idx links st).
Proof.
  intros Hfuel. induction links as [|link rest IH]; intros idx st;
    cbn [process_links]; [apply halts_ret|].
  apply halts_bind; [apply halts_process_link; exact Hfuel|intros ?; apply IH].
Qed.

Lemma halts_read_urls_from_txt (file_path : string) :
  halts (read_urls_from_txt file_path).
Proof.
  intros w. unfold read_urls_from_txt.
  destruct (read_lines file_path w) as [[lines [[|msg]|]] w1]; discriminate.
Qed.

Lemma halts_run_body (fuel : nat) (args : Args) (download_dir : string) :
  (150 < fuel)%nat -> halts (run_body fuel args download_dir).
Proof.
  intros Hfuel. unfold run_body.
  repeat first
    [ apply halts_setup_driver
    | apply halts_read_urls_from_txt
    | apply halts_process_links; exact Hfuel
    | halts_run_step ].
Qed.

Lemma halts_finalizer : halts (finalizer (W:=W)).
Proof. unfold finalizer. repeat halts_run_step. Qed.

(** X13: A run ends. In a world whose clock [time.time()] reads and every
    pause advances, [run] returns or raises: none of the watchers it starts
    (each with the timeout of 150 seconds) polls for ever. *)
Theorem run_returns (fuel : nat) (args : Args) (rs : @RunState W) :
  (150 < fuel)%nat ->
  fst (run fuel args rs) <> Diverge.
Proof.
  intros Hfuel. unfold run.
  apply bind_halts_at; [apply halts_lift, halts_call|intros [] rs1 _].
  apply bind_halts_at; [apply halts_assign_driver|intros [] rs2 _].
  unfold try_finally, handlers.
  pose proof (halts_run_body fuel args (output args) Hfuel rs2) as Hb.
  destruct (run_body fuel args (output args) rs2) as [[[]|[|msg]|] rs3];
    [| | |contradiction]; cbn [console_print];
    match goal with
    | |- context [finalizer ?st] =>
        pose proof (halts_finalizer st) as Hf;
        destruct (finalizer st) as [[[]|e|] rs4]
    end; try discriminate; contradiction.
Qed.

End Ticking.
End Returning.

Lemma calm_try_except {S A} (m : M S A) (h : string -> M S A) :
  (forall msg, calm (h msg)) -> calm (try_except m h).
Proof.
  intros Hh s r s' msg E. unfold try_except in E.
  destruct (m s) as [[a|[|msg1]|] s1]; simplify_eq; try discriminate.
  eapply Hh; eauto.
Qed.

Lemma calm_ret {S A} (a : A) : calm (S:=S) (mret a).
Proof. intros s r s' msg E. unfold_monad. simplify_eq. discriminate. Qed.

Section Browser.
Context {W : Type} `{Env W}.

(** X14: [setup_driver] fails exactly when the browser cannot be started, and
    with the error of the start; when the browser starts, the driver is
    returned whether or not the overlay cleaner could be installed. *)
Theorem setup_driver_start (download_dir : string)
    (headless disable_images : bool) (w : W) :
  (forall e w1,
     webdriver_Chrome download_dir headless disable_images w = (Err e, w1) ->
     setup_driver download_dir headless disable_images w = (Raise e, w1))
  /\ (forall d w1 r w2,
        webdriver_Chrome download_dir headless disable_images w = (Val d, w1) ->
        execute_cdp_cmd d w1 = (r, w2) ->
        r <> Err KeyboardInterrupt ->
        setup_driver download_dir headless disable_images w = (Ok d, w2)).
Proof.
  unfold setup_driver. unfold_monad. split.
  - intros e w1 ->. reflexivity.
  - intros d w1 r w2 -> -> Hr. destruct r as [[]|[|msg]]; [reflexivity| |reflexivity].
    contradiction.
Qed.

Lemma find_first_clickable_outcome (d : driver) (max_wait : Z)
    (sels : list selector) (w : W) :
  exists w',
    (exists o, find_first_clickable d max_wait sels w = (Ok o, w'))
    \/ find_first_clickable d max_wait sels w = (Raise KeyboardInterrupt, w').
Proof.
  revert w. induction sels as [|sel sels IH]; intros w;
    cbn [find_first_clickable]; [unfold_monad; eauto|].
  unfold_monad.
  destruct (wait_until_clickable d max_wait sel w) as [[el|[|msg]] w1];
    eauto.
Qed.

Lemma find_first_clickable_None (d : driver) (max_wait : Z)
    (sels : list selector) (w w' : W) :
  find_first_clickable d max_wait sels w = (Ok None, w')
  <-> misses d max_wait sels w w'.
Proof.
  split.
  - revert w. induction sels as [|sel sels IH]; intros w;
      cbn [find_first_clickable]; unfold_monad.
    + intros E. simplify_eq. constructor.
    + destruct (wait_until_clickable d max_wait sel w) as [[el|[|msg]] w1] eqn:Hw;
        try discriminate.
      intros E. econstructor; eauto.
  - induction 1 as [w|sel sels w msg w1 w2 Hw _ IH]; [reflexivity|].
    cbn [find_first_clickable]. unfold_monad. rewrite Hw. exact IH.
Qed.

Lemma find_first_clickable_Some (d : driver) (max_wait : Z)
    (sels : list selector) (w w' : W) (el : element) :
  find_first_clickable d max_wait sels w = (Ok (Some el), w')
  <-> exists pre sel post w1,
        sels = List.app pre (sel :: post)
        /\ misses d max_wait pre w w1
        /\ wait_until_clickable d max_wait sel w1 = (Val el, w').
Proof.
  split.
  - revert w. induction sels as [|sel sels IH]; intros w;
      cbn [find_first_clickable]; unfold_monad; [discriminate|].
    destruct (wait_until_clickable d max_wait sel w) as [[el0|[|msg]] w1] eqn:Hw;
      try discriminate.
    + intros E. simplify_eq. exists [], sel, sels, w.
      split; [reflexivity|]. split; [constructor|exact Hw].
    + intros E. destruct (IH _ E) as (pre & sel' & post & w2 & -> & Hm & Hs).
      exists (sel :: pre), sel', post, w2. split; [reflexivity|].
      split; [econstructor; eauto|exact Hs].
  - intros (pre & sel & post & w1 & -> & Hm & Hs).
    induction Hm as [w|s pre w msg w2 w3 Hw _ IH].
    + cbn [List.app find_first_clickable]. unfold_monad. rewrite Hs.
      reflexivity.
    + cbn [List.app find_first_clickable]. unfold_monad. rewrite Hw.
      apply IH. exact Hs.
Qed.

(** X15: [find_download_button] raises no [Exception]. It answers [None]
    exactly when the waits for its seven selectors, in the order of the list,
    have all failed; and it answers with an element exactly when the wait for
    one selector gave that element after the waits for the selectors before it
    had failed: the selectors after it are not tried. *)
Theorem find_download_button_first (d : driver) (max_wait : Z) (w : W) :
  (exists w',
     (exists o, find_download_button d max_wait w = (Ok o, w'))
     \/ find_download_button d max_wait w = (Raise KeyboardInterrupt, w'))
  /\ (forall w',
        find_download_button d max_wait w = (Ok None, w')
        <-> misses d max_wait selectors w w')
  /\ (forall el w',
        find_download_button d max_wait w = (Ok (Some el), w')
        <-> exists pre sel post w1,
              selectors = List.app pre (sel :: post)
              /\ misses d max_wait pre w w1
              /\ wait_until_clickable d max_wait sel w1 = (Val el, w')).
Proof.
  split; [apply find_first_clickable_outcome|]. split.
  - intros w'. apply find_first_clickable_None.
  - intros el w'. apply find_first_clickable_Some.
Qed.

Lemma click_download_button_calm (fuel : nat) (d : driver)
    (page_url download_dir : string) (max_wait : Z) :
  calm (click_download_button fuel d page_url download_dir max_wait).
Proof.
  unfold click_download_button. apply calm_try_except.
  intros msg. case_match; apply calm_ret.
Qed.

Lemma session_text (msg : string) :
  Str.contains "invalid session id" (Str.lower msg)
  || Str.contains "session" (Str.lower msg)
  = Str.contains "session" (Str.lower msg).
Proof.
  destruct (Str.contains "invalid session id" (Str.lower msg)) eqn:E;
    [|reflexivity].
  symmetry. apply (contains_part "invalid " "session" " id"). exact E.
Qed.

(** X16: What a trigger can answer. [click_download_button] lets no
    [Exception] out and never answers [True]: it answers [False] or
    SESSION_EXPIRED, unless the user interrupts it. When the probe of the
    session fails, the answer is SESSION_EXPIRED and nothing else was done;
    when the page cannot be opened, the answer depends on the text of the
    error alone: SESSION_EXPIRED when it holds the word session in any letter
    case, [False] otherwise. *)
Theorem click_download_button_answers (fuel : nat) (d : driver)
    (page_url download_dir : string) (max_wait : Z) (w : W) :
  (fst (click_download_button fuel d page_url download_dir max_wait w)
   = Ok RFalse
   \/ fst (click_download_button fuel d page_url download_dir max_wait w)
      = Ok SESSION_EXPIRED
   \/ fst (click_download_button fuel d page_url download_dir max_wait w)
      = Raise KeyboardInterrupt
   \/ fst (click_download_button fuel d page_url download_dir max_wait w)
      = Diverge)
  /\ (forall msg w1,
        current_url d w = (Err (Exception msg), w1) ->
        click_download_button fuel d page_url download_dir max_wait w
        = (Ok SESSION_EXPIRED, w1))
  /\ (forall u w1 msg w2,
        current_url d w = (Val u, w1) ->
        driver_get d page_url w1 = (Err (Exception msg), w2) ->
        click_download_button fuel d page_url download_dir max_wait w
        = (Ok (if Str.contains "session" (Str.lower msg)
               then SESSION_EXPIRED else RFalse), w2)).
Proof.
  split; [|split].
  - destruct (click_download_button fuel d page_url download_dir max_wait w)
      as [[[]|[|msg]|] w'] eqn:E; cbn [fst]; auto.
    + exfalso. exact (click_download_button_not_True _ _ _ _ _ _ _ _ E eq_refl).
    + exfalso. exact (click_download_button_calm _ _ _ _ _ _ _ _ msg E eq_refl).
  - intros msg w1 Hc. unfold click_download_button. unfold_monad.
    rewrite Hc. reflexivity.
  - intros u w1 msg w2 Hc Hg. unfold click_download_button. unfold_monad.
    rewrite Hc. cbn [negb]. rewrite Hg, session_text.
    destruct (Str.contains "session" (Str.lower msg)); reflexivity.
Qed.

End Browser.

Section Session.
Context {W : Type} `{Env W}.

(** [says E P m]: whatever [m] does, the events it adds to the console
    all satisfy [E]; and a value that it returns satisfies [P]. *)
Definition says {A} (E : Event -> Prop) (P : A -> Prop)
    (m : M (@RunState W) A) : Prop :=
  forall rs r rs',
    m rs = (r, rs') ->
    (exists evs, console rs' = List.app (console rs) evs /\ Forall E evs)
    /\ forall a, r = Ok a -> P a.

Lemma says_ret {A} (E : Event -> Prop) (P : A -> Prop) (a : A) :
  P a -> says E P (mret a).
Proof.
  intros HP rs r rs' Hm. unfold_monad. simplify_eq. split.
  - exists []. split; [symmetry; apply List.app_nil_r|constructor].
  - intros a' Ha. simplify_eq. exact HP.
Qed.

Lemma says_bind {A B} (E : Event -> Prop) (Q : A -> Prop) (P : B -> Prop)
    (m : M (@RunState W) A) (k : A -> M (@RunState W) B) :
  says E Q m -> (forall a, Q a -> says E P (k a)) -> says E P (m ≫= k).
Proof.
  intros Hm Hk rs r rs' Hb. unfold_monad.
  destruct (m rs) as [[a|e|] rs1] eqn:Hms;
    destruct (Hm _ _ _ Hms) as [(evs1 & E1 & F1) HQ].
  - destruct (Hk a (HQ a eq_refl) _ _ _ Hb) as [(evs2 & E2 & F2) HP].
    split; [|exact HP]. exists (List.app evs1 evs2).
    rewrite E2, E1, List.app_assoc.
    split; [reflexivity|apply Forall_app; split; assumption].
  - simplify_eq. split; [eauto|discriminate].
  - simplify_eq. split; [eauto|discriminate].
Qed.

Lemma says_lift {A} (E : Event -> Prop) (P : A -> Prop) (m : M W A) :
  yields P m -> says E P (lift m).
Proof.
  intros Hm rs r rs' Hl. split.
  - rewrite lift_eq in Hl. simplify_eq. exists [].
    split; [symmetry; apply List.app_nil_r|constructor].
  - intros a ->. eapply (yields_lift P m Hm); eauto.
Qed.

Lemma says_print (E : Event -> Prop) (e : Event) :
  E e -> says E (fun _ => True) (console_print e).
Proof.
  intros He rs r rs' Hp. unfold console_print in Hp. simplify_eq.
  split; [|auto]. exists [e]. split; [reflexivity|repeat constructor; exact He].
Qed.

Lemma says_assign (E : Event -> Prop) (d : option driver) :
  says E (fun _ => True) (assign_driver d).
Proof.
  intros rs r rs' Hp. unfold assign_driver in Hp. simplify_eq.
  split; [|auto]. exists []. split; [symmetry; apply List.app_nil_r|constructor].
Qed.

Lemma says_any {A} (E : Event -> Prop) (P : A -> Prop)
    (m : M (@RunState W) A) :
  says E P m -> says E (fun _ => True) m.
Proof. intros Hm rs r rs' Hr. split; [eapply Hm; eauto|auto]. Qed.

Definition no_refresh (e : Event) : Prop := e <> MsgRefreshing.

Definition at_zero (st : Loop) : Prop := downloads_since_refresh st = 0.

Lemma says_restart_session (args : Args) (download_dir : string)
    (why : Event) (st : Loop) :
  no_refresh why ->
  says no_refresh at_zero (restart_session args download_dir why st).
Proof.
  intros Hwhy. unfold restart_session.
  eapply says_bind; [apply says_print; exact Hwhy|intros _ _].
  eapply says_bind; [apply says_lift, yields_any|intros _ _].
  eapply says_bind; [apply says_lift, yields_any|intros _ _].
  eapply says_bind; [apply says_lift, yields_any|intros d _].
  eapply says_bind; [apply says_assign|intros _ _].
  apply says_ret. reflexivity.
Qed.

Lemma says_trigger (fuel : nat) (args : Args) (download_dir link : string)
    (st : Loop) :
  at_zero st ->
  says no_refresh (fun p => at_zero (fst p) /\ snd p <> RTrue)
    (trigger fuel args download_dir link st).
Proof.
  intros Hst. unfold trigger.
  eapply says_bind;
    [apply says_lift, click_download_button_not_True|intros result Hne].
  destruct result; [congruence|apply says_ret; split; [exact Hst|discriminate]|].
  eapply says_bind; [apply says_restart_session; discriminate|intros st1 Hst1].
  eapply says_bind;
    [apply says_lift, click_download_button_not_True|intros result2 Hne2].
  apply says_ret. split; assumption.
Qed.

Lemma says_attempt (fuel : nat) (args : Args) (download_dir : string)
    (n idx : nat) (link : string) (st : Loop) :
  at_zero st ->
  says no_refresh at_zero (attempt fuel args download_dir n idx link st).
Proof.
  intros Hst. unfold attempt.
  eapply says_bind; [apply says_trigger; exact Hst|].
  intros [st1 result] [Hst1 Hne]. cbn [fst snd] in Hst1, Hne.
  eapply says_bind; [apply says_print; discriminate|intros _ _].
  eapply says_bind with (Q := fun _ => True).
  { destruct (idx <? n)%nat; [apply says_lift, yields_any|apply says_ret; exact I]. }
  intros _ _. apply says_ret. destruct result; [congruence|exact Hst1..].
Qed.

Lemma says_process_link (fuel : nat) (args : Args) (download_dir : string)
    (n idx : nat) (link : string) (st : Loop) :
  0 < session_refresh args -> at_zero st ->
  says no_refresh at_zero (process_link fuel args download_dir n idx link st).
Proof.
  intros HN Hst. unfold process_link.
  eapply says_bind; [apply says_lift, yields_any|intros filename _].
  eapply says_bind; [apply says_print; discriminate|intros _ _].
  eapply says_bind; [apply says_lift, yields_any|intros existing _].
  destruct (truthy existing).
  - eapply says_bind; [apply says_lift, yields_any|intros _ _].
    eapply says_bind; [apply says_print; discriminate|intros _ _].
    eapply says_bind; [apply says_print; discriminate|intros _ _].
    apply says_ret. exact Hst.
  - unfold refresh_if_due, should_refresh. red in Hst. rewrite Hst.
    destruct (session_refresh args <=? 0) eqn:Hle; [apply Z.leb_le in Hle; lia|].
    eapply says_bind with (Q := at_zero); [apply says_ret; exact Hst|].
    intros st1 Hst1. apply says_attempt. exact Hst1.
Qed.

Lemma says_process_links (fuel : nat) (args : Args) (download_dir : string)
    (n : nat) (links : list string) :
  0 < session_refresh args ->
  forall idx st,
    at_zero st ->
    says no_refresh at_zero (process_links fuel args download_dir n idx links st).
Proof.
  intros HN. induction links as [|link rest IH]; intros idx st Hst;
    cbn [process_links].
  - apply says_ret. exact Hst.
  - eapply says_bind; [apply says_process_link; assumption|].
    intros st1 Hst1. apply IH. exact Hst1.
Qed.

Lemma says_run_body (fuel : nat) (args : Args) (download_dir : string) :
  0 < session_refresh args ->
  says no_refresh (fun _ => True) (run_body fuel args download_dir).
Proof.
  intros HN. unfold run_body.
  eapply says_bind; [apply says_lift, yields_any|intros d _].
  eapply says_bind; [apply says_assign|intros _ _].
  eapply says_bind with (Q := fun _ => True).
  { destruct (truthy (input_txt args));
      [apply says_lift, yields_any|apply says_ret; exact I]. }
  intros links1 _.
  eapply says_bind with (Q := fun _ => True).
  { destruct (truthy (url args)); [|apply says_ret; exact I]. cbv zeta.
    eapply says_bind; [apply says_print; discriminate|intros _ _].
    apply says_lift, yields_any. }
  intros links2 _. cbv zeta.
  destruct (collect_links args (List.app links1 links2)) as [|link rest];
    [apply says_print; discriminate|].
  eapply says_bind; [apply says_print; discriminate|intros _ _].
  eapply says_bind; [apply says_print; discriminate|intros _ _].
  eapply says_bind;
    [apply says_process_links; [exact HN|reflexivity]|intros st _].
  apply says_print. discriminate.
Qed.

Lemma says_try_except {A} (E : Event -> Prop) (P : A -> Prop)
    (m : M (@RunState W) A) (h : string -> M (@RunState W) A) :
  says E P m -> (forall msg, says E P (h msg)) -> says E P (try_except m h).
Proof.
  intros Hm Hh rs r rs' Ht. unfold try_except in Ht.
  destruct (m rs) as [[a|[|msg]|] rs1] eqn:Hms; simplify_eq;
    try (eapply Hm; eauto; fail).
  destruct (Hm _ _ _ Hms) as [(evs1 & E1 & F1) _].
  destruct (Hh msg _ _ _ Ht) as [(evs2 & E2 & F2) HP].
  split; [|exact HP]. exists (List.app evs1 evs2).
  rewrite E2, E1, List.app_assoc.
  split; [reflexivity|apply Forall_app; split; assumption].
Qed.

Lemma says_read (E : Event -> Prop) :
  says E (fun _ => True) (read_driver (W:=W)).
Proof.
  intros rs r rs' Hp. unfold read_driver in Hp. simplify_eq.
  split; [|auto]. exists []. split; [symmetry; apply List.app_nil_r|constructor].
Qed.

Lemma says_finalizer (E : Event -> Prop) :
  E MsgClosed -> says E (fun _ => True) (finalizer (W:=W)).
Proof.
  intros HE. unfold finalizer.
  apply says_try_except; [|intros _; apply says_ret; exact I].
  eapply says_bind; [apply says_read|intros d _].
  destruct d as [d|]; [|apply says_ret; exact I].
  eapply says_bind; [apply says_lift, yields_any|intros _ _].
  apply says_print. exact HE.
Qed.

Lemma says_handlers (E : Event -> Prop) (m : M (@RunState W) unit) :
  E MsgInterrupted -> (forall msg, E (MsgFatal msg)) ->
  says E (fun _ => True) m -> says E (fun _ => True) (handlers m).
Proof.
  intros Hi Hf Hm rs r rs' Hh. split; [|auto]. unfold handlers in Hh.
  destruct (m rs) as [[[]|[|msg]|] rs1] eqn:Hms;
    destruct (Hm _ _ _ Hms) as [(evs1 & E1 & F1) _];
    unfold console_print in Hh; simplify_eq; cbn [console]; eauto.
  - exists (List.app evs1 [MsgInterrupted]). rewrite E1, List.app_assoc.
    split; [reflexivity|]. apply Forall_app. split; [exact F1|].
    repeat constructor. exact Hi.
  - exists (List.app evs1 [MsgFatal msg]). rewrite E1, List.app_assoc.
    split; [reflexivity|]. apply Forall_app. split; [exact F1|].
    repeat constructor. apply Hf.
Qed.

Lemma says_try_finally {A} (E : Event -> Prop) (m : M (@RunState W) A)
    (fin : M (@RunState W) unit) :
  says E (fun _ => True) m -> says E (fun _ => True) fin ->
  says E (fun _ => True) (try_finally m fin).
Proof.
  intros Hm Hf rs r rs' Ht. split; [|auto]. unfold try_finally in Ht.
  destruct (m rs) as [r1 rs1] eqn:Hms.
  destruct (Hm _ _ _ Hms) as [(evs1 & E1 & F1) _].
  assert (Hfin : forall r2 rs2, fin rs1 = (r2, rs2) ->
            exists evs, console rs2 = List.app (console rs) evs /\ Forall E evs).
  { intros r2 rs2 Hfr. destruct (Hf _ _ _ Hfr) as [(evs2 & E2 & F2) _].
    exists (List.app evs1 evs2). rewrite E2, E1, List.app_assoc.
    split; [reflexivity|apply Forall_app; split; assumption]. }
  destruct r1 as [a|e|]; [| |simplify_eq; eauto];
    destruct (fin rs1) as [[[]|e2|] rs2] eqn:Hfr; simplify_eq; eauto.
Qed.

(** X17: No periodic refresh of the session takes place. Under any positive
    threshold [--session-refresh], no run announces a refresh of the browser
    session: the counter of downloads since the last refresh only grows with a
    trigger that answers [True], and none does. *)
Theorem run_never_refreshes (fuel : nat) (args : Args) (w : W)
    (r : outcome unit) (rs' : @RunState W) :
  0 < session_refresh args ->
  run fuel args (start w) = (r, rs') ->
  ~ In MsgRefreshing (console rs').
Proof.
  intros HN Hr.
  assert (Hsays : says no_refresh (fun _ => True) (run fuel args)).
  { unfold run. cbv zeta.
    eapply says_bind; [apply says_lift, yields_any|intros _ _].
    eapply says_bind; [apply says_assign|intros _ _].
    apply says_try_finally; [|apply says_finalizer; discriminate].
    apply says_handlers; [discriminate..|]. apply says_run_body. exact HN. }
  destruct (Hsays _ _ _ Hr) as [(evs & E & F) _].
  unfold start in E. cbn [console List.app] in E. rewrite E.
  rewrite List.Forall_forall in F. intros Hin. exact (F _ Hin eq_refl).
Qed.

Lemma handlers_outcome (m : M (@RunState W) unit) (rs : @RunState W) :
  fst (handlers m rs) = Ok tt \/ fst (handlers m rs) = Diverge.
Proof.
  unfold handlers. destruct (m rs) as [[[]|[|msg]|] rs1]; cbn; auto.
Qed.

Lemma finalizer_outcome (rs : @RunState W) :
  fst (finalizer rs) = Ok tt
  \/ (exists d,
        driver_var rs = Some d
        /\ fst (driver_quit d (world rs)) = Err KeyboardInterrupt
        /\ fst (finalizer rs) = Raise KeyboardInterrupt).
Proof.
  unfold finalizer. unfold_monad. unfold read_driver.
  destruct (driver_var rs) as [d|]; [|left; reflexivity].
  rewrite lift_eq. unfold console_print.
  destruct (driver_quit d (world rs)) as [[[]|[|msg]] w1] eqn:Hq; cbn;
    [left; reflexivity| |left; reflexivity].
  right. exists d. rewrite Hq. auto.
Qed.

(** X18: No [Exception] comes out of a run once the download directory is
    there. When the directory cannot be created, [run] raises that error
    before anything else is done (no browser, nothing on the console).
    Otherwise the handlers absorb whatever the body raises, the user's
    interrupt included: the run returns, unless a watcher polls for ever, or
    the user interrupts the closing of the browser in the [finally] clause. *)
Theorem run_lets_no_exception_out (fuel : nat) (args : Args) (w : W) :
  (forall e w1,
     path_mkdir (output args) w = (Err e, w1) ->
     run fuel args (start w)
     = (Raise e, {| world := w1; console := []; driver_var := None |}))
  /\ (forall w1 r rs',
        path_mkdir (output args) w = (Val tt, w1) ->
        run fuel args (start w) = (r, rs') ->
        r = Ok tt \/ r = Diverge
        \/ (r = Raise KeyboardInterrupt
            /\ exists d w2,
                 driver_var rs' = Some d
                 /\ fst (driver_quit d w2) = Err KeyboardInterrupt)).
Proof.
  split.
  - intros e w1 Hmk. unfold run. unfold_monad. rewrite lift_eq.
    unfold start. cbn [world console driver_var]. rewrite Hmk. reflexivity.
  - intros w1 r rs' Hmk Hr. unfold run in Hr. unfold_monad.
    rewrite lift_eq in Hr. unfold start in Hr.
    cbn [world console driver_var] in Hr. rewrite Hmk in Hr.
    cbn [fst snd] in Hr. unfold assign_driver, try_finally in Hr.
    match type of Hr with
    | context [handlers ?m ?rs0] =>
        pose proof (handlers_outcome m rs0) as Hh;
        destruct (handlers m rs0) as [r1 rs1]
    end.
    cbn [fst] in Hh. destruct Hh as [->| ->]; [|simplify_eq; auto].
    pose proof (finalizer_outcome rs1) as Hf.
    assert (Hdrv : forall r2 rs2, finalizer rs1 = (r2, rs2) ->
              driver_var rs2 = driver_var rs1).
    { intros r2 rs2. unfold finalizer. unfold_monad. unfold read_driver.
      destruct (driver_var rs1) as [d|] eqn:Hd; [|intros; simplify_eq; auto].
      rewrite lift_eq. unfold console_print.
      destruct (driver_quit d (world rs1)) as [[[]|[|msg]] w2]; cbn;
        intros; simplify_eq; cbn; auto. }
    destruct (finalizer rs1) as [r2 rs2] eqn:Hfin.
    specialize (Hdrv _ _ eq_refl). cbn [fst] in Hf.
    destruct Hf as [->|(d & Hd & Hq & ->)]; simplify_eq; [auto|].
    right. right. split; [reflexivity|]. exists d, (world rs1).
    split; [congruence|exact Hq].
Qed.

(** The loop body for an address whose file the matcher reports. *)
Lemma process_link_existing (fuel : nat) (args : Args) (download_dir : string)
    (n idx : nat) (link : string) (st : Loop) (rs : @RunState W)
    (fname : option string) (w1 : W) (existing : string) (w2 : W) :
  get_filename_from_url link (world rs) = (Ok fname, w1) ->
  check_file_exists download_dir link w1 = (Ok (Some existing), w2) ->
  existing <> EmptyString ->
  process_link fuel args download_dir n idx link st rs
  = (_ ← lift (try_except
                 (_ ← call (os_path_getsize (path_join download_dir existing));
                  mret tt)
                 (fun _ => mret tt));
     _ ← console_print (MsgExists existing);
     _ ← progress_update (record_skip st);
     mret (record_skip st))
      (set_world (printed rs (MsgItem idx n (item_label fname link))) w2).
Proof.
  intros Hname Hex Hne. unfold process_link. unfold_monad.
  rewrite lift_eq, Hname. cbn [fst snd]. unfold console_print.
  rewrite lift_eq. cbn [world console driver_var]. rewrite Hex.
  cbn [fst snd truthy]. destruct existing as [|c e]; [contradiction|].
  reflexivity.
Qed.

(** X19: An address whose file is already there costs no browser action and no
    pause. When the matcher reports an entry for the address, the loop body
    announces the address, reports the entry, counts the address as skipped
    and returns at once, whether or not the size of the entry can be read: in
    the world, the resolver, the matcher and the reading of the size alone
    have acted. *)
Theorem process_link_skips (fuel : nat) (args : Args) (download_dir : string)
    (n idx : nat) (link : string) (st : Loop) (rs : @RunState W)
    (fname : option string) (w1 : W) (existing : string) (w2 : W)
    (r : result Z) (w3 : W) :
  get_filename_from_url link (world rs) = (Ok fname, w1) ->
  check_file_exists download_dir link w1 = (Ok (Some existing), w2) ->
  existing <> EmptyString ->
  os_path_getsize (path_join download_dir existing) w2 = (r, w3) ->
  r <> Err KeyboardInterrupt ->
  process_link fuel args download_dir n idx link st rs
  = (Ok (record_skip st),
     {| world := w3;
        console :=
          List.app (console rs)
            [MsgItem idx n (item_label fname link); MsgExists existing;
             ProgressUpdate (successful st) (skipped st + 1) (failed st)];
        driver_var := driver_var rs |}).
Proof.
  intros Hname Hex Hne Hsz Hr.
  rewrite (process_link_existing _ _ _ _ _ _ _ _ _ _ _ _ Hname Hex Hne).
  unfold_monad. rewrite lift_eq.
  cbn [set_world printed world console driver_var]. rewrite Hsz.
  unfold progress_update, console_print.
  destruct r as [sz|[|msg]]; [|contradiction|];
    cbn [fst snd world console driver_var record_skip successful skipped failed];
    rewrite <- !List.app_assoc; reflexivity.
Qed.


(** X20: A run without input starts a browser all the same. With neither
    [--url] nor [--input-txt] (or with empty ones), the run creates the
    download directory, starts a browser, says that there are no links, and
    closes the browser: nothing else is printed. *)
Theorem run_without_inputs (fuel : nat) (args : Args) (w w1 w2 w3 : W)
    (d : driver) :
  truthy (url args) = false ->
  truthy (input_txt args) = false ->
  path_mkdir (output args) w = (Val tt, w1) ->
  setup_driver (output args) (headless args) (negb (no_image_block args)) w1
  = (Ok d, w2) ->
  driver_quit d w2 = (Val tt, w3) ->
  run fuel args (start w)
  = (Ok tt, {| world := w3; console := [MsgNoLinks; MsgClosed];
               driver_var := Some d |}).
Proof.
  intros Hurl Htxt Hmk Hsetup Hquit. unfold run. unfold_monad.
  rewrite lift_eq. unfold start. cbn [world console driver_var].
  rewrite Hmk. cbn [fst snd]. unfold assign_driver, try_finally, handlers.
  cbn [world console driver_var].
  unfold run_body. unfold_monad. rewrite lift_eq.
  cbn [world console driver_var]. rewrite Hsetup. cbn [fst snd].
  unfold assign_driver. rewrite Hurl, Htxt. cbn [world console driver_var].
  cbn [List.app collect_links]. unfold collect_links.
  cbn [dedupe List.filter]. destruct (filter_downloads args);
    unfold console_print, finalizer; unfold_monad; unfold read_driver;
    cbn [world console driver_var]; rewrite lift_eq;
    cbn [world console driver_var]; rewrite Hquit; reflexivity.
Qed.

End Session.

Section Scraping.
Context {W : Type} `{Env W} `{Dom W}.

Lemma filter_filter {A} (f g : A -> bool) (l : list A) :
  List.filter f (List.filter g l) = List.filter (fun x => g x && f x) l.
Proof.
  induction l as [|a l IH]; cbn [List.filter]; [reflexivity|].
  destruct (g a); cbn [andb List.filter]; [|exact IH].
  destruct (f a); rewrite IH; reflexivity.
Qed.

Lemma unique_filter (links : list string) (seen : gset string) :
  Page.unique links seen
  = List.filter (fun l => negb (bool_decide (l ∈ seen))) (dedupe links).
Proof.
  revert seen. induction links as [|x links IH]; intros seen;
    cbn [Page.unique dedupe List.filter]; [reflexivity|].
  destruct (bool_decide (x ∈ seen)) eqn:Hx; cbn [negb].
  - rewrite IH, filter_filter. apply bool_decide_eq_true in Hx.
    apply List.filter_ext. intros y.
    destruct (String.eqb_spec y x) as [->|Hne]; cbn [negb andb]; [|reflexivity].
    rewrite (bool_decide_eq_true_2 _ Hx). reflexivity.
  - f_equal. rewrite IH, filter_filter. apply bool_decide_eq_false in Hx.
    apply List.filter_ext. intros y.
    destruct (String.eqb_spec y x) as [->|Hne]; cbn [negb andb].
    + rewrite bool_decide_eq_true_2; [reflexivity|].
      apply elem_of_union_l, elem_of_singleton. reflexivity.
    + f_equal. apply bool_decide_ext.
      rewrite elem_of_union, elem_of_singleton. tauto.
Qed.

(** The loop with the set [seen] and [list(dict.fromkeys(...))] do the
    same. *)
Lemma unique_dedupe (links : list string) :
  Page.unique links ∅ = dedupe links.
Proof.
  rewrite unique_filter. apply filter_all. intros l _.
  rewrite bool_decide_eq_false_2; [reflexivity|]. apply not_elem_of_empty.
Qed.

Lemma hrefs_http (anchors : list element) :
  yields (fun links => forall l, In l links -> Str.startswith "http" l = true)
    (Page.hrefs anchors).
Proof.
  induction anchors as [|a anchors IH]; cbn [Page.hrefs].
  - apply yields_ret. intros l [].
  - eapply yields_bind; [apply yields_any|intros href _].
    eapply yields_bind; [exact IH|intros links Hlinks].
    apply yields_ret.
    destruct (truthy href && Str.startswith "http" (default EmptyString href))
      eqn:E; [|exact Hlinks].
    apply andb_true_iff in E as [_ E]. intros l [<-|Hl]; auto.
Qed.

(** The loop over the anchors reads the attributes in the order of the
    anchors and keeps the web addresses. *)
Lemma hrefs_reads (anchors : list element) (w w' : W) (raw : list string) :
  Page.hrefs anchors w = (Ok raw, w') ->
  exists hs, reads anchors w hs w' /\ raw = web_addresses hs.
Proof.
  revert w raw. induction anchors as [|a anchors IH]; intros w raw;
    cbn [Page.hrefs]; unfold_monad.
  - intros E. simplify_eq. exists []. split; [constructor|reflexivity].
  - set (http := Str.startswith "http").
    destruct (get_attribute a "href" w) as [[href|[|msg]] w1] eqn:Ha;
      [|discriminate|].
    + destruct (Page.hrefs anchors w1) as [[links|e|] w2] eqn:Hr;
        [|discriminate..].
      intros E. simplify_eq. destruct (IH _ _ Hr) as (hs & Hhs & ->).
      exists (href :: hs). split; [eapply reads_value; eauto|].
      destruct href as [l|]; [|reflexivity].
      unfold web_addresses. cbn [truthy from_option id List.flat_map].
      fold http. destruct (negb (Str.is_empty l) && http l); reflexivity.
    + destruct (Page.hrefs anchors w1) as [[links|e|] w2] eqn:Hr;
        [|discriminate..].
      intros E. simplify_eq. destruct (IH _ _ Hr) as (hs & Hhs & ->).
      exists (None :: hs). split; [eapply reads_failed; eauto|reflexivity].
Qed.

Lemma web_addresses_http (hs : list (option string)) (l : string) :
  In l (web_addresses hs) -> Str.startswith "http" l = true.
Proof.
  unfold web_addresses. rewrite List.in_flat_map. intros ([u|] & _ & Hin);
    [|destruct Hin].
  destruct (negb (Str.is_empty u) && Str.startswith "http" u) eqn:E;
    [|destruct Hin].
  destruct Hin as [<-|[]]. apply andb_true_iff in E as [_ E]. exact E.
Qed.

(** X21: The links that [scrape_links] returns are the web addresses of the
    page in the order of the page, each of them once, at its first
    occurrence. When [scrape_links] returns [links], the page was opened, its
    body came up, a second went by, the anchors of the page were gathered, and
    their [href] attributes were read one after the other; [links] holds the
    attributes that are not empty and start with http, in the order in which
    they were read, without the repetitions. So the links have no duplicates,
    and the deduplication of [run] leaves them as they are. *)
Theorem scrape_links_unique (drv : driver) (url : string) (wait_time : Z)
    (w w' : W) (links : list string) :
  Page.scrape_links drv url wait_time w = (Ok links, w') ->
  (exists w1 body w2 w3 anchors w4 hs,
     driver_get drv url w = (Val tt, w1)
     /\ wait_until_present drv wait_time (TAG_NAME, "body") w1 = (Val body, w2)
     /\ time_sleep 1000 w2 = (Val tt, w3)
     /\ Page.page_anchors drv w3 = (Ok anchors, w4)
     /\ reads anchors w4 hs w'
     /\ links = dedupe (web_addresses hs))
  /\ List.NoDup links
  /\ (forall l, In l links -> Str.startswith "http" l = true)
  /\ dedupe links = links.
Proof.
  intros Hs.
  assert (Ht : exists w1 body w2 w3 anchors w4 hs,
             driver_get drv url w = (Val tt, w1)
             /\ wait_until_present drv wait_time (TAG_NAME, "body") w1
                = (Val body, w2)
             /\ time_sleep 1000 w2 = (Val tt, w3)
             /\ Page.page_anchors drv w3 = (Ok anchors, w4)
             /\ reads anchors w4 hs w'
             /\ links = dedupe (web_addresses hs)).
  { unfold Page.scrape_links in Hs. unfold_monad.
    destruct (driver_get drv url w) as [[[]|e] w1] eqn:H1; [|discriminate].
    destruct (wait_until_present drv wait_time (TAG_NAME, "body") w1)
      as [[body|e] w2] eqn:H2; [|discriminate].
    destruct (time_sleep 1000 w2) as [[[]|e] w3] eqn:H3; [|discriminate].
    destruct (Page.page_anchors drv w3) as [[anchors|e|] w4] eqn:H4;
      [|discriminate..].
    destruct (Page.hrefs anchors w4) as [[raw|e|] w5] eqn:H5;
      [|discriminate..].
    simplify_eq. destruct (hrefs_reads _ _ _ _ H5) as (hs & Hr & ->).
    exists w1, body, w2, w3, anchors, w4, hs.
    rewrite unique_dedupe. repeat split; assumption. }
  split; [exact Ht|].
  destruct Ht as (w1 & body & w2 & w3 & anchors & w4 & hs & _ & _ & _ & _ & _ & ->).
  split; [apply dedupe_NoDup|]. split.
  - intros l Hl. apply (web_addresses_http hs). apply dedupe_In. exact Hl.
  - apply dedupe_fixed, dedupe_NoDup.
Qed.

(** X22: [scrape_links] lets the errors of the page out: when the listing page
    cannot be opened, or when its body does not come up in time, the error is
    raised to [run] (where it is fatal), and nothing more is asked of the
    browser. *)
Theorem scrape_links_raises (drv : driver) (url : string) (wait_time : Z)
    (w : W) :
  (forall e w1,
     driver_get drv url w = (Err e, w1) ->
     Page.scrape_links drv url wait_time w = (Raise e, w1))
  /\ (forall w1 e w2,
        driver_get drv url w = (Val tt, w1) ->
        wait_until_present drv wait_time (TAG_NAME, "body") w1 = (Err e, w2) ->
        Page.scrape_links drv url wait_time w = (Raise e, w2)).
Proof.
  unfold Page.scrape_links. unfold_monad. split.
  - intros e w1 ->. reflexivity.
  - intros w1 e w2 -> ->. reflexivity.
Qed.

End Scraping.

Section Progress.
Context {W : Type} `{Env W}.

(** [prints P m]: when [m] returns [a], the events [evs] that it has
    added to the console satisfy [P a evs]. *)
Definition prints {A} (P : A -> list Event -> Prop)
    (m : M (@RunState W) A) : Prop :=
  forall rs a rs',
    m rs = (Ok a, rs') ->
    exists evs, console rs' = List.app (console rs) evs /\ P a evs.

(** Events that are no announcement, no progress line and no summary. *)
Definition aside (evs : list Event) : Prop :=
  items evs = [] /\ updates evs = [] /\ summaries evs = [].

Lemma items_app (a b : list Event) :
  items (List.app a b) = List.app (items a) (items b).
Proof. apply List.flat_map_app. Qed.

Lemma updates_app (a b : list Event) :
  updates (List.app a b) = List.app (updates a) (updates b).
Proof. apply List.flat_map_app. Qed.

Lemma summaries_app (a b : list Event) :
  summaries (List.app a b) = List.app (summaries a) (summaries b).
Proof. apply List.flat_map_app. Qed.

Lemma last_cons_indep {A} (us : list A) (u d d' : A) :
  List.last (u :: us) d = List.last (u :: us) d'.
Proof.
  revert u. induction us as [|v us IH]; intros u; [reflexivity|].
  change (List.last (v :: us) d = List.last (v :: us) d'). apply IH.
Qed.

Lemma last_app_cons {A} (a : list A) (u : A) (us : list A) (d d' : A) :
  List.last (List.app a (u :: us)) d = List.last (u :: us) d'.
Proof.
  induction a as [|x a IH]; [apply last_cons_indep|].
  cbn [List.app]. destruct (List.app a (u :: us)) eqn:E; [|exact IH].
  destruct a; discriminate.
Qed.

Lemma aside_nil : aside [].
Proof. repeat split. Qed.

Lemma aside_app (a b : list Event) : aside a -> aside b -> aside (List.app a b).
Proof.
  intros (A1 & A2 & A3) (B1 & B2 & B3). unfold aside.
  rewrite items_app, updates_app, summaries_app, A1, A2, A3, B1, B2, B3.
  repeat split.
Qed.

Lemma prints_ret {A} (P : A -> list Event -> Prop) (a : A) :
  P a [] -> prints P (mret a).
Proof.
  intros HP rs b rs' E. unfold_monad. simplify_eq. exists [].
  split; [symmetry; apply List.app_nil_r|exact HP].
Qed.

Lemma prints_bind {A B} (P1 : A -> list Event -> Prop)
    (P : B -> list Event -> Prop)
    (m : M (@RunState W) A) (k : A -> M (@RunState W) B) :
  prints P1 m ->
  (forall a evs1,
     P1 a evs1 -> prints (fun b evs2 => P b (List.app evs1 evs2)) (k a)) ->
  prints P (m ≫= k).
Proof.
  intros Hm Hk rs b rs' E. unfold_monad.
  destruct (m rs) as [[a|e|] rs1] eqn:Hms; [|discriminate..].
  destruct (Hm _ _ _ Hms) as (evs1 & E1 & H1).
  destruct (Hk a evs1 H1 _ _ _ E) as (evs2 & E2 & H2).
  exists (List.app evs1 evs2). rewrite E2, E1, List.app_assoc. auto.
Qed.

Lemma prints_lift {A} (m : M W A) : prints (fun _ evs => evs = []) (lift m).
Proof.
  intros rs a rs' E. rewrite lift_eq in E. simplify_eq. exists [].
  split; [symmetry; apply List.app_nil_r|reflexivity].
Qed.

Lemma prints_print (e : Event) :
  prints (fun _ evs => evs = [e]) (console_print e).
Proof.
  intros rs a rs' E. unfold console_print in E. simplify_eq. exists [e].
  split; reflexivity.
Qed.

Lemma prints_assign (d : option driver) :
  prints (fun _ evs => evs = []) (assign_driver d).
Proof.
  intros rs a rs' E. unfold assign_driver in E. simplify_eq. exists [].
  split; [symmetry; apply List.app_nil_r|reflexivity].
Qed.

Lemma prints_weaken {A} (P Q : A -> list Event -> Prop)
    (m : M (@RunState W) A) :
  (forall a evs, P a evs -> Q a evs) -> prints P m -> prints Q m.
Proof.
  intros HPQ Hm rs a rs' E. destruct (Hm _ _ _ E) as (evs & E1 & HP). eauto.
Qed.

Lemma prints_restart_session (args : Args) (download_dir : string)
    (why : Event) (st : Loop) :
  aside [why] ->
  prints (fun st' evs => aside evs /\ tally st' = tally st)
    (restart_session args download_dir why st).
Proof.
  intros Hwhy. unfold restart_session.
  eapply prints_bind; [apply prints_print|intros _ ? ->].
  eapply prints_bind; [apply prints_lift|intros _ ? ->].
  eapply prints_bind; [apply prints_lift|intros _ ? ->].
  eapply prints_bind; [apply prints_lift|intros d ? ->].
  eapply prints_bind; [apply prints_assign|intros _ ? ->].
  apply prints_ret. cbn [List.app]. split; [exact Hwhy|reflexivity].
Qed.

Lemma prints_trigger (fuel : nat) (args : Args) (download_dir link : string)
    (st : Loop) :
  prints (fun p evs => aside evs /\ tally (fst p) = tally st)
    (trigger fuel args download_dir link st).
Proof.
  unfold trigger.
  eapply prints_bind; [apply prints_lift|intros result ? ->].
  destruct result; try (apply prints_ret; split; [apply aside_nil|reflexivity]).
  eapply prints_bind;
    [apply prints_restart_session; repeat split|intros st1 evs1 [Ha Ht]].
  eapply prints_bind; [apply prints_lift|intros result2 ? ->].
  apply prints_ret. cbn [List.app fst]. rewrite !List.app_nil_r. auto.
Qed.

Lemma prints_attempt (fuel : nat) (args : Args) (download_dir : string)
    (n idx : nat) (link : string) (st : Loop) :
  prints (fun st' evs =>
            items evs = [] /\ updates evs = [tally st'] /\ summaries evs = [])
    (attempt fuel args download_dir n idx link st).
Proof.
  unfold attempt.
  eapply prints_bind; [apply prints_trigger|intros [st1 result] evs1 [Ha Ht]].
  unfold progress_update.
  eapply prints_bind; [apply prints_print|intros _ ? ->].
  eapply prints_bind with (P1 := fun _ evs => evs = []).
  { destruct (idx <? n)%nat; [apply prints_lift|apply prints_ret; reflexivity]. }
  intros _ ? ->. apply prints_ret. rewrite !List.app_nil_r.
  destruct Ha as (A1 & A2 & A3).
  rewrite items_app, updates_app, summaries_app, A1, A2, A3. cbn.
  repeat split.
Qed.

Lemma prints_process_link (fuel : nat) (args : Args) (download_dir : string)
    (n idx : nat) (link : string) (st : Loop) :
  prints (fun st' evs =>
            items evs = [idx] /\ updates evs = [tally st']
            /\ summaries evs = [])
    (process_link fuel args download_dir n idx link st).
Proof.
  unfold process_link.
  eapply prints_bind; [apply prints_lift|intros filename ? ->].
  eapply prints_bind; [apply prints_print|intros _ ? ->].
  eapply prints_bind; [apply prints_lift|intros existing ? ->].
  destruct (truthy existing).
  - eapply prints_bind; [apply prints_lift|intros _ ? ->].
    eapply prints_bind; [apply prints_print|intros _ ? ->].
    unfold progress_update.
    eapply prints_bind; [apply prints_print|intros _ ? ->].
    apply prints_ret. cbn. repeat split.
  - eapply prints_bind with
      (P1 := fun st1 evs => aside evs /\ tally st1 = tally st).
    { unfold refresh_if_due. destruct (should_refresh args st);
        [apply prints_restart_session; repeat split
        |apply prints_ret; split; [apply aside_nil|reflexivity]]. }
    intros st1 evs1 [(A1 & A2 & A3) _].
    eapply prints_weaken; [|apply prints_attempt].
    intros st' evs (B1 & B2 & B3).
    change (?e :: List.app ?a ?b) with (List.app [e] (List.app a b)).
    rewrite !items_app, !updates_app, !summaries_app, A1, A2, A3, B1, B2, B3.
    repeat split.
Qed.

Lemma prints_process_links (fuel : nat) (args : Args) (download_dir : string)
    (n : nat) (links : list string) :
  forall idx st,
    prints (fun st' evs =>
              items evs = List.seq idx (List.length links)
              /\ List.length (updates evs) = List.length links
              /\ List.last (updates evs) (tally st) = tally st'
              /\ summaries evs = [])
      (process_links fuel args download_dir n idx links st).
Proof.
  induction links as [|link rest IH]; intros idx st; cbn [process_links].
  - apply prints_ret. repeat split.
  - eapply prints_bind; [apply prints_process_link|].
    intros st1 evs1 (A1 & A2 & A3).
    eapply prints_weaken; [|apply IH].
    intros st' evs (B1 & B2 & B3 & B4). cbn [List.length List.seq].
    rewrite items_app, updates_app, summaries_app, A1, A2, A3, B1, B4,
      List.length_app, B2.
    repeat split.
    destruct (updates evs) as [|u us]; [exact B3|].
    rewrite <- B3. apply last_app_cons.
Qed.

Lemma prints_run_body (fuel : nat) (args : Args) (download_dir : string) :
  prints (fun _ evs =>
            aside evs
            \/ exists st n,
                 items evs = List.seq 1 n
                 /\ List.length (updates evs) = n
                 /\ List.last (updates evs) (0, 0, 0) = tally st
                 /\ summaries evs
                    = [(successful st, skipped st, failed st, n)])
    (run_body fuel args download_dir).
Proof.
  unfold run_body.
  eapply prints_bind; [apply prints_lift|intros d ? ->].
  eapply prints_bind; [apply prints_assign|intros _ ? ->].
  eapply prints_bind with (P1 := fun _ evs => evs = []).
  { destruct (truthy (input_txt args));
      [apply prints_lift|apply prints_ret; reflexivity]. }
  intros links1 ? ->.
  eapply prints_bind with (P1 := fun _ evs => aside evs).
  { destruct (truthy (url args)); [|apply prints_ret; apply aside_nil].
    cbv zeta. eapply prints_bind; [apply prints_print|intros _ ? ->].
    eapply prints_weaken; [|apply prints_lift].
    intros a evs ->. repeat split. }
  intros links2 evs0 Hevs0. cbv zeta. cbn [List.app].
  destruct (collect_links args (List.app links1 links2)) as [|link rest].
  { eapply prints_weaken; [|apply prints_print].
    intros a evs ->. left. apply aside_app; [exact Hevs0|repeat split]. }
  eapply prints_bind; [apply prints_print|intros _ ? ->].
  eapply prints_bind; [apply prints_print|intros _ ? ->].
  eapply prints_bind; [apply prints_process_links|].
  intros st evs1 (A1 & A2 & A3 & A4).
  eapply prints_weaken; [|apply prints_print].
  intros a evs ->. right. exists st, (List.length (link :: rest)).
  destruct Hevs0 as (Z1 & Z2 & Z3).
  rewrite !items_app, !updates_app, !summaries_app, Z1, Z2, Z3, A1, A4.
  cbn [List.app items updates summaries List.flat_map].
  rewrite !List.app_nil_r. repeat split; assumption.
Qed.

Lemma plain_no_summary (evs : list Event) :
  Forall (fun e => plain e = true) evs -> summaries evs = [].
Proof.
  induction 1 as [|e evs He _ IH]; [reflexivity|].
  change (summaries (e :: evs)) with (summaries (List.app [e] evs)).
  rewrite summaries_app, IH. destruct e; try reflexivity; discriminate.
Qed.

Lemma closed_aside (evs : list Event) :
  Forall (fun e => e = MsgClosed) evs -> aside evs.
Proof.
  induction 1 as [|e evs -> _ IH]; [apply aside_nil|].
  apply (aside_app [MsgClosed] evs); [repeat split|exact IH].
Qed.

Lemma summaries_In (evs : list Event) (s k f : Z) (n : nat) :
  In (Summary s k f n) evs -> In (s, k, f, n) (summaries evs).
Proof.
  intros Hin. unfold summaries. apply List.in_flat_map.
  exists (Summary s k f n). split; [exact Hin|left; reflexivity].
Qed.

(** X23: The console of a run that reports its tally. Each address was
    announced once, in the order of the list and numbered from 1; each was
    followed by one progress line; the last progress line shows the counts of
    the tally; and the tally is reported once. *)
Theorem run_progress_agrees (fuel : nat) (args : Args) (w : W)
    (r : outcome unit) (rs' : @RunState W) (s k f : Z) (n : nat) :
  run fuel args (start w) = (r, rs') ->
  In (Summary s k f n) (console rs') ->
  items (console rs') = List.seq 1 n
  /\ List.length (updates (console rs')) = n
  /\ List.last (updates (console rs')) (0, 0, 0) = (s, k, f)
  /\ summaries (console rs') = [(s, k, f, n)].
Proof.
  intros Hr Hin. unfold run in Hr. unfold_monad. rewrite lift_eq in Hr.
  unfold start in Hr. cbn [world console driver_var] in Hr.
  destruct (path_mkdir (output args) w) as [[[]|e] w1]; cbn [fst snd] in Hr;
    [|simplify_eq; destruct Hin].
  unfold assign_driver, try_finally, handlers in Hr.
  cbn [world console driver_var] in Hr.
  match type of Hr with
  | context [run_body ?fu ?ar ?dd ?rs0] =>
      destruct (run_body fu ar dd rs0) as [rb rs1] eqn:Hb
  end.
  assert (Hfin : forall rs2 rf rs3,
            finalizer rs2 = (rf, rs3) ->
            exists closing,
              console rs3 = List.app (console rs2) closing /\ aside closing).
  { intros rs2 rf rs3 Hf.
    destruct (says_finalizer (fun e => e = MsgClosed) eq_refl _ _ _ Hf)
      as [(closing & E & F) _].
    exists closing. split; [exact E|apply closed_aside; exact F]. }
  assert (Hcases :
            summaries (console rs') = []
            \/ exists st n0,
                 items (console rs') = List.seq 1 n0
                 /\ List.length (updates (console rs')) = n0
                 /\ List.last (updates (console rs')) (0, 0, 0) = tally st
                 /\ summaries (console rs')
                    = [(successful st, skipped st, failed st, n0)]).
  { destruct rb as [[]|e|].
    - destruct (prints_run_body _ _ _ _ _ _ Hb) as (evs & E & Hevs).
      cbn [console List.app] in E.
      destruct (finalizer rs1) as [rf rs3] eqn:Hf.
      destruct (Hfin _ _ _ Hf) as (closing & E3 & (C1 & C2 & C3)).
      assert (console rs' = List.app evs closing) as ->.
      { rewrite <- E, <- E3. destruct rf as [[]|?|]; simplify_eq; reflexivity. }
      rewrite items_app, updates_app, summaries_app, C1, C2, C3,
        !List.app_nil_r.
      destruct Hevs as [(_ & _ & ->)|Hevs]; [left; reflexivity|right; exact Hevs].
    - left. destruct (run_body_shape _ _ _ _ _ _ Hb) as (evs & mid & E & F & ->).
      cbn [console List.app] in E. rewrite List.app_nil_r in E.
      assert (exists rs2 msgs,
                console rs2 = List.app evs msgs /\ summaries msgs = []
                /\ (forall rf rs3, finalizer rs2 = (rf, rs3) -> rs' = rs3)
                /\ exists rf, finalizer rs2 = (rf, rs'))
        as (rs2 & msgs & E2 & Hm & _ & rf & Hf).
      { destruct e as [|msg]; unfold console_print in Hr;
          match type of Hr with
          | context [finalizer ?st] =>
              exists st; destruct (finalizer st) as [rf rs3] eqn:Hf
          end.
        - exists [MsgInterrupted]. cbn [console]. rewrite E.
          split; [reflexivity|]. split; [reflexivity|].
          split; [intros; destruct rf as [[]|?|]; simplify_eq; reflexivity|].
          exists rf. destruct rf as [[]|?|]; simplify_eq; reflexivity.
        - exists [MsgFatal msg]. cbn [console]. rewrite E.
          split; [reflexivity|]. split; [reflexivity|].
          split; [intros; destruct rf as [[]|?|]; simplify_eq; reflexivity|].
          exists rf. destruct rf as [[]|?|]; simplify_eq; reflexivity. }
      destruct (Hfin _ _ _ Hf) as (closing & E3 & (_ & _ & C3)).
      rewrite E3, E2, !summaries_app, (plain_no_summary _ F), Hm, C3.
      reflexivity.
    - left. simplify_eq.
      destruct (run_body_shape _ _ _ _ _ _ Hb) as (evs & mid & E & F & ->).
      cbn [console List.app] in E. rewrite List.app_nil_r in E.
      rewrite E. apply plain_no_summary. exact F. }
  apply summaries_In in Hin.
  destruct Hcases as [E|(st & n0 & I & U & L & S)].
  - rewrite E in Hin. destruct Hin.
  - rewrite S in Hin. destruct Hin as [Heq|[]]. injection Heq as <- <- <- <-.
    auto.
Qed.

End Progress.

(** * The properties at work in the simulated world *)
Section Runs.
Import Sim Scenario.

(** The example of the specification for rule 1. *)
Lemma get_filename_from_url_rule1_witness :
  get_filename_from_url "https://x.test/dl/Forza%20Horizon.rar?ref=1" blank
  = (Ok (Some "Forza Horizon.rar"), blank).
Proof.
  refine (get_filename_from_url_rule1
            "https://x.test/dl/Forza%20Horizon.rar?ref=1"
            {| urllib.scheme := "https"; urllib.netloc := "x.test";
               urllib.path := "/dl/Forza%20Horizon.rar";
               urllib.params := EmptyString; urllib.query := "ref=1";
               urllib.fragment := EmptyString |} blank _ _ _);
    vm_compute; reflexivity.
Defined.

(** C7 as stated fails: the decoded last segment of the first address is
    [ a.rar], with a leading space; it contains a dot and does not end in a
    separator, and the resolver returns [a.rar]. The decoded last segment of
    the second address is [a.b/ ], with a trailing space; it contains a dot,
    does not end in a separator, and the first rule rejects it: the resolver
    returns [None]. The white space that is trimmed is that of Unicode: the
    decoded last segment of the third address is a.rar followed by a
    no-break space, and the resolver returns [a.rar]. *)
Lemma rule1_trims_white_space :
  (last_segment_decoded "/dl/%20a.rar" = " a.rar"
   /\ Str.contains "." " a.rar" = true
   /\ ends_in_separator " a.rar" = false
   /\ get_filename_from_url "https://x.test/dl/%20a.rar" blank
      = (Ok (Some "a.rar"), blank))
  /\ (last_segment_decoded "/dl/a.b%2F%20" = "a.b/ "
      /\ Str.contains "." "a.b/ " = true
      /\ ends_in_separator "a.b/ " = false
      /\ get_filename_from_url "https://x.test/dl/a.b%2F%20" blank
         = (Ok None, blank))
  /\ (last_segment_decoded "/dl/a.rar%C2%A0" = "a.rar" +:+ no_break_space
      /\ Str.contains "." ("a.rar" +:+ no_break_space) = true
      /\ ends_in_separator ("a.rar" +:+ no_break_space) = false
      /\ get_filename_from_url "https://x.test/dl/a.rar%C2%A0" blank
         = (Ok (Some "a.rar"), blank)).
Proof. vm_compute. repeat split; reflexivity. Qed.

(** An address that [urlparse] rejects resolves to [None]. *)
Lemma get_filename_from_url_never_raises_witness :
  get_filename_from_url "http://[ab/x.rar" blank = (Ok None, blank).
Proof.
  apply (proj1 (proj2 (get_filename_from_url_never_raises
                         "http://[ab/x.rar" blank)) "Invalid IPv6 URL").
  vm_compute. reflexivity.
Defined.

(** C3 as stated fails: with gameplay.rar as the only entry, the matcher
    returns gameplay.rar for the address that resolves to game.rar. *)
Lemma check_file_exists_matches_gameplay :
  get_filename_from_url game_url (only "gameplay.rar")
  = (Ok (Some "game.rar"), only "gameplay.rar")
  /\ check_file_exists "/dl" game_url (only "gameplay.rar")
     = (Ok (Some "gameplay.rar"), only "gameplay.rar").
Proof. vm_compute. split; reflexivity. Qed.

Lemma check_file_exists_game_witness :
  check_file_exists "/dl" game_url (only "game (2).rar.part")
  = (Ok (Some "game (2).rar.part"), only "game (2).rar.part")
  /\ check_file_exists "/dl" game_url (only "gameplay.rar")
     = (Ok (Some "gameplay.rar"), only "gameplay.rar").
Proof.
  split.
  - refine (proj1 (check_file_exists_game "/dl" game_url
                     (only "game (2).rar.part") (only "game (2).rar.part") _)
              "game (2).rar.part" (only "game (2).rar.part") _ _).
    + vm_compute. reflexivity.
    + cbn. tauto.
    + vm_compute. reflexivity.
  - refine (proj2 (proj2 (check_file_exists_game "/dl" game_url
                            (only "gameplay.rar") (only "gameplay.rar") _)
                     (only "gameplay.rar") (only "gameplay.rar") _ _));
      vm_compute; reflexivity.
Defined.

(** Without a download directory the matcher answers [None]. *)
Lemma check_file_exists_total_witness :
  get_filename_from_url game_url no_directory
  = (Ok (Some "game.rar"), no_directory)
  /\ os_listdir "/dl" no_directory
     = (Err (Exception "No such file or directory"), no_directory)
  /\ fst (check_file_exists "/dl" game_url no_directory) = Ok None.
Proof.
  split; [vm_compute; reflexivity|].
  split; [vm_compute; reflexivity|].
  refine (proj2 (check_file_exists_total "/dl" game_url no_directory)
            (Some "game.rar") no_directory "No such file or directory"
            no_directory _ _); vm_compute; reflexivity.
Defined.

(** C4: the watcher returns a new file whose size is still changing.
    game.rar is new (the snapshot is empty) and has no temporary suffix; in
    the poll cycle that starts at [growing_1s] its size is read as 10, and
    as 20 one second later, so that the stability scan rejects it; the
    recheck for a previously completed version, at the end of that same
    cycle, finds game.rar through the existing-file matcher and returns it
    without a look at its size. The watcher returns game.rar two seconds
    after its start, one second after the file appeared, while a window of
    three samples takes three seconds. *)
Lemma watcher_returns_growing_file :
  is_temp "game.rar" = false
  /\ os_path_getsize "/dl/game.rar" growing_1s = (Val 10, growing_1s)
  /\ time_sleep 1000 growing_1s = (Val tt, growing_2s)
  /\ os_path_getsize "/dl/game.rar" growing_2s = (Val 20, growing_2s)
  /\ scan_new_files "/dl" ["game.rar"] 3 growing_1s = (Ok None, growing_2s)
  /\ poll 1 "/dl" ∅ (Some game_url) 0 150 3 growing_1s
     = (Ok (Some "game.rar"), growing_2s)
  /\ wait_for_download_complete 5 "/dl" ∅ (Some game_url) 150 3 growing
     = (Ok (Some "game.rar"), growing_2s).
Proof. vm_compute. repeat split; reflexivity. Qed.

Lemma wait_for_download_complete_sound_witness :
  (by_matcher "/dl" None "movie.rar"
     (snd (wait_for_download_complete 5 "/dl" ∅ None 150 3 steady))
   \/ by_stability "/dl" ∅ 3 "movie.rar"
        (snd (wait_for_download_complete 5 "/dl" ∅ None 150 3 steady)))
  /\ scan_new_files "/dl" ["game.rar"] 3 growing_1s
     = scan_new_files "/dl" [] 3 growing_2s.
Proof.
  split.
  - refine (proj1 (wait_for_download_complete_sound 5 "/dl" ∅ None 150 3)
              steady "movie.rar" _ _).
    vm_compute. reflexivity.
  - refine (proj2 (wait_for_download_complete_sound 5 "/dl" ∅ None 150 3)
              "game.rar" [] growing_1s growing_1s 10 growing_1s growing_2s
              _ _ _).
    + vm_compute. reflexivity.
    + vm_compute. reflexivity.
    + eapply (changed_now _ _ _ growing_1s growing_2s 20 growing_2s).
      * vm_compute. reflexivity.
      * vm_compute. reflexivity.
      * discriminate.
Defined.

Lemma wait_for_download_complete_vanished_witness :
  wait_for_download_complete 1 "/dl" ∅ None 150 3 vanishing
  = (Ok (Some "movie.rar"), vanished_at 3000).
Proof.
  refine (wait_for_download_complete_vanished 0 "/dl" ∅ None 150 3
            vanishing vanishing vanishing vanishing vanishing vanishing
            vanishing (vanished_at 3000) 0 0 700 None ["movie.rar"] []
            "movie.rar" _ _ _ _ _ _ _ _ _ _ _);
    try (vm_compute; reflexivity).
  eapply (gone_step _ 2 vanishing (vanished_at 1000));
    [vm_compute; reflexivity | vm_compute; reflexivity |].
  eapply (gone_step _ 1 (vanished_at 1000) (vanished_at 2000));
    [vm_compute; reflexivity | vm_compute; reflexivity |].
  eapply (gone_step _ 0 (vanished_at 2000) (vanished_at 3000));
    [vm_compute; reflexivity | vm_compute; reflexivity |].
  apply gone_done.
Defined.

(** C1, the code at the end-to-end scenario of the specification: the
    trigger of the second address is invoked (after the restart of the dead
    session) and the watcher reports movie.rar; yet the trigger returns
    [False], the address is counted as failed, and the final tally is
    0 succeeded, 1 skipped, 2 failed, where the specification says
    1 succeeded, 1 skipped, 1 failed. *)
Theorem run_three_addresses :
  fst (wait_for_download_complete 200 "/dl" {[ "a.rar" ]} (Some page2) 150 3
         downloading) = Ok (Some "movie.rar")
  /\ fst (trigger 200 args0 "/dl" page2 loop_second second_address)
     = Ok (loop_restarted, RFalse)
  /\ fst (attempt 200 args0 "/dl" 3 2 page2 loop_second second_address)
     = Ok {| successful := 0; failed := 1; skipped := 1;
             downloads_since_refresh := 0; drv := 1%nat |}
  /\ fst (run 200 args0 (start three_addresses)) = Ok tt
  /\ console (snd (run 200 args0 (start three_addresses)))
     = [MsgFound 3 "/dl"; ProgressStart 3; MsgItem 1 3 "a.rar";
        MsgExists "a.rar"; ProgressUpdate 0 1 0; MsgItem 2 3 page2;
        MsgRestarting; ProgressUpdate 0 1 1; MsgItem 3 3 page3;
        ProgressUpdate 0 1 2; Summary 0 1 2 3; MsgClosed].
Proof. vm_compute. repeat split; reflexivity. Qed.

(** C2 as stated fails: when the user cancels the run while the third
    address is polled, one address is skipped and one has failed, and the
    console ends with the interruption; when no browser can be started
    after the session died, it ends with the fatal error. Neither run
    prints the tally. *)
Lemma aborted_runs_report_no_tally :
  (fst (run 200 args0 (start cancelled)) = Ok tt
   /\ console (snd (run 200 args0 (start cancelled)))
      = [MsgFound 3 "/dl"; ProgressStart 3; MsgItem 1 3 "a.rar";
         MsgExists "a.rar"; ProgressUpdate 0 1 0; MsgItem 2 3 page2;
         MsgRestarting; ProgressUpdate 0 1 1; MsgItem 3 3 page3;
         MsgInterrupted; MsgClosed])
  /\ (fst (run 200 args0 (start no_second_browser)) = Ok tt
      /\ console (snd (run 200 args0 (start no_second_browser)))
         = [MsgFound 3 "/dl"; ProgressStart 3; MsgItem 1 3 "a.rar";
            MsgExists "a.rar"; ProgressUpdate 0 1 0; MsgItem 2 3 page2;
            MsgRestarting; MsgFatal "cannot find Chrome binary"; MsgClosed]).
Proof. vm_compute. repeat split; reflexivity. Qed.

(** The run of the three addresses goes through all of them and prints
    its tally; the run that the user cancels prints the interruption. *)
Lemma run_reports_tally_on_completion_witness :
  (0 + 1 + 2 = Z.of_nat 3
   /\ run_body 200 args0 "/dl" (start three_addresses)
      = (Ok tt,
         printed
           (snd (process_links 200 args0 "/dl" 3 1 (txt three_addresses)
                   (loop_start 0%nat)
                   (printed
                      (printed
                         (snd (candidate_links args0 "/dl"
                                 (start three_addresses)))
                         (MsgFound 3 "/dl"))
                      (ProgressStart 3))))
           (Summary 0 1 2 3)))
  /\ handlers (run_body 200 args0 "/dl") (start cancelled)
     = (Ok tt, printed (snd (run_body 200 args0 "/dl" (start cancelled)))
                 MsgInterrupted).
Proof.
  split.
  - refine (let H := proj1 (proj2 (run_reports_tally_on_completion 200 args0))
                       (start three_addresses) 0%nat (txt three_addresses)
                       (snd (candidate_links args0 "/dl"
                               (start three_addresses)))
                       {| successful := 0; failed := 2; skipped := 1;
                          downloads_since_refresh := 0; drv := 1%nat |}
                       (snd (process_links 200 args0 "/dl" 3 1
                               (txt three_addresses) (loop_start 0%nat)
                               (printed
                                  (printed
                                     (snd (candidate_links args0 "/dl"
                                             (start three_addresses)))
                                     (MsgFound 3 "/dl"))
                                  (ProgressStart 3)))) _ _ _ in
            conj (proj1 H) (proj1 (proj2 H)));
      [vm_compute; reflexivity|discriminate|vm_compute; reflexivity].
  - refine (proj1 (proj2 (proj1 (proj2 (proj2 (proj2
                     (run_reports_tally_on_completion 200 args0))))
                     (start cancelled) KeyboardInterrupt
                     (snd (run_body 200 args0 "/dl" (start cancelled))) _))).
    vm_compute. reflexivity.
Defined.

Lemma session_refresh_counter_witness :
  should_refresh args0
    (record_all (List.repeat (Some RTrue) 10) fresh_loop) = true
  /\ (downloads_since_refresh loop_refreshed = 0
      /\ should_refresh args0 loop_refreshed = false
      /\ same_counts loop_due loop_refreshed
      /\ process_link 200 args0 "/dl" 3 2 page2 loop_due second_address
         = attempt 200 args0 "/dl" 3 2 page2 loop_refreshed
             (snd (restart_session args0 "/dl" MsgRefreshing loop_due
                     (printed second_address (MsgItem 2 3 page2))))).
Proof.
  split.
  - apply (proj1 (session_refresh_counter args0 fresh_loop ltac:(cbn; lia))
             (List.repeat (Some RTrue) 10) eq_refl).
    apply Z.leb_le. vm_compute. reflexivity.
  - refine (proj2 (proj2 (session_refresh_counter args0 loop_due _))
              200%nat "/dl" 3%nat 2%nat page2 second_address None
              (world second_address) None (world second_address)
              loop_refreshed _ _ _ _ _ _).
    + cbn. lia.
    + reflexivity.
    + vm_compute. reflexivity.
    + vm_compute. reflexivity.
    + reflexivity.
    + vm_compute. reflexivity.
Defined.

Lemma trigger_retries_once_witness :
  click_download_button 200 0%nat page2 "/dl" 20 (world second_address)
  = (Ok SESSION_EXPIRED, world second_address)
  /\ fst (trigger 200 args0 "/dl" page2 loop_second second_address)
     = Ok (loop_restarted, RFalse)
  /\ failed (record_result RFalse loop_restarted) = failed loop_second + 1.
Proof.
  assert (Hfirst :
    click_download_button 200 (drv loop_second) page2 "/dl" (max_wait args0)
      (world second_address) = (Ok SESSION_EXPIRED, world second_address))
    by (vm_compute; reflexivity).
  split; [exact Hfirst|].
  pose (rs2 := snd (restart_session args0 "/dl" MsgRestarting loop_second
                      (set_world second_address (world second_address)))).
  pose (w3 := snd (click_download_button 200 1%nat page2 "/dl" 20 (world rs2))).
  pose (w4 := snd (time_sleep 2000 w3)).
  destruct (proj2 (trigger_retries_once 200 args0 "/dl" page2 loop_second
                     second_address (world second_address) Hfirst)
              loop_restarted rs2 RFalse w3 3%nat 2%nat w4 [page3])
    as (Htrig & _ & Hfailed & _).
  - vm_compute. reflexivity.
  - vm_compute. reflexivity.
  - vm_compute. reflexivity.
  - rewrite Htrig. split; [reflexivity|exact Hfailed].
Defined.

End Runs.

(** * The further properties at work in the simulated world *)
Section SimClock.
Import Sim.

Lemma apply_clock (a : action) (w : state) : clock (snd (apply a w)) = clock w.
Proof. destruct a; reflexivity. Qed.

Lemma apply_all_clock (l : list action) (w : state) :
  clock (snd (apply_all l w)) = clock w.
Proof.
  revert w. induction l as [|a l IH]; intros w; cbn [apply_all]; [reflexivity|].
  pose proof (apply_clock a w) as Ha. destruct (apply a w) as [i w1].
  pose proof (IH w1) as Hl. destruct (apply_all l w1) as [j w2].
  cbn [snd] in *. congruence.
Qed.

Lemma sleep_clock (ms : Z) (w : state) :
  clock (snd (sleep ms w)) = clock w + ms.
Proof.
  unfold sleep.
  match goal with
  | |- context [apply_all ?l ?w0] =>
      pose proof (apply_all_clock l w0) as Hc; destruct (apply_all l w0) as [i w1]
  end.
  cbn [snd] in *. exact Hc.
Qed.

(** The clock of the simulated world ticks. *)
Lemma sim_ticking : ticking clock.
Proof.
  unfold ticking, forward.
  split; [|split; [|split; [|split; [|split; [|split]]]]].
  - intros w t w' Ht. cbn in Ht. simplify_eq. lia.
  - intros ms w w' _ Hs. cbn in Hs.
    pose proof (sleep_clock ms w) as Hc. rewrite Hs in Hc. cbn in Hc. lia.
  - intros ms Hms w r w' Hs. cbn in Hs.
    pose proof (sleep_clock ms w) as Hc. rewrite Hs in Hc. cbn in Hc. lia.
  - intros p w r w' Hp. cbn in Hp. repeat case_match; simplify_eq; lia.
  - intros p w r w' Hp. cbn in Hp. simplify_eq. lia.
  - intros p w r w' Hp. cbn in Hp. repeat case_match; simplify_eq; lia.
  - intros p w r w' Hp. cbn in Hp. repeat case_match; simplify_eq; lia.
Qed.

End SimClock.

Section Further.
Import Sim Scenario Cases.

(** With the filter, of an about page and a download page the second
    alone is a candidate; without it both are. *)
Lemma collect_links_filter_witness :
  In "https://x.test/download/1"
    (collect_links args_filtered
       ["https://x.test/about"; "https://x.test/download/1"])
  /\ collect_links args0 ["https://x.test/about"; "https://x.test/download/1"]
     = dedupe ["https://x.test/about"; "https://x.test/download/1"].
Proof.
  split.
  - apply (proj1 (collect_links_filter args_filtered
                    ["https://x.test/about"; "https://x.test/download/1"])
             eq_refl).
    + exists "https://x.test/download/1". split; [cbn; tauto|reflexivity].
    + split; [cbn; tauto|reflexivity].
  - apply (proj2 (collect_links_filter args0
                    ["https://x.test/about"; "https://x.test/download/1"])).
    left. reflexivity.
Defined.

(** The first line of the file is read without the blanks around it, also
    when the file cannot be decoded after its four lines. *)
Lemma read_urls_from_txt_clean_witness :
  @read_urls_from_txt _ torn_file "links.txt" commented
  = (Ok ["https://x.test/dl/a.rar"; "https://x.test/page/2"], commented)
  /\ ("https://x.test/dl/a.rar" <> EmptyString
      /\ Str.startswith "#" "https://x.test/dl/a.rar" = false
      /\ Str.strip "https://x.test/dl/a.rar" = "https://x.test/dl/a.rar"
      /\ exists line,
           In line (fst (fst (@read_lines _ torn_file "links.txt" commented)))
           /\ "https://x.test/dl/a.rar" = Str.strip line).
Proof.
  assert (Hread : @read_urls_from_txt _ torn_file "links.txt" commented
                  = (Ok ["https://x.test/dl/a.rar"; "https://x.test/page/2"],
                     commented)) by (vm_compute; reflexivity).
  split; [exact Hread|].
  apply (@read_urls_from_txt_clean _ torn_file "links.txt" commented commented
           _ Hread).
  left. reflexivity.
Defined.

(** The file cannot be decoded after its four lines: the reading ends with
    an error, and the two addresses read before it are returned. *)
Lemma read_urls_from_txt_total_witness :
  (snd (fst (@read_lines _ torn_file "links.txt" commented)) <> None
   /\ snd (fst (@read_lines _ torn_file "links.txt" commented))
      <> Some KeyboardInterrupt)
  /\ @read_urls_from_txt _ torn_file "links.txt" commented
     = (Ok (List.filter
              (fun u => negb (Str.is_empty u) && negb (Str.startswith "#" u))
              (List.map Str.strip (txt commented))), commented)
  /\ List.filter
       (fun u => negb (Str.is_empty u) && negb (Str.startswith "#" u))
       (List.map Str.strip (txt commented))
     = ["https://x.test/dl/a.rar"; "https://x.test/page/2"].
Proof.
  split; [split; discriminate|]. split; [|vm_compute; reflexivity].
  apply (proj1 (proj2 (proj2
           (@read_urls_from_txt_total _ torn_file "links.txt" commented)))
           (txt commented)
           (Some (Exception "'utf-8' codec can't decode byte 0xff")) commented).
  - reflexivity.
  - discriminate.
Defined.

Lemma get_filename_from_url_has_dot_witness :
  Str.contains "." "game.rar" = true /\ "game.rar" <> EmptyString.
Proof.
  apply (get_filename_from_url_has_dot game_url blank blank).
  vm_compute. reflexivity.
Defined.



(** Of four entries, the two that end in .part and .tmp are reported; the
    download in progress of Chrome is not. *)
Lemma get_incomplete_files_partial_witness :
  get_incomplete_files "/dl" downloads = (Ok ["a.rar.part"; "c.tmp"], downloads)
  /\ (is_temp "c.tmp" = true /\ Str.endswith ".crdownload" "c.tmp" = false)
  /\ get_incomplete_files "/dl" no_directory = (Ok [], no_directory).
Proof.
  assert (Hfiles : get_incomplete_files "/dl" downloads
                   = (Ok ["a.rar.part"; "c.tmp"], downloads))
    by (vm_compute; reflexivity).
  split; [exact Hfiles|]. split.
  - apply (proj2 (proj2 (proj2 (get_incomplete_files_partial "/dl" downloads))
                    _ _ Hfiles)).
    right. left. reflexivity.
  - apply (proj1 (proj2 (get_incomplete_files_partial "/dl" no_directory))
             "No such file or directory").
    vm_compute. reflexivity.
Defined.

(** In the empty world a watcher with a timeout of two seconds gives up
    when the clock reads two seconds. *)
Lemma wait_for_download_complete_gives_up_witness :
  exists start w0 now w1,
    time_time blank = (Val start, w0)
    /\ time_time w1 = (Val now, blank_2s)
    /\ 2 * 1000 <= now - start.
Proof.
  apply (wait_for_download_complete_gives_up 5 "/dl" ∅ None 2 3 blank blank_2s).
  vm_compute. reflexivity.
Defined.

Lemma wait_for_download_complete_returns_witness :
  fst (wait_for_download_complete 151 "/dl" ∅ (Some page3) 150 3 blank)
  <> Diverge
  /\ (forall w',
        wait_for_download_complete 151 "/dl" ∅ (Some page3) 150 3 blank
        = (Ok None, w') ->
        clock blank + 150 * 1000 <= clock w').
Proof.
  apply (wait_for_download_complete_returns clock sim_ticking 151 "/dl" ∅
           (Some page3) 150 3 blank).
  vm_compute. lia.
Defined.

Lemma run_returns_witness :
  fst (run 151 args0 (start three_addresses)) <> Diverge
  /\ fst (run 151 args0 (start cancelled)) <> Diverge.
Proof.
  split; apply (run_returns clock sim_ticking 151 args0); lia.
Defined.

(** The one browser of the empty world starts; a second one does not. *)
Lemma setup_driver_start_witness :
  setup_driver "/dl" true true blank = (Ok 0%nat, with_new_driver blank)
  /\ setup_driver "/dl" true true (with_new_driver blank)
     = (Raise (Exception "cannot find Chrome binary"), with_new_driver blank).
Proof.
  split.
  - refine (proj2 (setup_driver_start "/dl" true true blank) 0%nat
              (with_new_driver blank) (Val tt) (with_new_driver blank) _ _ _);
      [reflexivity|reflexivity|discriminate].
  - apply (proj1 (setup_driver_start "/dl" true true (with_new_driver blank))).
    reflexivity.
Defined.

(** On a page without a button the seven waits fail; on the second page
    the first selector gives the button. *)
Lemma find_download_button_first_witness :
  find_download_button 0%nat 20 blank = (Ok None, blank)
  /\ find_download_button 1%nat 20 on_page2 = (Ok (Some 0%nat), on_page2).
Proof.
  split.
  - apply (proj1 (proj2 (find_download_button_first 0%nat 20 blank))).
    repeat (eapply misses_cons; [vm_compute; reflexivity|]).
    apply misses_nil.
  - apply (proj2 (proj2 (find_download_button_first 1%nat 20 on_page2))).
    exists [], (CSS_SELECTOR, "button.gay-button"), (List.tl selectors), on_page2.
    split; [reflexivity|]. split; [constructor|vm_compute; reflexivity].
Defined.

(** A dead session; a network that is down; and an error of the network
    whose text speaks of a session. *)
Lemma click_download_button_answers_witness :
  click_download_button 200 0%nat page2 "/dl" 20 (world second_address)
  = (Ok SESSION_EXPIRED, world second_address)
  /\ @click_download_button _ offline 200 0%nat page2 "/dl" 20 blank
     = (Ok RFalse, blank)
  /\ @click_download_button _ offline_session 200 0%nat page2 "/dl" 20 blank
     = (Ok SESSION_EXPIRED, blank).
Proof.
  split; [|split].
  - apply (proj1 (proj2 (click_download_button_answers 200 0%nat page2 "/dl" 20
                           (world second_address))) "invalid session id").
    vm_compute. reflexivity.
  - apply (proj2 (proj2 (@click_download_button_answers _ offline 200 0%nat
                           page2 "/dl" 20 blank))
             EmptyString blank "net::ERR_INTERNET_DISCONNECTED" blank);
      vm_compute; reflexivity.
  - apply (proj2 (proj2 (@click_download_button_answers _ offline_session 200
                           0%nat page2 "/dl" 20 blank))
             EmptyString blank "Session not created: offline" blank);
      vm_compute; reflexivity.
Defined.

Lemma run_never_refreshes_witness :
  0 < session_refresh args0
  /\ ~ In MsgRefreshing (console (snd (run 200 args0 (start three_addresses)))).
Proof.
  split; [cbn; lia|].
  apply (run_never_refreshes 200 args0 three_addresses
           (fst (run 200 args0 (start three_addresses)))).
  - cbn. lia.
  - apply surjective_pairing.
Defined.

Lemma run_lets_no_exception_out_witness :
  fst (run 200 args0 (start cancelled)) = Ok tt
  \/ fst (run 200 args0 (start cancelled)) = Diverge
  \/ (fst (run 200 args0 (start cancelled)) = Raise KeyboardInterrupt
      /\ exists d w2,
           driver_var (snd (run 200 args0 (start cancelled))) = Some d
           /\ fst (driver_quit d w2) = Err KeyboardInterrupt).
Proof.
  apply (proj2 (run_lets_no_exception_out 200 args0 cancelled) cancelled).
  - reflexivity.
  - apply surjective_pairing.
Defined.

(** The first address of [three_addresses]: a.rar is there. *)
Lemma process_link_skips_witness :
  process_link 200 args0 "/dl" 3 1 "https://x.test/dl/a.rar" fresh_loop
    second_address
  = (Ok (record_skip fresh_loop),
     {| world := world second_address;
        console := [MsgItem 1 3 "a.rar"; MsgExists "a.rar";
                    ProgressUpdate 0 1 0];
        driver_var := Some 0%nat |}).
Proof.
  refine (process_link_skips 200 args0 "/dl" 3 1 "https://x.test/dl/a.rar"
            fresh_loop second_address (Some "a.rar") (world second_address)
            "a.rar" (world second_address) (Val 5) (world second_address)
            _ _ _ _ _);
    try (vm_compute; reflexivity); discriminate.
Defined.

Lemma run_without_inputs_witness :
  run 200 args_none (start blank)
  = (Ok tt, {| world := with_dead (with_new_driver blank) [0%nat];
               console := [MsgNoLinks; MsgClosed];
               driver_var := Some 0%nat |}).
Proof.
  refine (run_without_inputs 200 args_none blank blank (with_new_driver blank)
            (with_dead (with_new_driver blank) [0%nat]) 0%nat _ _ _ _ _);
    reflexivity.
Defined.

(** Of the four anchors of the listing page, the two web addresses are
    returned, each of them once, in the order of the page. *)
Lemma scrape_links_unique_witness :
  @Page.scrape_links _ listing_page listing_dom 0%nat "https://x.test/list" 20
    four_anchors
  = (Ok ["https://x.test/page/2"; "https://x.test/page/3"],
     with_clock (with_page four_anchors "https://x.test/list") 1000 [])
  /\ (exists hs,
        @reads _ listing_dom [1%nat; 2%nat; 3%nat; 4%nat]
          (with_clock (with_page four_anchors "https://x.test/list") 1000 [])
          hs
          (with_clock (with_page four_anchors "https://x.test/list") 1000 [])
        /\ ["https://x.test/page/2"; "https://x.test/page/3"]
           = dedupe (web_addresses hs))
  /\ (List.NoDup ["https://x.test/page/2"; "https://x.test/page/3"]
      /\ (forall l,
            In l ["https://x.test/page/2"; "https://x.test/page/3"] ->
            Str.startswith "http" l = true)
      /\ dedupe ["https://x.test/page/2"; "https://x.test/page/3"]
         = ["https://x.test/page/2"; "https://x.test/page/3"]).
Proof.
  assert (Hs : @Page.scrape_links _ listing_page listing_dom 0%nat
                 "https://x.test/list" 20 four_anchors
               = (Ok ["https://x.test/page/2"; "https://x.test/page/3"],
                  with_clock (with_page four_anchors "https://x.test/list")
                    1000 []))
    by (vm_compute; reflexivity).
  split; [exact Hs|].
  destruct (@scrape_links_unique _ listing_page listing_dom _ _ _ _ _ _ Hs)
    as [(w1 & body & w2 & w3 & anchors & w4 & hs & H1 & H2 & H3 & H4 & H5 & H6)
        Hrest].
  split; [|exact Hrest].
  vm_compute in H1. injection H1 as <-.
  vm_compute in H2. injection H2 as <- <-.
  vm_compute in H3. injection H3 as <-.
  vm_compute in H4. injection H4 as <- <-.
  exists hs. split; assumption.
Defined.

(** With a dead session the listing page cannot be opened. *)
Lemma scrape_links_raises_witness :
  @Page.scrape_links _ listing_page listing_dom 0%nat "https://x.test/list" 20
    (world second_address)
  = (Raise (Exception "invalid session id"), world second_address).
Proof.
  apply (proj1 (@scrape_links_raises _ listing_page listing_dom 0%nat
                  "https://x.test/list" 20 (world second_address))).
  vm_compute. reflexivity.
Defined.


(** Blanks around an address, and an address of blanks. *)
Lemma get_filename_from_url_trims_witness :
  get_filename_from_url (Str.strip "  https://x.test/dl/game.rar ") blank
  = get_filename_from_url "  https://x.test/dl/game.rar " blank
  /\ get_filename_from_url "  " blank
     = try_except
         (cd ← call (requests_head EmptyString); mret (rule4_header cd))
         (fun _ => mret None) blank.
Proof.
  split.
  - apply (proj1 (get_filename_from_url_trims "  https://x.test/dl/game.rar "
                    blank)).
    vm_compute. discriminate.
  - apply (proj2 (get_filename_from_url_trims "  " blank));
      [discriminate|reflexivity].
Defined.



(** The run of [three_addresses]: three announcements, three progress
    lines, and the tally of the last line. *)
Lemma run_progress_agrees_witness :
  items (console (snd (run 200 args0 (start three_addresses)))) = [1; 2; 3]%nat
  /\ List.length (updates (console (snd (run 200 args0 (start three_addresses)))))
     = 3%nat
  /\ List.last (updates (console (snd (run 200 args0 (start three_addresses)))))
       (0, 0, 0) = (0, 1, 2)
  /\ summaries (console (snd (run 200 args0 (start three_addresses))))
     = [(0, 1, 2, 3%nat)].
Proof.
  apply (run_progress_agrees 200 args0 three_addresses
           (fst (run 200 args0 (start three_addresses)))
           (snd (run 200 args0 (start three_addresses))) 0 1 2 3).
  - apply surjective_pairing.
  - vm_compute. tauto.
Defined.

End Further.
